(** * Civic issue intelligence engine: the Express/Prisma server of
    [src/lib/utils.ts] (the routes of the accounts, [/api/stats],
    [/api/problems], [/api/problems/:id/status], [/api/problems/:id/comment],
    [/api/messages], [/api/users], [/api/reports/strategic]) and the seeding
    script, embedded as pure functions over an explicit store, with what the
    client computes from their answers (charts, search box, message thread).

    Conventions of the embedding

    - An instant ([Date], a [DateTime] column) is its number of milliseconds
      since the epoch, a [Z].
    - A [Float] column or a JavaScript number that is not an integer is an
      exact rational ([Q]); sums and divisions are exact.
    - A table is the list of its rows in insertion order; [findFirst] without
      [orderBy] returns the first matching row of that list.
    - [schema.prisma] is not part of the sources.  What the handlers need from
      it is taken as a parameter (the collation and the escape character of
      [contains], whether [ResolvedComment.problem_id] is unique) or, for
      column defaults, modelled from the specification.
    - One request is served against one snapshot of the store and one reading
      [now] of the clock. *)

From Stdlib Require Import ZArith QArith Qround List String Ascii Bool Lia.
From Stdlib Require Import Permutation Sorted.
Import ListNotations.

Local Open Scope string_scope.
Local Open Scope list_scope.
Local Open Scope Z_scope.

Set Implicit Arguments.

(** ** JavaScript values *)

Module JS.

(** [x || 0] for a number that may be [null]: [null], [0] (and [NaN]) are
    falsy. *)
Definition or_zero (x : option Z) : Z :=
  match x with
  | Some n => if n =? 0 then 0 else n
  | None => 0
  end.

Definition or_zeroQ (x : option Q) : Q :=
  match x with
  | Some q => if Qeq_bool q 0 then 0%Q else q
  | None => 0%Q
  end.

(** [s || d] for a string that may be [undefined]: the empty string is
    falsy. *)
Definition or_string (s : option string) (d : string) : string :=
  match s with
  | Some "" => d
  | Some s' => s'
  | None => d
  end.

(** [Math.floor] and [Math.round] (halves go up). *)
Definition floor (x : Q) : Z := Qfloor x.
Definition round (x : Q) : Z := Qfloor (x + (1 # 2))%Q.

(** [a / b] on two integers. *)
Definition div (a b : Z) : Q := (inject_Z a / inject_Z b)%Q.

End JS.

(** ** Plain objects used as dictionaries

    [Record<K, V>]: the own properties in insertion order, which is the order
    of [Object.entries].  Writing an existing key replaces the value and keeps
    the position.  The keys that occur (ISO dates, category names) are taken
    not to name a member of [Object.prototype] and not to be array indices,
    which an object lists first. *)

Section Dict.

Variables K V : Type.
Variable eqb : K -> K -> bool.

Definition dict := list (K * V).

Fixpoint get (m : dict) (k : K) : option V :=
  match m with
  | [] => None
  | (k', v) :: m' => if eqb k k' then Some v else get m' k
  end.

Fixpoint set (m : dict) (k : K) (v : V) : dict :=
  match m with
  | [] => [(k, v)]
  | (k', v') :: m' => if eqb k k' then (k', v) :: m' else (k', v') :: set m' k v
  end.

Definition keys (m : dict) : list K := map fst m.

End Dict.

Arguments get {K V} eqb m k.
Arguments set {K V} eqb m k v.
Arguments keys {K V} m.

(** ** Strings under the collation of the datasource

    A string is the sequence of its characters, each a code unit below
    256. *)

Section Collation.

(** The comparison key of a character: the identity for a binary collation,
    lower-casing for a case-insensitive one. *)
Variable collate : ascii -> ascii.

Fixpoint fold_string (s : string) : string :=
  match s with
  | EmptyString => EmptyString
  | String a s' => String (collate a) (fold_string s')
  end.

Fixpoint starts_with (hay needle : string) {struct needle} : bool :=
  match needle, hay with
  | EmptyString, _ => true
  | String a n', String b h' =>
      Ascii.eqb (collate a) (collate b) && starts_with h' n'
  | String _ _, EmptyString => false
  end.

(** [needle] occurs in [hay], character by character; under the binary
    collation this is [hay.includes(needle)]. *)
Fixpoint has_substring (hay needle : string) : bool :=
  starts_with hay needle ||
  match hay with
  | EmptyString => false
  | String _ h' => has_substring h' needle
  end.

(** [needle] occurs in [hay], up to the collation. *)
Definition occurs_in (needle hay : string) : Prop :=
  exists pre post, fold_string hay = (pre ++ fold_string needle ++ post)%string.

(** *** [LIKE]

    The string filter [{ contains: needle }] reaches the database as
    [LIKE '%needle%'], the characters of [needle] as they are.  In a pattern
    [%] stands for any run of characters and [_] for any one character, also
    where they come from [needle].  Where [LIKE] has an escape character (the
    backslash on PostgreSQL and MySQL, none on SQLite) the character after it
    stands for itself.  Bracket classes, which SQL Server adds, are not
    modelled. *)

Inductive token : Type :=
| Any               (* [%] *)
| One               (* [_] *)
| Lit (a : ascii).

(** Whether the backslash is the escape character of [LIKE]. *)
Variable backslash : bool.

Definition is_escape (a : ascii) : bool := backslash && Ascii.eqb a "\".

Definition token_of (a : ascii) : token :=
  if Ascii.eqb a "%" then Any
  else if Ascii.eqb a "_" then One
  else Lit a.

(** The pattern of [contains] ends in [%], so the escape character is never
    its last character; at the end of a pattern it is read as itself. *)
Fixpoint tokens (pattern : string) : list token :=
  match pattern with
  | EmptyString => []
  | String a rest =>
      if is_escape a
      then match rest with
           | EmptyString => [Lit a]
           | String b rest' => Lit b :: tokens rest'
           end
      else token_of a :: tokens rest
  end.

(** [s LIKE p], for the whole of [s]. *)
Fixpoint like (p : list token) : string -> bool :=
  match p with
  | [] => fun s => match s with EmptyString => true | String _ _ => false end
  | Any :: p' =>
      fix skip (s : string) : bool :=
        like p' s ||
        match s with
        | EmptyString => false
        | String _ s' => skip s'
        end
  | One :: p' =>
      fun s => match s with
               | EmptyString => false
               | String _ s' => like p' s'
               end
  | Lit a :: p' =>
      fun s => match s with
               | EmptyString => false
               | String b s' =>
                   Ascii.eqb (collate a) (collate b) && like p' s'
               end
  end.

(** Prisma's [{ contains: needle }] string filter. *)
Definition contains (hay needle : string) : bool :=
  like (tokens ("%" ++ needle ++ "%")) hay.

(** A string without [%], [_] and the escape character: in a pattern every
    character of it stands for itself. *)
Fixpoint plain (s : string) : bool :=
  match s with
  | EmptyString => true
  | String a s' =>
      negb (Ascii.eqb a "%") && negb (Ascii.eqb a "_") && negb (is_escape a)
      && plain s'
  end.

(** A string without the escape character. *)
Fixpoint unescaped (s : string) : bool :=
  match s with
  | EmptyString => true
  | String a s' => negb (is_escape a) && unescaped s'
  end.

End Collation.

Arguments occurs_in collate needle hay /.

(** ** Data model (the interfaces [User], [Problem], [Cluster],
    [ResolvedComment] and the columns the handlers read and write) *)

Module User.
(** The decoded token [req.user]. *)
Record t := { id : Z; role : string }.
End User.

Module Analysis.
(** [req.body.analysis], the classifier's judgment. *)
Record t := {
  sentiment_label : string;
  sentiment_score : Q;
  priority_score : Q;
  is_urgent : bool;
  category : string;
  cluster_suggestion : string }.
End Analysis.

Module Problem.
Record t := {
  id : string;
  user_id : Z;
  title : string;
  description : string;
  category : string;
  location : string;
  image_url : option string;
  status : string;
  created_at : Z;
  resolved_at : option Z;
  sentiment_score : Q;
  sentiment_label : string;
  priority_score : Q;
  is_urgent : bool;
  cluster_id : option Z }.

Definition with_status (s : string) (r : option Z) (p : t) : t :=
  {| id := id p; user_id := user_id p; title := title p;
     description := description p; category := category p;
     location := location p; image_url := image_url p;
     status := s; created_at := created_at p; resolved_at := r;
     sentiment_score := sentiment_score p;
     sentiment_label := sentiment_label p;
     priority_score := priority_score p; is_urgent := is_urgent p;
     cluster_id := cluster_id p |}.
End Problem.

Module Cluster.
(** [summary] and [last_updated] are not read or written by the handlers and
    are left out. *)
Record t := {
  id : Z;
  cluster_name : string;
  area : string;
  problem_count : Z;
  avg_sentiment : Q }.

Definition with_stats (n : Z) (avg : Q) (c : t) : t :=
  {| id := id c; cluster_name := cluster_name c; area := area c;
     problem_count := n; avg_sentiment := avg |}.
End Cluster.

Module ResolvedComment.
Record t := {
  id : string;
  problem_id : string;
  citizen_id : Z;
  rating : string;
  comment : string;
  time_taken : option Z;       (* in seconds *)
  created_at : Z }.
End ResolvedComment.

Record Store := {
  problems : list Problem.t;
  clusters : list Cluster.t;
  resolvedComments : list ResolvedComment.t }.

Definition empty_store : Store :=
  {| problems := []; clusters := []; resolvedComments := [] |}.

(** What a handler leaves the client with: [res.json(a)],
    [res.status(code).json({ error })], or a rejection nobody catches. *)
Inductive reply (A : Type) : Type :=
| Json (a : A)
| Status (code : Z) (error : string)
| Unhandled.

Arguments Json {A} a.
Arguments Status {A} code error.
Arguments Unhandled {A}.

(** ** Column defaults *)

(** Modelled from the spec: the default of [Problem.status] in
    [schema.prisma], which is not among the sources; a report starts
    [Pending]. *)
Definition default_status : string := "Pending".

(** Modelled from the spec: the default of [Cluster.problem_count] in
    [schema.prisma], which is not among the sources; a new cluster has
    count 0. *)
Definition default_problem_count : Z := 0.

(** Modelled from the spec: the default of [Cluster.avg_sentiment] in
    [schema.prisma], which is not among the sources; a new cluster has mean
    sentiment 0. *)
Definition default_avg_sentiment : Q := 0%Q.

(** ** The Prisma client, table by table *)

Fixpoint sumQ (l : list Q) : Q :=
  match l with
  | [] => 0%Q
  | x :: l' => (x + sumQ l')%Q
  end.

(** [_avg] of an aggregate: [null] over no row. *)
Definition avgQ (l : list Q) : option Q :=
  match l with
  | [] => None
  | _ => Some (sumQ l / inject_Z (Z.of_nat (List.length l)))%Q
  end.

Definition count {A} (where_ : A -> bool) (rows : list A) : Z :=
  Z.of_nat (List.length (filter where_ rows)).

Definition update_where {A} (where_ : A -> bool) (data : A -> A) (rows : list A)
  : list A :=
  map (fun r => if where_ r then data r else r) rows.

Module problem.

Definition count (where_ : Problem.t -> bool) (db : Store) : Z :=
  count where_ (problems db).

Definition aggregate_avg_sentiment_score (where_ : Problem.t -> bool)
  (db : Store) : option Q :=
  avgQ (map Problem.sentiment_score (filter where_ (problems db))).

Definition findMany (where_ : Problem.t -> bool) (db : Store)
  : list Problem.t :=
  filter where_ (problems db).

Definition has_id (id : string) (p : Problem.t) : bool :=
  (Problem.id p =? id)%string.

Definition findUnique (id : string) (db : Store) : option Problem.t :=
  find (has_id id) (problems db).

(** [id] is the primary key: a second row with it is refused. *)
Definition create (p : Problem.t) (db : Store) : option Store :=
  match findUnique (Problem.id p) db with
  | Some _ => None
  | None =>
      Some {| problems := problems db ++ [p]; clusters := clusters db;
              resolvedComments := resolvedComments db |}
  end.

(** [update] throws when no row has the id. *)
Definition update (id : string) (data : Problem.t -> Problem.t) (db : Store)
  : option Store :=
  match findUnique id db with
  | None => None
  | Some _ =>
      Some {| problems := update_where (has_id id) data (problems db);
              clusters := clusters db;
              resolvedComments := resolvedComments db |}
  end.

End problem.

Module cluster.

Definition findFirst (where_ : Cluster.t -> bool) (db : Store)
  : option Cluster.t :=
  find where_ (clusters db).

Definition has_id (id : Z) (c : Cluster.t) : bool := Cluster.id c =? id.

(** The autoincremented key of the next row; rows are never deleted. *)
Definition next_id (db : Store) : Z :=
  1 + fold_right Z.max 0 (map Cluster.id (clusters db)).

(** [create({ data: { cluster_name, area } })]; the statistics take the
    defaults of their columns. *)
Definition create (cluster_name area : string) (db : Store)
  : Store * Cluster.t :=
  let c := {| Cluster.id := next_id db; Cluster.cluster_name := cluster_name;
              Cluster.area := area;
              Cluster.problem_count := default_problem_count;
              Cluster.avg_sentiment := default_avg_sentiment |} in
  ({| problems := problems db; clusters := clusters db ++ [c];
      resolvedComments := resolvedComments db |}, c).

Definition update (id : Z) (data : Cluster.t -> Cluster.t) (db : Store)
  : option Store :=
  match find (has_id id) (clusters db) with
  | None => None
  | Some _ =>
      Some {| problems := problems db;
              clusters := update_where (has_id id) data (clusters db);
              resolvedComments := resolvedComments db |}
  end.

Definition count (db : Store) : Z := Z.of_nat (List.length (clusters db)).

End cluster.

Module resolvedComment.

Definition of_problem (pid : string) (c : ResolvedComment.t) : bool :=
  (ResolvedComment.problem_id c =? pid)%string.

Definition has_id (id : string) (c : ResolvedComment.t) : bool :=
  (ResolvedComment.id c =? id)%string.

(** [unique_problem] says whether the schema declares [problem_id] unique
    (a one-to-one relation); the primary key [id] always is. *)
Definition create (unique_problem : bool) (c : ResolvedComment.t)
  (db : Store) : option Store :=
  if existsb (has_id (ResolvedComment.id c)) (resolvedComments db) then None
  else if unique_problem &&
          existsb (of_problem (ResolvedComment.problem_id c))
                  (resolvedComments db) then None
  else Some {| problems := problems db; clusters := clusters db;
               resolvedComments := resolvedComments db ++ [c] |}.

(** [findMany({ include: { problem: { select: { category } } } })]: each
    comment with the category of its problem.  The relation is required; a
    comment whose problem is missing makes the query throw. *)
Fixpoint include_category (db : Store) (cs : list ResolvedComment.t)
  : option (list (ResolvedComment.t * string)) :=
  match cs with
  | [] => Some []
  | c :: cs' =>
      match problem.findUnique (ResolvedComment.problem_id c) db,
            include_category db cs' with
      | Some p, Some rest => Some ((c, Problem.category p) :: rest)
      | _, _ => None
      end
  end.

Definition findMany_with_category (db : Store)
  : option (list (ResolvedComment.t * string)) :=
  include_category db (resolvedComments db).

End resolvedComment.

(** ** [Array.prototype.sort], a stable sort by a comparator *)

Section Sort.

Variable A : Type.
(** [le a b]: the comparator does not put [b] before [a]. *)
Variable le : A -> A -> bool.

Fixpoint insert (x : A) (l : list A) : list A :=
  match l with
  | [] => [x]
  | y :: l' => if le x y then x :: l else y :: insert x l'
  end.

Fixpoint sort (l : list A) : list A :=
  match l with
  | [] => []
  | x :: l' => insert x (sort l')
  end.

End Sort.

(** [if (!m[k]) m[k] = init; m[k] = f(m[k])] *)
Definition bump {K V} (eqb : K -> K -> bool) (m : dict K V) (k : K) (init : V)
  (f : V -> V) : dict K V :=
  match get eqb m k with
  | Some v => set eqb m k (f v)
  | None => set eqb m k (f init)
  end.

(** The grouping loop over a dictionary keyed by strings:
    [rows.forEach(x => { bump m[key(x)] by add(x) })], from the empty object. *)
Definition accumulate {A V} (key : A -> string) (init : V) (add : A -> V -> V)
  (rows : list A) : dict string V :=
  fold_left (fun m x => bump String.eqb m (key x) init (add x)) rows [].

(** ** Requests and responses *)

Module SubmitBody.
Record t := {
  title : string;
  description : string;
  category : string;
  location : string;
  image_url : option string;
  analysis : option Analysis.t }.
End SubmitBody.

Module Submitted.
(** [{ id, ...analysis }] *)
Record t := { id : string; analysis : Analysis.t }.
End Submitted.

Module Trend.
(** One entry of [trends].  [date] is the UTC day number of the
    [YYYY-MM-DD] key: two keys are the same string exactly when the day
    numbers are equal, and [localeCompare] orders the keys as the day
    numbers (years 0000 to 9999). *)
Record t := { date : Z; active : Z; resolved : Z }.
End Trend.

Module ResolutionTime.
Record t := { category : string; avg_time : Q }.
End ResolutionTime.

Module Stats.
Record t := {
  totalProblems : Z;
  activeProblems : Z;
  resolvedProblems : Z;
  avgSentiment : Q;
  urgentAlerts : Z;
  activeClusters : Z;
  trends : list Trend.t;
  resolutionTimes : list ResolutionTime.t }.
End Stats.

Module StrategicReport.
Record t := {
  commonIssues : list (string * Z);              (* category, count *)
  negativeSentimentAreas : list (string * option Q);  (* location, avg *)
  resolutionTimes : list ResolutionTime.t;
  aiSummary : string }.
End StrategicReport.

(** The narrative call [ai.models.generateContent]: it throws, or returns a
    response whose [text] may be undefined. *)
Inductive narrative : Type :=
| Threw
| Returned (text : option string).

Definition placeholder : string :=
  "Strategic insights are being generated based on real-time data.".

(** ** Aggregations shared by the handlers *)

Definition is_resolved (p : Problem.t) : bool :=
  (Problem.status p =? "Resolved")%string.

Definition in_cluster (cid : Z) (p : Problem.t) : bool :=
  match Problem.cluster_id p with
  | Some c => c =? cid
  | None => false
  end.

Definition of_user (uid : Z) (p : Problem.t) : bool := Problem.user_id p =? uid.

(** The block [Update cluster stats] of [POST /api/problems], which is also the
    body of the closing loop of the seeding script. *)
Definition refresh (cid : Z) (db : Store) : option Store :=
  let problemCount := problem.count (in_cluster cid) db in
  let avgSentiment := problem.aggregate_avg_sentiment_score (in_cluster cid) db in
  cluster.update cid
    (Cluster.with_stats problemCount (JS.or_zeroQ avgSentiment)) db.

(** The closing loop of the seeding script over [cluster.findMany()]. *)
Fixpoint refresh_each (cs : list Cluster.t) (db : Store) : option Store :=
  match cs with
  | [] => Some db
  | c :: cs' =>
      match refresh (Cluster.id c) db with
      | Some db' => refresh_each cs' db'
      | None => None
      end
  end.

Definition refresh_all (db : Store) : option Store :=
  refresh_each (clusters db) db.

(** [resolutionTimesMap], written out twice in the source with the same text:
    per category, the total of [time_taken] and the number of comments. *)
Definition resolutionTimesMap (raw : list (ResolvedComment.t * string))
  : dict string (Z * Z) :=
  accumulate snd (0, 0)
    (fun c d => (fst d + JS.or_zero (ResolvedComment.time_taken (fst c)),
                 snd d + 1))
    raw.

(** [/api/stats]: [Math.round((data.total / data.count) / 3600)], in hours. *)
Definition resolutionTimes_hours (m : dict string (Z * Z))
  : list ResolutionTime.t :=
  map (fun e =>
         {| ResolutionTime.category := fst e;
            ResolutionTime.avg_time :=
              inject_Z (JS.round (JS.div (fst (snd e)) (snd (snd e))
                                  / inject_Z 3600)) |})
      m.

(** [/api/reports/strategic]: [data.total / data.count]. *)
Definition resolutionTimes_raw (m : dict string (Z * Z))
  : list ResolutionTime.t :=
  map (fun e =>
         {| ResolutionTime.category := fst e;
            ResolutionTime.avg_time := JS.div (fst (snd e)) (snd (snd e)) |})
      m.

(** [groupBy({ by: [key] })]: the groups in order of first appearance.  The
    order in which the database lists groups that tie under [orderBy] is its
    own; here ties keep this order. *)
Definition groupBy {V} (key : Problem.t -> string) (init : V)
  (add : Problem.t -> V -> V) (rows : list Problem.t) : dict string V :=
  accumulate key init add rows.

Definition commonIssues (db : Store) : list (string * Z) :=
  firstn 5
    (sort (fun a b => snd b <=? snd a)
       (groupBy Problem.category 0 (fun _ n => n + 1) (problems db))).

(** [null] averages sort first in ascending order. *)
Definition avg_le (a b : option Q) : bool :=
  match a, b with
  | None, _ => true
  | Some _, None => false
  | Some x, Some y => Qle_bool x y
  end.

Definition negativeSentimentAreas (db : Store) : list (string * option Q) :=
  firstn 5
    (sort (fun a b => avg_le (snd a) (snd b))
       (map (fun e => (fst e, avgQ (snd e)))
          (groupBy Problem.location []
             (fun p l => l ++ [Problem.sentiment_score p]) (problems db)))).

(** ** Time *)

Definition msPerDay : Z := 86400000.

(** [new Date(t).toISOString().split('T')[0]], as a UTC day number. *)
Definition isoDate (t : Z) : Z := t / msPerDay.

Section Host.

(** The time zone of the host, as ECMAScript's [LocalTZA(t, isUTC)]: the
    offset of local time from UTC in milliseconds, at the UTC instant [t]
    ([isUTC = true]) or at the local time [t] ([isUTC = false]). *)
Variable LocalTZA : Z -> bool -> Z.

Definition LocalTime (t : Z) : Z := t + LocalTZA t true.
Definition UTC (t : Z) : Z := t - LocalTZA t false.

(** [d = new Date(now); d.setDate(d.getDate() - i)]: the same local time of
    day, [i] local calendar days earlier.  [setDate(date)] is
    [UTC(MakeDate(MakeDay(year, month, date), TimeWithinDay(t)))] for
    [t = LocalTime(now)], and [MakeDay] of the year and month of [t] with
    [getDate() - i] is the day number of [t] minus [i]. *)
Definition daysAgo (now i : Z) : Z := UTC (LocalTime now - i * msPerDay).

(** The loop that creates the thirty entries of [trendMap]. *)
Definition trendMap_init (now : Z) : dict Z (Z * Z) :=
  fold_left
    (fun m i => set Z.eqb m (isoDate (daysAgo now (Z.of_nat i))) (0, 0))
    (seq 0 30) [].

(** The body of [problems.forEach]; an entry is [(active, resolved)]. *)
Definition tally (m : dict Z (Z * Z)) (p : Problem.t) : dict Z (Z * Z) :=
  let createdDate := isoDate (Problem.created_at p) in
  let m1 :=
    match get Z.eqb m createdDate with
    | Some c =>
        if negb (is_resolved p)
        then set Z.eqb m createdDate (fst c + 1, snd c)
        else m
    | None => m
    end in
  match Problem.resolved_at p with
  | Some r =>
      let resolvedDate := isoDate r in
      match get Z.eqb m1 resolvedDate with
      | Some c => set Z.eqb m1 resolvedDate (fst c, snd c + 1)
      | None => m1
      end
  | None => m1
  end.

(** The rows of the trend query: created on or after [thirtyDaysAgo], and
    the caller's own unless the caller is municipal. *)
Definition trend_scope (isMunicipal : bool) (userId now : Z)
  (p : Problem.t) : bool :=
  (daysAgo now 30 <=? Problem.created_at p) &&
  (isMunicipal || of_user userId p).

Definition trends (isMunicipal : bool) (userId now : Z) (db : Store)
  : list Trend.t :=
  let problems := problem.findMany (trend_scope isMunicipal userId now) db in
  let trendMap := fold_left tally problems (trendMap_init now) in
  sort (fun a b => Trend.date a <=? Trend.date b)
    (map (fun e => {| Trend.date := fst e; Trend.active := fst (snd e);
                      Trend.resolved := snd (snd e) |})
       trendMap).

(** [GET /api/stats] *)
Definition get_stats (user : User.t) (now : Z) (db : Store)
  : reply Stats.t :=
  let isMunicipal := (User.role user =? "municipal_admin")%string in
  let userId := User.id user in
  let '(totalProblems, activeProblems, resolvedProblems, urgentAlerts) :=
    if isMunicipal then
      (problem.count (fun _ => true) db,
       problem.count (fun p => negb (is_resolved p)) db,
       problem.count is_resolved db,
       problem.count
         (fun p => Problem.is_urgent p && negb (is_resolved p)) db)
    else
      (problem.count (of_user userId) db,
       problem.count (fun p => of_user userId p && negb (is_resolved p)) db,
       problem.count (fun p => of_user userId p && is_resolved p) db,
       problem.count
         (fun p => of_user userId p && Problem.is_urgent p
                   && negb (is_resolved p)) db) in
  let avgSentimentResult :=
    problem.aggregate_avg_sentiment_score (fun _ => true) db in
  let activeClusters := cluster.count db in
  let trends := trends isMunicipal userId now db in
  match resolvedComment.findMany_with_category db with
  | None => Unhandled
  | Some resolutionTimesRaw =>
      Json {| Stats.totalProblems := totalProblems;
              Stats.activeProblems := activeProblems;
              Stats.resolvedProblems := resolvedProblems;
              Stats.avgSentiment := JS.or_zeroQ avgSentimentResult;
              Stats.urgentAlerts := urgentAlerts;
              Stats.activeClusters := activeClusters;
              Stats.trends := trends;
              Stats.resolutionTimes :=
                resolutionTimes_hours
                  (resolutionTimesMap resolutionTimesRaw) |}
  end.

End Host.

(** [GET /api/reports/strategic]; [oracle] is what the narrative call does
    when it is handed the data summary. *)
Definition get_strategic (oracle : narrative) (db : Store)
  : reply StrategicReport.t :=
  let commonIssues := commonIssues db in
  let negativeSentimentAreas := negativeSentimentAreas db in
  match resolvedComment.findMany_with_category db with
  | None => Unhandled
  | Some resolutionTimesRaw =>
      let resolutionTimes :=
        resolutionTimes_raw (resolutionTimesMap resolutionTimesRaw) in
      let aiSummary :=
        match oracle with
        | Threw => placeholder
        | Returned text => JS.or_string text placeholder
        end in
      Json {| StrategicReport.commonIssues := commonIssues;
              StrategicReport.negativeSentimentAreas := negativeSentimentAreas;
              StrategicReport.resolutionTimes := resolutionTimes;
              StrategicReport.aiSummary := aiSummary |}
  end.

(** [authorize(roles)] *)
Definition authorize (roles : list string) (user : User.t) : bool :=
  existsb (String.eqb (User.role user)) roles.

Section Datasource.

(** The collation under which [contains] compares characters, and whether
    the backslash is the escape character of its [LIKE]. *)
Variable collate : ascii -> ascii.
Variable backslash : bool.
(** Whether [ResolvedComment.problem_id] is declared unique. *)
Variable unique_problem : bool.

(** [where: { cluster_name: { contains: suggestion } }] *)
Definition name_contains (suggestion : string) (c : Cluster.t) : bool :=
  contains collate backslash (Cluster.cluster_name c) suggestion.

(** The find-or-create of [POST /api/problems]. *)
Definition resolve_cluster (suggestion location : string) (db : Store)
  : Store * Cluster.t :=
  match cluster.findFirst (name_contains suggestion) db with
  | Some c => (db, c)
  | None => cluster.create suggestion location db
  end.

(** The [data] of [prisma.problem.create] in [POST /api/problems].  [status]
    takes the default of its column, [created_at] the time of the insert (the
    seeding script reads it back from rows it created without giving it), and
    [resolved_at], an optional column, is null. *)
Definition new_problem (user : User.t) (body : SubmitBody.t)
  (analysis : Analysis.t) (id : string) (now : Z) (cluster : Cluster.t)
  : Problem.t :=
  {| Problem.id := id;
     Problem.user_id := User.id user;
     Problem.title := SubmitBody.title body;
     Problem.description := SubmitBody.description body;
     Problem.category := SubmitBody.category body;
     Problem.location := SubmitBody.location body;
     Problem.image_url := SubmitBody.image_url body;
     Problem.status := default_status;
     Problem.created_at := now;
     Problem.resolved_at := None;
     Problem.sentiment_score := Analysis.sentiment_score analysis;
     Problem.sentiment_label := Analysis.sentiment_label analysis;
     Problem.priority_score := Analysis.priority_score analysis;
     Problem.is_urgent := Analysis.is_urgent analysis;
     Problem.cluster_id := Some (Cluster.id cluster) |}.

(** [POST /api/problems]; [uuid] is the value of [uuidv4()]. *)
Definition post_problem (user : User.t) (body : SubmitBody.t) (uuid : string)
  (now : Z) (db : Store) : Store * reply Submitted.t :=
  if negb (authorize ["citizen_admin"] user) then (db, Status 403 "Forbidden")
  else
    match SubmitBody.analysis body with
    | None => (db, Status 500 "Failed to save problem")
    | Some analysis =>
        let '(db1, cluster) :=
          resolve_cluster (Analysis.cluster_suggestion analysis)
            (SubmitBody.location body) db in
        let id := uuid in
        match problem.create (new_problem user body analysis id now cluster)
                db1 with
        | None => (db1, Status 500 "Failed to save problem")
        | Some db2 =>
            match refresh (Cluster.id cluster) db2 with
            | None => (db2, Status 500 "Failed to save problem")
            | Some db3 =>
                (db3, Json {| Submitted.id := id;
                              Submitted.analysis := analysis |})
            end
        end
    end.

(** [PATCH /api/problems/:id/status] *)
Definition patch_status (user : User.t) (id status : string) (now : Z)
  (db : Store) : Store * reply unit :=
  if negb (authorize ["municipal_admin"] user) then (db, Status 403 "Forbidden")
  else
    let updated :=
      if (status =? "Resolved")%string
      then problem.update id (fun p => Problem.with_status status (Some now) p) db
      else problem.update id
             (fun p => Problem.with_status status (Problem.resolved_at p) p) db in
    match updated with
    | Some db' => (db', Json tt)
    | None => (db, Status 500 "Failed to update status")
    end.

(** [POST /api/problems/:id/comment]; the reply carries [time_taken]. *)
Definition post_comment (user : User.t) (id rating comment uuid : string)
  (now : Z) (db : Store) : Store * reply Z :=
  if negb (authorize ["citizen_admin"] user) then (db, Status 403 "Forbidden")
  else
    match problem.findUnique id db with
    | None => (db, Status 400 "Problem not resolved")
    | Some problem =>
        match Problem.resolved_at problem with
        | None => (db, Status 400 "Problem not resolved")
        | Some resolved_at =>
            let timeTaken :=
              JS.floor (JS.div (resolved_at - Problem.created_at problem)
                          1000) in
            let commentId := uuid in
            let row :=
              {| ResolvedComment.id := commentId;
                 ResolvedComment.problem_id := id;
                 ResolvedComment.citizen_id := User.id user;
                 ResolvedComment.rating := rating;
                 ResolvedComment.comment := comment;
                 ResolvedComment.time_taken := Some timeTaken;
                 ResolvedComment.created_at := now |} in
            match resolvedComment.create unique_problem row db with
            | Some db' => (db', Json timeTaken)
            | None => (db, Status 500 "Failed to save comment")
            end
        end
    end.

End Datasource.

(** ** The seeding script *)

Module Seed.

(** An entry of [problemsData]. *)
Record problemData := {
  title : string;
  description : string;
  category : string;
  location : string;
  status : string;
  sentiment_score : Q;
  sentiment_label : string;
  priority_score : Q;
  is_urgent : bool;
  cluster : string;            (* the key looked up in [clusterMap] *)
  resolved_ago : option Z }.   (* [resolved_at: new Date(Date.now() - ms)] *)

Definition clusters : list (string * string) :=
  [("Water Infrastructure", "Kottapeta");
   ("Sanitation", "Main Road");
   ("Public Lighting", "Market Area");
   ("Road Maintenance", "Bus Stand");
   ("Drainage Systems", "Colony Area")].

Definition problemsData : list problemData :=
  [{| title := "Water Leakage";
      description := "Major pipe burst near the main square.";
      category := "Water"; location := "Kottapeta"; status := "Pending";
      sentiment_score := (-8 # 10)%Q; sentiment_label := "Negative";
      priority_score := (9 # 10)%Q; is_urgent := true;
      cluster := "Water Infrastructure"; resolved_ago := None |};
   {| title := "Garbage Overflow";
      description := "Garbage bins are overflowing and causing bad smell.";
      category := "Garbage"; location := "Main Road"; status := "In Progress";
      sentiment_score := (-6 # 10)%Q; sentiment_label := "Negative";
      priority_score := (7 # 10)%Q; is_urgent := false;
      cluster := "Sanitation"; resolved_ago := None |};
   {| title := "Street Light Not Working";
      description := "Street lights are off for the last 3 days.";
      category := "Electricity"; location := "Market Area";
      status := "Resolved";
      sentiment_score := (-4 # 10)%Q; sentiment_label := "Negative";
      priority_score := (5 # 10)%Q; is_urgent := false;
      cluster := "Public Lighting"; resolved_ago := Some 86400000 |};
   {| title := "Road Damage";
      description := "Huge pothole in the middle of the road.";
      category := "Roads"; location := "Bus Stand"; status := "Pending";
      sentiment_score := (-7 # 10)%Q; sentiment_label := "Negative";
      priority_score := (8 # 10)%Q; is_urgent := true;
      cluster := "Road Maintenance"; resolved_ago := None |};
   {| title := "Drainage Blockage";
      description := "Drainage is blocked and water is entering houses.";
      category := "Other"; location := "Colony Area"; status := "Resolved";
      sentiment_score := (-9 # 10)%Q; sentiment_label := "Very Negative";
      priority_score := (95 # 100)%Q; is_urgent := true;
      cluster := "Drainage Systems"; resolved_ago := Some 172800000 |}].

(** One turn of the loop over [clusters]: find by name or create, and record
    the id in [clusterMap]. *)
Definition seed_cluster (acc : Store * dict string Z) (c : string * string)
  : Store * dict string Z :=
  let '(db, clusterMap) := acc in
  let '(db', existing) :=
    match cluster.findFirst
            (fun r => (Cluster.cluster_name r =? fst c)%string) db with
    | Some e => (db, e)
    | None => cluster.create (fst c) (snd c) db
    end in
  (db', set String.eqb clusterMap (fst c) (Cluster.id existing)).

(** [{ ...p, id: uuidv4() }] as a row: [created_at] is the time of the insert,
    [resolved_at] the time the entry gives. *)
Definition row (clusterMap : dict string Z) (citizenId now : Z)
  (p : problemData) (id : string) : Problem.t :=
  {| Problem.id := id;
     Problem.user_id := citizenId;
     Problem.title := title p;
     Problem.description := description p;
     Problem.category := category p;
     Problem.location := location p;
     Problem.image_url := None;
     Problem.status := status p;
     Problem.created_at := now;
     Problem.resolved_at := option_map (fun ago => now - ago) (resolved_ago p);
     Problem.sentiment_score := sentiment_score p;
     Problem.sentiment_label := sentiment_label p;
     Problem.priority_score := priority_score p;
     Problem.is_urgent := is_urgent p;
     Problem.cluster_id := get String.eqb clusterMap (cluster p) |}.

(** One turn of the loop over [problemsData]; [uuid k] is the value of the
    [k]-th call of [uuidv4()].  [None] when a query throws; the script then
    exits. *)
Definition seed_problem (unique_problem : bool) (clusterMap : dict string Z)
  (citizenId now : Z) (uuid : nat -> string) (acc : option (Store * nat))
  (p : problemData) : option (Store * nat) :=
  match acc with
  | None => None
  | Some (db, k) =>
      match find (fun r => (Problem.title r =? title p)%string
                           && (Problem.location r =? location p)%string)
                 (problems db) with
      | Some _ => Some (db, k)
      | None =>
          let createdProblem := row clusterMap citizenId now p (uuid k) in
          match problem.create createdProblem db with
          | None => None
          | Some db1 =>
              if (status p =? "Resolved")%string then
                match Problem.resolved_at createdProblem with
                | None => None
                | Some resolved_at =>
                    let timeTaken :=
                      JS.floor
                        (JS.div
                           (resolved_at - Problem.created_at createdProblem)
                           1000) in
                    match resolvedComment.create unique_problem
                            {| ResolvedComment.id := uuid (S k);
                               ResolvedComment.problem_id :=
                                 Problem.id createdProblem;
                               ResolvedComment.citizen_id := citizenId;
                               ResolvedComment.rating := "Good";
                               ResolvedComment.comment :=
                                 "Thank you for the quick resolution!";
                               ResolvedComment.time_taken := Some timeTaken;
                               ResolvedComment.created_at := now |} db1 with
                    | None => None
                    | Some db2 => Some (db2, S (S k))
                    end
                end
              else Some (db1, S k)
          end
      end
  end.

(** [main()], from the clusters on; the users are not modelled, [citizenId]
    is [citizenAdmin.id]. *)
Definition main (unique_problem : bool) (citizenId now : Z)
  (uuid : nat -> string) (db : Store) : option Store :=
  let '(db1, clusterMap) := fold_left seed_cluster clusters (db, []) in
  match fold_left (seed_problem unique_problem clusterMap citizenId now uuid)
          problemsData (Some (db1, O)) with
  | None => None
  | Some (db2, _) => refresh_all db2
  end.

End Seed.

(** ** Concrete hosts and a rendering of day numbers, for the examples *)

(** A host whose local time is UTC. *)
Definition zone_utc (t : Z) (isUTC : bool) : Z := 0.

(** Central European time in 2026: UTC+1, and UTC+2 from 2026-03-29T01:00:00Z
    until 2026-10-25T01:00:00Z.  A local time that the clocks skip or show
    twice is read with the offset before the transition, as ECMAScript
    prescribes. *)
Definition summer_time_starts : Z := 1774746000000.
Definition summer_time_ends : Z := 1792890000000.

Definition zone_berlin (t : Z) (isUTC : bool) : Z :=
  if isUTC
  then if (summer_time_starts <=? t) && (t <? summer_time_ends)
       then 7200000 else 3600000
  else if (summer_time_starts + 7200000 <=? t)
          && (t <? summer_time_ends + 7200000)
       then 7200000 else 3600000.

(** The proleptic Gregorian date of a day number, as (year, month, day). *)
Definition civil_of_day (z : Z) : Z * Z * Z :=
  let z := z + 719468 in
  let era := z / 146097 in
  let doe := z - era * 146097 in
  let yoe := (doe - doe / 1460 + doe / 36524 - doe / 146096) / 365 in
  let doy := doe - (365 * yoe + yoe / 4 - yoe / 100) in
  let mp := (5 * doy + 2) / 153 in
  let d := doy - (153 * mp + 2) / 5 + 1 in
  let m := if mp <? 10 then mp + 3 else mp - 9 in
  (yoe + era * 400 + (if m <=? 2 then 1 else 0), m, d).

Definition digit (n : Z) : ascii := ascii_of_nat (48 + Z.to_nat (n mod 10)).

Definition pad2 (n : Z) : string :=
  String (digit (n / 10)) (String (digit n) "").

(** [YYYY-MM-DD] for the years 0000 to 9999. *)
Definition isoDateString (day : Z) : string :=
  let '(y, m, d) := civil_of_day day in
  (pad2 (y / 100) ++ pad2 y ++ "-" ++ pad2 m ++ "-" ++ pad2 d)%string.

(** ** Histories

    The requests that write, the refresh of one cluster and the refresh of all
    clusters, run one after the other. *)

Inductive request : Type :=
| PostProblem (user : User.t) (body : SubmitBody.t) (uuid : string)
| PatchStatus (user : User.t) (id status : string)
| PostComment (user : User.t) (id rating comment uuid : string).

Inductive op : Type :=
| Req (r : request) (now : Z)
| Refresh (cid : Z)
| RefreshAll.

Definition or_unchanged (db : Store) (r : option Store) : Store :=
  match r with
  | Some db' => db'
  | None => db
  end.

Definition step (collate : ascii -> ascii) (backslash : bool)
  (unique_problem : bool) (o : op)
  (db : Store) : Store :=
  match o with
  | Req (PostProblem user body uuid) now =>
      fst (post_problem collate backslash user body uuid now db)
  | Req (PatchStatus user id status) now =>
      fst (patch_status user id status now db)
  | Req (PostComment user id rating comment uuid) now =>
      fst (post_comment unique_problem user id rating comment uuid now db)
  | Refresh cid => or_unchanged db (refresh cid db)
  | RefreshAll => or_unchanged db (refresh_all db)
  end.

Definition run (collate : ascii -> ascii) (backslash : bool)
  (unique_problem : bool)
  (ops : list op) (db : Store) : Store :=
  fold_left (fun db o => step collate backslash unique_problem o db) ops db.

(** The clock does not run backwards along a history that starts at [t]. *)
Fixpoint clock_from (t : Z) (ops : list op) : Prop :=
  match ops with
  | [] => True
  | Req _ now :: ops' => t <= now /\ clock_from now ops'
  | _ :: ops' => clock_from t ops'
  end.

Fixpoint clock_end (t : Z) (ops : list op) : Z :=
  match ops with
  | [] => t
  | Req _ now :: ops' => clock_end now ops'
  | _ :: ops' => clock_end t ops'
  end.

(** ** What the claims speak of *)

(** The arithmetic mean, 0 over nothing. *)
Definition mean (l : list Q) : Q :=
  match l with
  | [] => 0%Q
  | _ => (sumQ l / inject_Z (Z.of_nat (List.length l)))%Q
  end.

Definition members (db : Store) (cid : Z) : list Problem.t :=
  filter (in_cluster cid) (problems db).

(** The stored statistics of a cluster are those of its members. *)
Definition stats_fresh (db : Store) (c : Cluster.t) : Prop :=
  Cluster.problem_count c = Z.of_nat (List.length (members db (Cluster.id c))) /\
  (Cluster.avg_sentiment c ==
   mean (map Problem.sentiment_score (members db (Cluster.id c))))%Q.

Definition consistent (db : Store) : Prop :=
  forall c, In c (clusters db) -> stats_fresh db c.

(** Every problem that names a cluster names one that exists. *)
Definition cluster_refs_ok (db : Store) : Prop :=
  forall p cid, In p (problems db) -> Problem.cluster_id p = Some cid ->
    exists c, In c (clusters db) /\ Cluster.id c = cid.

(** Every comment belongs to a problem that exists. *)
Definition comments_ok (db : Store) : Prop :=
  forall c, In c (resolvedComments db) ->
    exists p, problem.findUnique (ResolvedComment.problem_id c) db = Some p.

(** What the statistics of a cluster read of the problems. *)
Definition membership (db : Store) : list (option Z * Q) :=
  map (fun p => (Problem.cluster_id p, Problem.sentiment_score p)) (problems db).

(** The invariant of the data model as the specification words it. *)
Definition resolved_iff (db : Store) : Prop :=
  forall p, In p (problems db) ->
    (Problem.resolved_at p <> None <-> Problem.status p = "Resolved").

(** What the handlers keep of it, with every timestamp at most [t]. *)
Definition lifecycle_ok (t : Z) (db : Store) : Prop :=
  forall p, In p (problems db) ->
    Problem.created_at p <= t /\
    (Problem.status p = "Resolved" -> Problem.resolved_at p <> None) /\
    (forall r, Problem.resolved_at p = Some r ->
               Problem.created_at p <= r /\ r <= t).

(** At most one comment per problem. *)
Definition one_comment_each (db : Store) : Prop :=
  NoDup (map ResolvedComment.problem_id (resolvedComments db)).

Definition created_on (day : Z) (p : Problem.t) : bool :=
  isoDate (Problem.created_at p) =? day.

Definition resolved_on (day : Z) (p : Problem.t) : bool :=
  match Problem.resolved_at p with
  | Some r => isoDate r =? day
  | None => false
  end.

(** Two resolution-time listings agree: the same categories with the same
    value. *)
Definition agree (l1 l2 : list ResolutionTime.t) : Prop :=
  Forall2 (fun a b => ResolutionTime.category a = ResolutionTime.category b /\
                      (ResolutionTime.avg_time a == ResolutionTime.avg_time b)%Q)
          l1 l2.

(** ** Fixtures for the examples *)

Definition citizen : User.t := {| User.id := 1; User.role := "citizen_admin" |}.
Definition neighbour : User.t := {| User.id := 3; User.role := "citizen_admin" |}.
Definition officer : User.t := {| User.id := 2; User.role := "municipal_admin" |}.

(** Two collations: the binary one, and one that ignores the case of the
    letters A to Z. *)
Definition binary (a : ascii) : ascii := a.

Definition nocase (a : ascii) : ascii :=
  let n := nat_of_ascii a in
  if (65 <=? n)%nat && (n <=? 90)%nat then ascii_of_nat (n + 32) else a.

Definition judgment (score : Q) (suggestion : string) : Analysis.t :=
  {| Analysis.sentiment_label := "Negative";
     Analysis.sentiment_score := score;
     Analysis.priority_score := 5%Q;
     Analysis.is_urgent := false;
     Analysis.category := "Water";
     Analysis.cluster_suggestion := suggestion |}.

Definition report (location : string) (score : Q) (suggestion : string)
  : SubmitBody.t :=
  {| SubmitBody.title := "Leak";
     SubmitBody.description := "A pipe burst.";
     SubmitBody.category := "Water";
     SubmitBody.location := location;
     SubmitBody.image_url := None;
     SubmitBody.analysis := Some (judgment score suggestion) |}.

Unset Implicit Arguments.

(** ** Further notions used by the statements *)

(** The store a submission leaves when every step goes through. *)
Definition submitted (db1 : Store) (row : Problem.t) (cid : Z) : Store :=
  let ps := problems db1 ++ [row] in
  let ms := filter (in_cluster cid) ps in
  {| problems := ps;
     clusters :=
       update_where (cluster.has_id cid)
         (Cluster.with_stats (Z.of_nat (List.length ms))
            (JS.or_zeroQ (avgQ (map Problem.sentiment_score ms))))
         (clusters db1);
     resolvedComments := resolvedComments db1 |}.

Definition in_scope (user : User.t) (p : Problem.t) : bool :=
  (User.role user =? "municipal_admin")%string || of_user (User.id user) p.

(** The days for which the loop creates an entry, in the order of the loop. *)
Definition window (LocalTZA : Z -> bool -> Z) (now : Z) : list Z :=
  map (fun i => isoDate (daysAgo LocalTZA now (Z.of_nat i))) (seq 0 30).

(** The rows of the trend query. *)
Definition trend_rows (LocalTZA : Z -> bool -> Z) (isMunicipal : bool)
  (userId now : Z) (db : Store) : list Problem.t :=
  problem.findMany (trend_scope LocalTZA isMunicipal userId now) db.

Definition active_on (day : Z) (p : Problem.t) : bool :=
  created_on day p && negb (is_resolved p).

Definition bump_entry (c : Z * Z) (da dr : Z) : Z * Z := (fst c + da, snd c + dr).

Definition in_category (k : string) (p : Problem.t) : bool :=
  (Problem.category p =? k)%string.

Definition at_location (k : string) (p : Problem.t) : bool :=
  (Problem.location p =? k)%string.

Fixpoint sumZ (l : list Z) : Z :=
  match l with
  | [] => 0
  | x :: l' => x + sumZ l'
  end.

Definition seconds (c : ResolvedComment.t) : Z :=
  JS.or_zero (ResolvedComment.time_taken c).

(** The comments on problems of a category, and their [time_taken || 0]. *)
Definition comment_category (db : Store) (c : ResolvedComment.t)
  : option string :=
  option_map Problem.category
    (problem.findUnique (ResolvedComment.problem_id c) db).

Definition comments_in (db : Store) (category : string)
  : list ResolvedComment.t :=
  filter (fun c => match comment_category db c with
                   | Some k => (k =? category)%string
                   | None => false
                   end)
    (resolvedComments db).

(** The row that [POST /api/problems/:id/comment] writes. *)
Definition feedback_row (user : User.t) (id rating comment uuid : string)
  (now : Z) (p : Problem.t) (r : Z) : ResolvedComment.t :=
  {| ResolvedComment.id := uuid;
     ResolvedComment.problem_id := id;
     ResolvedComment.citizen_id := User.id user;
     ResolvedComment.rating := rating;
     ResolvedComment.comment := comment;
     ResolvedComment.time_taken := Some ((r - Problem.created_at p) / 1000);
     ResolvedComment.created_at := now |}.

(** The mean score of the problems at a location. *)
Definition mean_at (db : Store) (k : string) : Q :=
  mean (map Problem.sentiment_score (filter (at_location k) (problems db))).

(** A problem without its status and [resolved_at], and a cluster without its
    statistics: what no handler writes after the row was created. *)
Definition frozen (p : Problem.t) : Problem.t := Problem.with_status "" None p.

Definition unrated (c : Cluster.t) : Cluster.t := Cluster.with_stats 0 0%Q c.

(** No two rows of a table share the primary key. *)
Definition ids_unique (db : Store) : Prop :=
  NoDup (map Problem.id (problems db)) /\
  NoDup (map Cluster.id (clusters db)) /\
  NoDup (map ResolvedComment.id (resolvedComments db)).

(** Every problem is filed under a cluster that exists, the keys of the
    clusters are distinct, and the stored statistics are right. *)
Definition well_clustered (db : Store) : Prop :=
  consistent db /\
  NoDup (map Cluster.id (clusters db)) /\
  forall p, In p (problems db) ->
    exists c, In c (clusters db) /\ Problem.cluster_id p = Some (Cluster.id c).

(** The [time_taken] of a comment is set and is not negative. *)
Definition time_ok (c : ResolvedComment.t) : Prop :=
  exists s, ResolvedComment.time_taken c = Some s /\ 0 <= s.

(** An entry of the seeding script gives a resolution time, some time before
    the script runs, exactly when its status is [Resolved]. *)
Definition resolved_in_the_past (d : Seed.problemData) : Prop :=
  match Seed.resolved_ago d with
  | Some ago => Seed.status d = "Resolved" /\ 0 < ago
  | None => Seed.status d <> "Resolved"
  end.

(** A problem as the seeding script stores it at [now] for [citizenId]. *)
Definition seeded_at (citizenId now : Z) (p : Problem.t) : Prop :=
  Problem.created_at p = now /\ Problem.user_id p = citizenId /\
  match Problem.resolved_at p with
  | Some r => Problem.status p = "Resolved" /\ r < Problem.created_at p
  | None => Problem.status p <> "Resolved"
  end.

(** A comment whose [time_taken] is negative. *)
Definition time_negative (c : ResolvedComment.t) : Prop :=
  exists s, ResolvedComment.time_taken c = Some s /\ s < 0.

(** ** The specification's readings that the code does not bear out *)

(** The specification's reading of the trend loop: an entry's [resolved]
    counts every report in scope that was resolved that day, whatever its
    creation date. *)
Definition resolved_counts_any_age (LocalTZA : Z -> bool -> Z) : Prop :=
  forall user now db s t,
    get_stats LocalTZA user now db = Json s -> In t (Stats.trends s) ->
    Trend.resolved t =
    count (fun p => in_scope user p && resolved_on (Trend.date t) p)
      (problems db).

(** The specification's reading of the two listings: they agree. *)
Definition resolution_times_agree (LocalTZA : Z -> bool -> Z) : Prop :=
  forall user now oracle db s r,
    get_stats LocalTZA user now db = Json s ->
    get_strategic oracle db = Json r ->
    agree (Stats.resolutionTimes s) (StrategicReport.resolutionTimes r).

(** The specification's reading of the feedback route: feedback on a report
    that is not [Resolved], or on a report that has a feedback already, is
    answered with an error and the store stays as it was. *)
Definition feedback_guarded (unique_problem : bool) : Prop :=
  forall user id rating comment uuid now db,
    (forall p, problem.findUnique id db = Some p ->
               Problem.status p <> "Resolved") \/
    (exists c, In c (resolvedComments db) /\ ResolvedComment.problem_id c = id) ->
    exists code error,
      post_comment unique_problem user id rating comment uuid now db =
      (db, Status code error).

(** The specification's reading of its scenario B: while a cluster
    [Water Leakage] exists, a report with suggestion [Water] that is answered
    with its id is filed under that cluster. *)
Definition joins_water_leakage (collate : ascii -> ascii) (backslash : bool)
  : Prop :=
  forall user body uuid now db db' r a c,
    In c (clusters db) -> Cluster.cluster_name c = "Water Leakage" ->
    SubmitBody.analysis body = Some a ->
    Analysis.cluster_suggestion a = "Water" ->
    post_problem collate backslash user body uuid now db = (db', Json r) ->
    exists p,
      problem.findUnique uuid db' = Some p /\
      Problem.cluster_id p = Some (Cluster.id c).

(** ** Stores and histories for the examples *)

(** 2026-11-02T00:30:00Z, which is 01:30 on 2 November in Central European
    time. *)
Definition early_2_november : Z := 1793579400000.

(** 2026-04-04T23:30:00Z, which is 01:30 on 5 April in Central European
    summer time. *)
Definition early_5_april : Z := 1775345400000.

(** A report filed 40 days before [early_2_november] and resolved the day
    before it. *)
Definition old_report_store : Store :=
  run binary false false
    [Req (PostProblem citizen (report "Kottapeta" (-8 # 10) "Water") "p1")
         (early_2_november - 40 * msPerDay);
     Req (PatchStatus officer "p1" "Resolved") (early_2_november - msPerDay)]
    empty_store.

(** A report filed 5 days before [early_2_november] and resolved the day
    before it. *)
Definition recent_report_store : Store :=
  run binary false false
    [Req (PostProblem citizen (report "Kottapeta" (-8 # 10) "Water") "p1")
         (early_2_november - 5 * msPerDay);
     Req (PatchStatus officer "p1" "Resolved") (early_2_november - msPerDay)]
    empty_store.

(** One report of [citizen] with score -0.8 and one of [neighbour] with score
    -0.4. *)
Definition two_reports_store : Store :=
  run binary false false
    [Req (PostProblem citizen (report "Kottapeta" (-8 # 10) "Water Leakage")
            "p1") (early_2_november - 2 * msPerDay);
     Req (PostProblem neighbour (report "Main Road" (-4 # 10) "Water") "p2")
         (early_2_november - msPerDay)]
    empty_store.

(** One report of [citizen], under the cluster [Water Leakage]. *)
Definition leakage_store : Store :=
  run binary false false
    [Req (PostProblem citizen (report "Kottapeta" (-8 # 10) "Water Leakage")
            "p1") (early_2_november - 2 * msPerDay)]
    empty_store.

(** A report under the cluster [Waterworks], then one under the cluster
    [Water Leakage]. *)
Definition waterworks_store : Store :=
  run binary false false
    [Req (PostProblem citizen (report "Bus Stand" (-2 # 10) "Waterworks")
            "p1") (early_2_november - 2 * msPerDay);
     Req (PostProblem citizen (report "Kottapeta" (-8 # 10) "Water Leakage")
            "p2") (early_2_november - msPerDay)]
    empty_store.

(** A report resolved two hours after it was filed, and rated. *)
Definition rated_store : Store :=
  run binary false false
    [Req (PostProblem citizen (report "Kottapeta" (-8 # 10) "Water") "p1")
         (early_2_november - msPerDay);
     Req (PatchStatus officer "p1" "Resolved")
         (early_2_november - msPerDay + 7200000);
     Req (PostComment citizen "p1" "Good" "Thank you" "c1")
         (early_2_november - 3600000)]
    empty_store.

(** The empty store after the seeding script has run at [early_2_november],
    with ["a"], ["b"], ... for the generated ids. *)
Definition letters (k : nat) : string := String (ascii_of_nat (97 + k)) "".

Definition seeded_store : Store :=
  or_unchanged empty_store
    (Seed.main false 1 early_2_november letters empty_store).

(** A report is filed, resolved an hour later and reopened a minute after
    that. *)
Definition reopen_history : list op :=
  [Req (PostProblem citizen (report "Kottapeta" (-8 # 10) "Water") "p1")
       (early_2_november - msPerDay);
   Req (PatchStatus officer "p1" "Resolved")
       (early_2_november - msPerDay + 3600000);
   Req (PatchStatus officer "p1" "Pending")
       (early_2_november - msPerDay + 3660000)].

Definition reopened_store : Store :=
  run binary false false reopen_history empty_store.

(** ** The client's charts ([App], [Dashboard])

    What the browser computes from the answers of the server before it draws
    them. *)

(** [a.slice(-k)]: the last [k] elements, all of them when there are
    fewer. *)
Definition slice_last {A : Type} (k : nat) (a : list A) : list A :=
  skipn (List.length a - k) a.

(** [stats?.trends?.slice(-7) || []], the data of the weekly chart of [App];
    [stats] is [null] until the first answer has arrived. *)
Definition weeklyTrends (stats : option Stats.t) : list Trend.t :=
  match stats with
  | Some s => slice_last 7 (Stats.trends s)
  | None => []
  end.

(** The data of the category chart of [Dashboard], as pairs (name, value):
    [Object.entries(problems.reduce((acc, p) => { acc[p.category] =
    (acc[p.category] || 0) + 1; return acc }, {}))].  A stored value is never
    falsy, so [(acc[k] || 0) + 1] is the stored value plus one, or one for a
    key that is not there. *)
Definition categoryData (problems : list Problem.t) : list (string * Z) :=
  accumulate Problem.category 0 (fun _ n => n + 1) problems.

(** [(a, b) => b.problem_count - a.problem_count] does not put [b] before
    [a]. *)
Definition byProblemCount (a b : Cluster.t) : bool :=
  Cluster.problem_count b <=? Cluster.problem_count a.

(** [clusters.sort(...)] sorts the array in place and returns it: both cluster
    charts, and whatever reads [clusters] afterwards, see this order. *)
Definition sortedClusters (clusters : list Cluster.t) : list Cluster.t :=
  sort byProblemCount clusters.

(** [clusters.sort(...).slice(0, 8)], the data of a cluster chart. *)
Definition clusterChart (clusters : list Cluster.t) : list Cluster.t :=
  firstn 8 (sortedClusters clusters).

(** ** The search box of [App] *)






(** ** [formatSentiment] and [getSentimentColor] *)

(** [a > b] and [a < b] on numbers. *)
Definition greater (a b : Q) : bool := negb (Qle_bool a b).
Definition less (a b : Q) : bool := negb (Qle_bool b a).

Definition formatSentiment (score : Q) : string :=
  if greater score (3 # 10) then "Positive"
  else if less score (- (3 # 10)) then "Negative"
  else "Neutral".

Definition getSentimentColor (score : Q) : string :=
  if greater score (3 # 10) then "text-green-600 bg-green-50 border-green-200"
  else if less score (- (3 # 10)) then "text-red-600 bg-red-50 border-red-200"
  else "text-yellow-600 bg-yellow-50 border-yellow-200".

(** ** [GET /api/problems/:id/comment] *)

(** [findFirst({ where: { problem_id: id } })], and [comment || null]; every
    authenticated caller is served. *)
Definition get_comment (id : string) (db : Store)
  : reply (option ResolvedComment.t) :=
  Json (find (resolvedComment.of_problem id) (resolvedComments db)).

(** ** Patterns ([RegExp.prototype.test])

    The constructs of the pattern of the source (a character class, sequence,
    [+]) and what their derivatives need.  A string is a sequence of code
    units below 256.  The pattern is anchored by [^] and [$], which without
    the [m] flag are the two ends of the string, so [test] asks whether the
    whole string matches. *)

Inductive regex : Type :=
| Empty                         (* matches no string *)
| Eps                           (* matches the empty string *)
| Chr (p : ascii -> bool)       (* one character of a class *)
| Alt (r1 r2 : regex)
| Seq (r1 r2 : regex)
| Star (r : regex).

(** [r+] *)
Definition Plus (r : regex) : regex := Seq r (Star r).

Fixpoint nullable (r : regex) : bool :=
  match r with
  | Empty => false
  | Eps => true
  | Chr _ => false
  | Alt r1 r2 => nullable r1 || nullable r2
  | Seq r1 r2 => nullable r1 && nullable r2
  | Star _ => true
  end.

(** What is left to match after the character [a]. *)
Fixpoint deriv (a : ascii) (r : regex) : regex :=
  match r with
  | Empty => Empty
  | Eps => Empty
  | Chr p => if p a then Eps else Empty
  | Alt r1 r2 => Alt (deriv a r1) (deriv a r2)
  | Seq r1 r2 =>
      if nullable r1
      then Alt (Seq (deriv a r1) r2) (deriv a r2)
      else Seq (deriv a r1) r2
  | Star r1 => Seq (deriv a r1) (Star r1)
  end.

(** [/^r$/.test(s)] *)
Fixpoint test (r : regex) (s : string) : bool :=
  match s with
  | EmptyString => nullable r
  | String a s' => test (deriv a r) s'
  end.

(** The strings of a pattern. *)
Inductive Matches : regex -> string -> Prop :=
| MEps : Matches Eps ""
| MChr (p : ascii -> bool) (a : ascii) :
    p a = true -> Matches (Chr p) (String a "")
| MAltL (r1 r2 : regex) (s : string) : Matches r1 s -> Matches (Alt r1 r2) s
| MAltR (r1 r2 : regex) (s : string) : Matches r2 s -> Matches (Alt r1 r2) s
| MSeq (r1 r2 : regex) (s1 s2 : string) :
    Matches r1 s1 -> Matches r2 s2 -> Matches (Seq r1 r2) (s1 ++ s2)
| MStar0 (r : regex) : Matches (Star r) ""
| MStarS (r : regex) (s1 s2 : string) :
    Matches r s1 -> Matches (Star r) s2 -> Matches (Star r) (s1 ++ s2).

(** [\s], among the code units below 256: tab, line feed, vertical tab, form
    feed, carriage return, space and no-break space. *)
Definition is_space (a : ascii) : bool :=
  existsb (Nat.eqb (nat_of_ascii a)) [9; 10; 11; 12; 13; 32; 160]%nat.

(** [[^\s@]] *)
Definition not_space_or_at (a : ascii) : bool :=
  negb (is_space a || Ascii.eqb a "@").

(** [/^[^\s@]+@[^\s@]+\.[^\s@]+$/] *)
Definition emailRegex : regex :=
  Seq (Plus (Chr not_space_or_at))
    (Seq (Chr (Ascii.eqb "@"))
       (Seq (Plus (Chr not_space_or_at))
          (Seq (Chr (Ascii.eqb "."))
             (Plus (Chr not_space_or_at))))).

Fixpoint all_chars (p : ascii -> bool) (s : string) : bool :=
  match s with
  | EmptyString => true
  | String a s' => p a && all_chars p s'
  end.

(** A string of one or more characters, none of them a space or [@]. *)
Definition word (s : string) : Prop :=
  s <> "" /\ all_chars not_space_or_at s = true.

(** A word, [@], a word, a dot, a word. *)
Definition address_shaped (s : string) : Prop :=
  exists local domain tld,
    s = (local ++ "@" ++ domain ++ "." ++ tld)%string /\
    word local /\ word domain /\ word tld.

(** How often a character occurs in a string. *)
Fixpoint occurrences (c : ascii) (s : string) : nat :=
  match s with
  | EmptyString => 0%nat
  | String a s' => ((if Ascii.eqb a c then 1 else 0) + occurrences c s')%nat
  end.

(** ** Accounts ([/api/auth/register], [/api/auth/login], [/api/users])

    The table [User] is kept apart from the store of the reports.  [email] is
    the unique key that [findUnique] and [upsert] look up; the key [id] is
    numbered by the database.  Equality filters compare strings exactly.  The
    rate limiter in front of the two routes is not modelled. *)

Module Account.
(** [password] holds the hash. *)
Record t := {
  id : Z;
  name : string;
  email : string;
  password : string;
  role : string }.
End Account.

Module user.

Definition has_email (email : string) (u : Account.t) : bool :=
  (Account.email u =? email)%string.

Definition findUnique (email : string) (users : list Account.t)
  : option Account.t :=
  find (has_email email) users.

Definition next_id (users : list Account.t) : Z :=
  1 + fold_right Z.max 0 (map Account.id users).

(** [create] throws [P2002] when the email is taken. *)
Definition create (name email password role : string)
  (users : list Account.t) : option (list Account.t) :=
  match findUnique email users with
  | Some _ => None
  | None =>
      Some (users ++ [{| Account.id := next_id users; Account.name := name;
                         Account.email := email;
                         Account.password := password;
                         Account.role := role |}])
  end.

End user.

(** [!x] for a field of the body that is a string when it is there: an absent
    field and the empty string are falsy. *)
Definition missing (x : option string) : bool :=
  match x with
  | None | Some "" => true
  | Some _ => false
  end.

Definition given (x : option string) : string :=
  match x with
  | Some s => s
  | None => ""
  end.

Module RegisterBody.
Record t := {
  name : option string;
  email : option string;
  password : option string;
  role : option string }.
End RegisterBody.


Module Session.
(** What [POST /api/auth/login] answers and signs into the token, which
    [authenticate] decodes into [req.user] on later requests. *)
Record t := { id : Z; name : string; role : string }.

Definition user (s : t) : User.t := {| User.id := id s; User.role := role s |}.
End Session.


Module Contact.
(** [select: { id: true, name: true, role: true }] *)
Record t := { id : Z; name : string; role : string }.

Definition of_account (u : Account.t) : t :=
  {| id := Account.id u; name := Account.name u; role := Account.role u |}.
End Contact.

(** [GET /api/users]: the accounts of the other role. *)
Definition get_users (caller : User.t) (users : list Account.t)
  : reply (list Contact.t) :=
  let isMunicipal := (User.role caller =? "municipal_admin")%string in
  let role := if isMunicipal then "citizen_admin" else "municipal_admin" in
  Json (map Contact.of_account
          (filter (fun u => (Account.role u =? role)%string) users)).

(** ** [parseInt] and [toString] on integers *)

(** The value of a digit or letter as a digit. *)
Definition digit_value (a : ascii) : option Z :=
  let n := Z.of_nat (nat_of_ascii a) in
  if (48 <=? n) && (n <=? 57) then Some (n - 48)
  else if (97 <=? n) && (n <=? 122) then Some (n - 87)
  else if (65 <=? n) && (n <=? 90) then Some (n - 55)
  else None.

(** The value of the longest prefix of [s] made of digits of the radix, after
    the digits already read; [None] when no digit has been read. *)
Fixpoint digits (radix : Z) (s : string) (acc : option Z) : option Z :=
  match s with
  | EmptyString => acc
  | String a s' =>
      match digit_value a with
      | Some d =>
          if d <? radix
          then digits radix s'
                 (Some (radix * match acc with Some v => v | None => 0 end + d))
          else acc
      | None => acc
      end
  end.

Fixpoint trim_start (s : string) : string :=
  match s with
  | EmptyString => EmptyString
  | String a s' => if is_space a then trim_start s' else s
  end.

Definition strip_sign (s : string) : Z * string :=
  match s with
  | String "-" s' => (-1, s')
  | String "+" s' => (1, s')
  | _ => (1, s)
  end.

Definition strip_prefix (s : string) : Z * string :=
  match s with
  | String "0" (String "x" s') => (16, s')
  | String "0" (String "X" s') => (16, s')
  | _ => (10, s)
  end.

(** [Number.isSafeInteger(n)]: the integers that a number holds exactly,
    each with a value of its own. *)
Definition isSafeInteger (n : Z) : bool := Z.abs n <? 2 ^ 53.

(** [parseInt(s)] without a radix; [None] is [NaN].  The value is the integer
    that the digits spell, which is the number that JavaScript returns when
    it is a safe integer; beyond that JavaScript returns a number near it. *)
Definition parseInt (s : string) : option Z :=
  let '(sign, s1) := strip_sign (trim_start s) in
  let '(radix, s2) := strip_prefix s1 in
  option_map (Z.mul sign) (digits radix s2 None).

(** The decimal digits of [n >= 0] in front of [acc]. *)
Fixpoint decimal (fuel : nat) (n : Z) (acc : string) : string :=
  match fuel with
  | O => acc
  | S fuel' =>
      let acc' := String (digit n) acc in
      if n <? 10 then acc' else decimal fuel' (n / 10) acc'
  end.

(** [n.toString()] for a safe integer [n]: the sign and the decimal digits.
    (From 10^21 on JavaScript writes an exponent instead, which is outside
    this definition.) *)
Definition toString (n : Z) : string :=
  if n <? 0 then String "-" (decimal (S (Z.to_nat (- n))) (- n) "")
  else decimal (S (Z.to_nat n)) n "".

(** One of the characters [0] to [9]. *)
Definition is_decimal_digit (a : ascii) : bool :=
  match digit_value a with
  | Some d => d <? 10
  | None => false
  end.

(** ** Messages ([/api/messages], [MessagingPanel]) *)

Module Message.
(** [is_read] is not read or written by the handlers and is left out. *)
Record t := {
  id : Z;
  sender_id : Z;
  receiver_id : Z;
  problem_id : option string;
  message_text : string;
  created_at : Z }.
End Message.

Module MessageBody.
(** [receiver_id] as the client sends it, a string. *)
Record t := {
  receiver_id : option string;
  problem_id : option string;
  message_text : option string }.
End MessageBody.

Module message.

Definition next_id (messages : list Message.t) : Z :=
  1 + fold_right Z.max 0 (map Message.id messages).

Definition involves (userId : Z) (m : Message.t) : bool :=
  (Message.sender_id m =? userId) || (Message.receiver_id m =? userId).

Definition by_created_at (a b : Message.t) : bool :=
  Message.created_at a <=? Message.created_at b.

End message.

Section Messaging.

(** Whether the store takes a new row: [schema.prisma] is not among the
    sources, so whether the receiver and the problem must exist, and which
    numbers fit the column, is left open. *)
Variable admits : Message.t -> bool.

(** [POST /api/messages].  [parseInt] of the receiver may be [NaN], which the
    client library refuses as the store refuses a row it does not admit: both
    throw. *)
Definition post_message (user : User.t) (body : MessageBody.t) (now : Z)
  (messages : list Message.t) : list Message.t * reply Message.t :=
  if missing (MessageBody.receiver_id body)
     || missing (MessageBody.message_text body)
  then (messages, Status 400 "Receiver and message text are required")
  else
    match parseInt (given (MessageBody.receiver_id body)) with
    | None => (messages, Status 500 "Failed to send message")
    | Some receiver =>
        let m := {| Message.id := message.next_id messages;
                    Message.sender_id := User.id user;
                    Message.receiver_id := receiver;
                    Message.problem_id := MessageBody.problem_id body;
                    Message.message_text :=
                      given (MessageBody.message_text body);
                    Message.created_at := now |} in
        if admits m then (messages ++ [m], Json m)
        else (messages, Status 500 "Failed to send message")
    end.

End Messaging.

(** [GET /api/messages]: the rows that the caller sent or received, oldest
    first.  [include] adds to each row the names and roles of the two
    accounts and the title of the problem; the rows and their order are those
    of this list. *)
Definition get_messages (user : User.t) (messages : list Message.t)
  : reply (list Message.t) :=
  Json (sort message.by_created_at
          (filter (message.involves (User.id user)) messages)).

(** [a === b] for a number and the result of [parseInt]: [NaN] equals
    nothing. *)
Definition strict_eq (a : Z) (b : option Z) : bool :=
  match b with
  | Some n => a =? n
  | None => false
  end.

(** [filteredMessages] of [MessagingPanel]: of the messages fetched, those
    exchanged with the selected recipient. *)
Definition filteredMessages (user : User.t) (selectedRecipient : string)
  (messages : list Message.t) : list Message.t :=
  filter
    (fun m =>
       (Message.sender_id m =? User.id user)
       && strict_eq (Message.receiver_id m) (parseInt selectedRecipient)
       || strict_eq (Message.sender_id m) (parseInt selectedRecipient)
          && (Message.receiver_id m =? User.id user))
    messages.

(** ** [GET /api/problems] *)

Module Listed.
(** [{ ...p, citizen_name: p.user.name }] *)
Record t := { problem : Problem.t; citizen_name : string }.
End Listed.

Section ProblemList.

(** What the client library makes of [where.cluster_id] is not in the
    sources: whether it takes a number as a value of the column, and what it
    does with [NaN] (it throws, or it filters in some way). *)
Variable fits : Z -> bool.
Variable nan_where : option (Problem.t -> bool).

(** [if (cluster_id) where.cluster_id = parseInt(cluster_id)]; [None] when
    the query throws. *)
Definition cluster_where (cluster_id : option string)
  : option (Problem.t -> bool) :=
  if missing cluster_id then Some (fun _ => true)
  else
    match parseInt (given cluster_id) with
    | Some n => if fits n then Some (in_cluster n) else None
    | None => nan_where
    end.

(** [include: { user: { select: { name: true } } }]: the relation is
    required, a problem whose user is missing makes the query throw. *)
Fixpoint include_user (accounts : list Account.t) (ps : list Problem.t)
  : option (list Listed.t) :=
  match ps with
  | [] => Some []
  | p :: ps' =>
      match find (fun a => Account.id a =? Problem.user_id p) accounts,
            include_user accounts ps' with
      | Some a, Some rest =>
          Some ({| Listed.problem := p;
                   Listed.citizen_name := Account.name a |} :: rest)
      | _, _ => None
      end
  end.

(** [GET /api/problems]; [cluster_id] is [req.query.cluster_id].  The handler
    catches nothing. *)
Definition get_problems (accounts : list Account.t) (user : User.t)
  (cluster_id : option string) (db : Store) : reply (list Listed.t) :=
  let isMunicipal := (User.role user =? "municipal_admin")%string in
  let userId := User.id user in
  match cluster_where cluster_id with
  | None => Unhandled
  | Some of_cluster =>
      let problems :=
        sort (fun a b => Problem.created_at b <=? Problem.created_at a)
          (problem.findMany
             (fun p => (isMunicipal || of_user userId p) && of_cluster p) db) in
      match include_user accounts problems with
      | Some formattedProblems => Json formattedProblems
      | None => Unhandled
      end
  end.

End ProblemList.

(** ** Fixtures for the examples of the accounts and the messages *)

Definition directory : list Account.t :=
  [{| Account.id := 1; Account.name := "Karthik";
      Account.email := "citizen@admin.com"; Account.password := "";
      Account.role := "citizen_admin" |};
   {| Account.id := 2; Account.name := "City Officer";
      Account.email := "municipal@admin.com"; Account.password := "";
      Account.role := "municipal_admin" |};
   {| Account.id := 3; Account.name := "Neighbour";
      Account.email := "neighbour@admin.com"; Account.password := "";
      Account.role := "citizen_admin" |}].

(** The citizen asks the officer, the officer answers, and the neighbour
    writes to the officer. *)
Definition chat : list Message.t :=
  fst (post_message (fun _ => true) neighbour
         {| MessageBody.receiver_id := Some "2";
            MessageBody.problem_id := None;
            MessageBody.message_text := Some "Hello" |}
         (early_2_november + 2000)
    (fst (post_message (fun _ => true) officer
            {| MessageBody.receiver_id := Some "1";
               MessageBody.problem_id := None;
               MessageBody.message_text := Some "On it" |}
            (early_2_november + 1000)
       (fst (post_message (fun _ => true) citizen
               {| MessageBody.receiver_id := Some "2";
                  MessageBody.problem_id := None;
                  MessageBody.message_text := Some "Any news?" |}
               early_2_november []))))).

(** * Properties *)

(** ** The string filter *)

Section ContainsFacts.

Variable collate : ascii -> ascii.

Lemma fold_string_length (s : string) :
  String.length (fold_string collate s) = String.length s.
Proof. induction s; simpl; congruence. Qed.

Lemma append_length (s1 s2 : string) :
  String.length (s1 ++ s2)%string = (String.length s1 + String.length s2)%nat.
Proof. induction s1; simpl; congruence. Qed.

Lemma fold_string_append (s1 s2 : string) :
  fold_string collate (s1 ++ s2)%string =
  (fold_string collate s1 ++ fold_string collate s2)%string.
Proof. induction s1; simpl; congruence. Qed.

Lemma starts_with_spec (needle hay : string) :
  starts_with collate hay needle = true <->
  exists post,
    fold_string collate hay = (fold_string collate needle ++ post)%string.
Proof.
  revert hay; induction needle as [|a n IH]; intros hay; simpl.
  - split; [intros _; now exists (fold_string collate hay) | reflexivity].
  - destruct hay as [|b h]; simpl.
    + split; [discriminate | intros [post H]; discriminate].
    + rewrite andb_true_iff, Ascii.eqb_eq, IH.
      split.
      * intros [Hab [post Hp]]. exists post. now rewrite Hab, Hp.
      * intros [post Hp]. injection Hp as Hab Hp. split; [easy | now exists post].
Qed.

Lemma has_substring_spec (needle hay : string) :
  has_substring collate hay needle = true <-> occurs_in collate needle hay.
Proof.
  unfold occurs_in. induction hay as [|b h IH].
  - cbn [has_substring]. rewrite orb_false_r, starts_with_spec. split.
    + intros [post Hp]. now exists ""%string, post.
    + intros [pre [post Hp]]. simpl in Hp.
      destruct pre; [|discriminate]. now exists post.
  - cbn [has_substring]. rewrite orb_true_iff, starts_with_spec, IH. split.
    + intros [[post Hp] | [pre [post Hp]]].
      * now exists ""%string, post.
      * exists (String (collate b) pre), post. simpl. now rewrite Hp.
    + intros [[|c pre] [post Hp]].
      * left. now exists post.
      * right. simpl in Hp. injection Hp as _ Hp. now exists pre, post.
Qed.

Lemma occurs_in_length (needle hay : string) :
  occurs_in collate needle hay -> (String.length needle <= String.length hay)%nat.
Proof.
  intros [pre [post H]].
  apply (f_equal String.length) in H.
  rewrite !append_length, !fold_string_length in H. lia.
Qed.

Lemma occurs_in_literal (pre needle post : string) :
  occurs_in collate needle (pre ++ needle ++ post)%string.
Proof.
  exists (fold_string collate pre), (fold_string collate post).
  now rewrite !fold_string_append.
Qed.

Lemma append_same_length_nil (pre s post : string) :
  String.length (pre ++ s ++ post)%string = String.length s ->
  (pre ++ s ++ post)%string = s.
Proof.
  rewrite !append_length. intros H.
  destruct pre; [|simpl in H; lia].
  destruct post; [|simpl in H; lia].
  simpl. clear H. induction s; simpl; congruence.
Qed.

(** A name that occurs in a suggestion without being equal to it (up to the
    collation) does not contain the suggestion. *)
Lemma has_substring_one_way (name suggestion : string) :
  occurs_in collate name suggestion ->
  fold_string collate name <> fold_string collate suggestion ->
  has_substring collate name suggestion = false.
Proof.
  intros Hin Hne.
  destruct (has_substring collate name suggestion) eqn:E; [|reflexivity].
  apply has_substring_spec in E.
  pose proof (occurs_in_length _ _ Hin) as L1.
  pose proof (occurs_in_length _ _ E) as L2.
  destruct Hin as [pre [post H]]. exfalso. apply Hne.
  rewrite H. symmetry. apply append_same_length_nil.
  rewrite <- H, !fold_string_length. lia.
Qed.

(** *** Patterns *)

Variable backslash : bool.

Lemma like_Any (q : list token) (s : string) :
  like collate (Any :: q) s =
  like collate q s ||
  match s with
  | EmptyString => false
  | String _ s' => like collate (Any :: q) s'
  end.
Proof. destruct s; reflexivity. Qed.

(** [%] may stand for nothing, and for one character more. *)
Lemma like_Any_here (q : list token) (s : string) :
  like collate q s = true -> like collate (Any :: q) s = true.
Proof. intros H. rewrite like_Any, H. reflexivity. Qed.

Lemma like_Any_skip (q : list token) (a : ascii) (s : string) :
  like collate (Any :: q) s = true ->
  like collate (Any :: q) (String a s) = true.
Proof. intros H. rewrite like_Any, H. apply orb_true_r. Qed.

Lemma like_Any_all (s : string) : like collate [Any] s = true.
Proof.
  induction s as [|a s IH]; [reflexivity|].
  apply like_Any_skip, IH.
Qed.

Lemma is_escape_percent : is_escape backslash "%" = false.
Proof. unfold is_escape. now destruct backslash. Qed.

Lemma tokens_percent (rest : string) :
  tokens backslash (String "%" rest) = Any :: tokens backslash rest.
Proof. cbn [tokens]. now rewrite is_escape_percent. Qed.

(** A character that is not the escape character is one token. *)
Lemma tokens_unescaped (a : ascii) (rest : string) :
  is_escape backslash a = false ->
  tokens backslash (String a rest) = token_of a :: tokens backslash rest.
Proof. intros H. cbn [tokens]. now rewrite H. Qed.

Lemma plain_cons (a : ascii) (s : string) :
  plain backslash (String a s) = true ->
  is_escape backslash a = false /\ token_of a = Lit a /\
  plain backslash s = true.
Proof.
  cbn [plain]. rewrite !andb_true_iff, !negb_true_iff.
  intros [[[H1 H2] H3] H4]. unfold token_of. now rewrite H1, H2.
Qed.

(** The pattern of a plain string, closed by [%], asks for that string at the
    start. *)
Lemma like_plain_prefix (needle hay : string) :
  plain backslash needle = true ->
  like collate (tokens backslash (needle ++ "%")) hay =
  starts_with collate hay needle.
Proof.
  revert hay. induction needle as [|a n IH]; intros hay Hp.
  - cbn [append]. rewrite tokens_percent. cbn [tokens starts_with].
    apply like_Any_all.
  - apply plain_cons in Hp. destruct Hp as [He [Ht Hp]].
    cbn [append]. rewrite (tokens_unescaped _ _ He), Ht.
    destruct hay as [|b h]; [reflexivity|].
    cbn [like starts_with]. now rewrite IH.
Qed.

(** On a plain string the filter is the substring test. *)
Lemma contains_plain (needle hay : string) :
  plain backslash needle = true ->
  contains collate backslash hay needle = has_substring collate hay needle.
Proof.
  intros Hp. unfold contains. cbn [append]. rewrite tokens_percent.
  induction hay as [|b h IH]; rewrite like_Any, (like_plain_prefix _ _ Hp).
  - reflexivity.
  - cbn [has_substring]. now rewrite IH.
Qed.

Lemma contains_plain_spec (needle hay : string) :
  plain backslash needle = true ->
  contains collate backslash hay needle = true <-> occurs_in collate needle hay.
Proof. intros Hp. rewrite (contains_plain _ _ Hp). apply has_substring_spec. Qed.





Lemma plain_unescaped (s : string) :
  plain backslash s = true -> unescaped backslash s = true.
Proof.
  induction s as [|a s IH]; [reflexivity|].
  intros H. apply plain_cons in H. destruct H as [He [_ Hp]].
  cbn [unescaped]. now rewrite He, IH.
Qed.

End ContainsFacts.


(** ** Dictionaries *)

Section DictFacts.

Variables K V : Type.
Variable eqb : K -> K -> bool.
Hypothesis eqb_eq : forall a b, eqb a b = true <-> a = b.

Lemma eqb_refl' (k : K) : eqb k k = true.
Proof. now apply eqb_eq. Qed.

Lemma eqb_neq' (a b : K) : a <> b -> eqb a b = false.
Proof.
  intros H. destruct (eqb a b) eqn:E; [|reflexivity].
  apply eqb_eq in E. contradiction.
Qed.

Lemma get_set_same (m : dict K V) (k : K) (v : V) :
  get eqb (set eqb m k v) k = Some v.
Proof.
  induction m as [|[k' v'] m IH]; simpl.
  - now rewrite eqb_refl'.
  - destruct (eqb k k') eqn:E; simpl; rewrite E; [reflexivity | exact IH].
Qed.

Lemma get_set_other (m : dict K V) (k k' : K) (v : V) :
  k' <> k -> get eqb (set eqb m k v) k' = get eqb m k'.
Proof.
  intros Hne. induction m as [|[k0 v0] m IH]; simpl.
  - now rewrite eqb_neq'.
  - destruct (eqb k k0) eqn:E; simpl.
    + apply eqb_eq in E. subst k0. now rewrite eqb_neq'.
    + now rewrite IH.
Qed.

Lemma get_set (m : dict K V) (k k' : K) (v : V) :
  get eqb (set eqb m k v) k' = if eqb k' k then Some v else get eqb m k'.
Proof.
  destruct (eqb k' k) eqn:E.
  - apply eqb_eq in E. subst. apply get_set_same.
  - apply get_set_other. intros ->. now rewrite eqb_refl' in E.
Qed.

Lemma get_None_keys (m : dict K V) (k : K) :
  get eqb m k = None <-> ~ In k (keys m).
Proof.
  induction m as [|[k' v'] m IH]; simpl.
  - tauto.
  - destruct (eqb k k') eqn:E.
    + apply eqb_eq in E. subst. split; [discriminate | tauto].
    + rewrite IH. split.
      * intros H [H1 | H1]; [subst; now rewrite eqb_refl' in E | tauto].
      * tauto.
Qed.

Lemma get_Some_keys (m : dict K V) (k : K) (v : V) :
  get eqb m k = Some v -> In k (keys m).
Proof.
  induction m as [|[k' v'] m IH]; simpl; [discriminate|].
  destruct (eqb k k') eqn:E.
  - apply eqb_eq in E. subst. tauto.
  - tauto.
Qed.

Lemma get_Some_In (m : dict K V) (k : K) (v : V) :
  get eqb m k = Some v -> In (k, v) m.
Proof.
  induction m as [|[k' v'] m IH]; simpl; [discriminate|].
  destruct (eqb k k') eqn:E.
  - apply eqb_eq in E. intros [= ->]. subst. now left.
  - auto.
Qed.

Lemma In_get_Some (m : dict K V) (k : K) (v : V) :
  NoDup (keys m) -> In (k, v) m -> get eqb m k = Some v.
Proof.
  induction m as [|[k' v'] m IH]; simpl; [tauto|].
  intros Hnd [H | H].
  - injection H as -> ->. now rewrite eqb_refl'.
  - inversion Hnd as [|? ? Hnot Hnd']; subst.
    destruct (eqb k k') eqn:E.
    + apply eqb_eq in E. subst. exfalso. apply Hnot.
      change k' with (fst (k', v)). now apply in_map.
    + now apply IH.
Qed.

Lemma keys_set_present (m : dict K V) (k : K) (v : V) :
  In k (keys m) -> keys (set eqb m k v) = keys m.
Proof.
  induction m as [|[k' v'] m IH]; simpl; [tauto|].
  intros H. destruct (eqb k k') eqn:E; simpl; [reflexivity|].
  f_equal. apply IH. destruct H as [H | H]; [|exact H].
  subst. now rewrite eqb_refl' in E.
Qed.

Lemma set_absent (m : dict K V) (k : K) (v : V) :
  ~ In k (keys m) -> set eqb m k v = m ++ [(k, v)].
Proof.
  induction m as [|[k' v'] m IH]; simpl; [reflexivity|].
  intros H. rewrite eqb_neq' by (intros ->; tauto).
  f_equal. apply IH. tauto.
Qed.

Lemma keys_set_NoDup (m : dict K V) (k : K) (v : V) :
  NoDup (keys m) -> NoDup (keys (set eqb m k v)).
Proof.
  intros Hnd.
  destruct (get eqb m k) as [v0|] eqn:E.
  - rewrite keys_set_present; [exact Hnd | eapply get_Some_keys; eauto].
  - apply get_None_keys in E. rewrite set_absent by exact E.
    unfold keys. rewrite map_app. simpl.
    apply NoDup_app; [exact Hnd | repeat constructor; simpl; tauto |].
    intros x Hx [<- | []]. contradiction.
Qed.

Lemma In_keys_set (m : dict K V) (k k' : K) (v : V) :
  In k' (keys (set eqb m k v)) <-> k' = k \/ In k' (keys m).
Proof.
  induction m as [|[k0 v0] m IH]; simpl.
  - intuition.
  - destruct (eqb k k0) eqn:E; simpl.
    + apply eqb_eq in E. subst. intuition.
    + rewrite IH. intuition.
Qed.

End DictFacts.

(** ** The grouping loop *)

Section AccumulateFacts.

Variables A V : Type.
Variable key : A -> string.
Variable init : V.
Variable add : A -> V -> V.

Let keyed (k : string) (x : A) : bool := (key x =? k)%string.

Let total (l : list A) (v : V) : V := fold_left (fun v x => add x v) l v.

Let opt_total (l : list A) (o : option V) : option V :=
  fold_left
    (fun o x => Some (add x match o with Some v => v | None => init end)) l o.

Lemma get_bump (m : dict string V) (k k' : string) (f : V -> V) :
  get String.eqb (bump String.eqb m k init f) k' =
  if (k' =? k)%string
  then Some (f match get String.eqb m k with Some v => v | None => init end)
  else get String.eqb m k'.
Proof.
  unfold bump.
  destruct (get String.eqb m k); apply get_set; apply String.eqb_eq.
Qed.

Lemma keys_bump_NoDup (m : dict string V) (k : string) (f : V -> V) :
  NoDup (keys m) -> NoDup (keys (bump String.eqb m k init f)).
Proof.
  unfold bump.
  destruct (get String.eqb m k); apply keys_set_NoDup; apply String.eqb_eq.
Qed.

Lemma get_fold_bump (rows : list A) (m : dict string V) (k : string) :
  get String.eqb
    (fold_left (fun m x => bump String.eqb m (key x) init (add x)) rows m) k =
  opt_total (filter (keyed k) rows) (get String.eqb m k).
Proof.
  revert m. induction rows as [|x rows IH]; intros m; simpl; [reflexivity|].
  rewrite IH, get_bump. unfold keyed at 2.
  rewrite String.eqb_sym.
  destruct (key x =? k)%string eqn:E; [|reflexivity].
  apply String.eqb_eq in E. subst k. reflexivity.
Qed.

Lemma opt_total_Some (l : list A) (v : V) :
  opt_total l (Some v) = Some (total l v).
Proof.
  revert v. induction l as [|x l IH]; intros v; simpl; [reflexivity|].
  apply IH.
Qed.

Lemma opt_total_None (l : list A) :
  opt_total l None = match l with [] => None | _ => Some (total l init) end.
Proof. destruct l as [|x l]; simpl; [reflexivity | apply opt_total_Some]. Qed.

Lemma keys_accumulate_NoDup (rows : list A) :
  NoDup (keys (accumulate key init add rows)).
Proof.
  unfold accumulate.
  assert (G : forall m : dict string V, NoDup (keys m) ->
            NoDup (keys (fold_left
              (fun m x => bump String.eqb m (key x) init (add x)) rows m))).
  { induction rows as [|x rows IH]; intros m Hm; simpl; [exact Hm|].
    apply IH. now apply keys_bump_NoDup. }
  apply G. constructor.
Qed.

(** An entry of the result is a key that occurs, with the fold of [add] over
    the rows of that key, in their order. *)
Lemma accumulate_In (rows : list A) (k : string) (v : V) :
  In (k, v) (accumulate key init add rows) <->
  filter (keyed k) rows <> [] /\ v = total (filter (keyed k) rows) init.
Proof.
  assert (G : get String.eqb (accumulate key init add rows) k =
              opt_total (filter (keyed k) rows) None).
  { unfold accumulate. now rewrite get_fold_bump. }
  rewrite opt_total_None in G.
  split.
  - intros H.
    apply (In_get_Some _ _ String.eqb String.eqb_eq) in H;
      [|apply keys_accumulate_NoDup].
    rewrite H in G. destruct (filter (keyed k) rows); [discriminate|].
    split; [discriminate | congruence].
  - intros [Hne ->].
    apply (get_Some_In _ _ String.eqb String.eqb_eq). rewrite G.
    destruct (filter (keyed k) rows); [contradiction | reflexivity].
Qed.

End AccumulateFacts.

(** ** Sorting *)

Section SortFacts.

Variable A : Type.
Variable le : A -> A -> bool.

Lemma insert_perm (x : A) (l : list A) : Permutation (insert le x l) (x :: l).
Proof.
  induction l as [|y l IH]; simpl; [reflexivity|].
  destruct (le x y); [reflexivity|].
  rewrite IH. apply perm_swap.
Qed.

Lemma sort_perm (l : list A) : Permutation (sort le l) l.
Proof.
  induction l as [|x l IH]; simpl; [reflexivity|].
  rewrite insert_perm. now constructor.
Qed.

Lemma In_sort (x : A) (l : list A) : In x (sort le l) <-> In x l.
Proof.
  split; apply Permutation_in; [|symmetry]; apply sort_perm.
Qed.

Lemma sort_length (l : list A) : List.length (sort le l) = List.length l.
Proof. apply Permutation_length, sort_perm. Qed.

Hypothesis le_total : forall a b, le a b = true \/ le b a = true.

Lemma insert_sorted (x : A) (l : list A) :
  Sorted (fun a b => le a b = true) l ->
  Sorted (fun a b => le a b = true) (insert le x l).
Proof.
  induction 1 as [|y l Hs IH Hhd]; simpl.
  - repeat constructor.
  - destruct (le x y) eqn:E.
    + constructor; [now constructor | now constructor].
    + constructor; [exact IH|].
      destruct l as [|z l]; simpl.
      * constructor. destruct (le_total x y); congruence.
      * destruct (le x z); constructor.
        -- destruct (le_total x y); congruence.
        -- now inversion Hhd.
Qed.

Lemma sort_sorted (l : list A) : Sorted (fun a b => le a b = true) (sort le l).
Proof.
  induction l as [|x l IH]; simpl; [constructor | now apply insert_sorted].
Qed.

End SortFacts.

Lemma sort_map {A B : Type} (f : A -> B) (le : A -> A -> bool)
  (le' : B -> B -> bool) (l : list A) :
  (forall a b, le a b = le' (f a) (f b)) ->
  map f (sort le l) = sort le' (map f l).
Proof.
  intros H. induction l as [|x l IH]; simpl; [reflexivity|].
  rewrite <- IH. generalize (sort le l). intros s.
  induction s as [|y s IHs]; simpl; [reflexivity|].
  rewrite <- H. destruct (le x y); simpl; congruence.
Qed.

Lemma insert_last (x : Z) (l : list Z) :
  (forall y, In y l -> y < x) -> insert Z.leb x l = l ++ [x].
Proof.
  induction l as [|y l IH]; intros H; simpl; [reflexivity|].
  assert (y < x) by (apply H; now left).
  destruct (Z.leb_spec x y); [lia|].
  f_equal. apply IH. intros z Hz. apply H. now right.
Qed.

(** Sorting a strictly descending list of numbers reverses it. *)
Lemma sort_descending (l : list Z) :
  StronglySorted Z.gt l -> sort Z.leb l = rev l.
Proof.
  induction 1 as [|x l Hs IH Hall]; simpl; [reflexivity|].
  rewrite IH. apply insert_last.
  intros y Hy. apply in_rev in Hy.
  rewrite Forall_forall in Hall. specialize (Hall y Hy). lia.
Qed.

(** ** Cluster statistics *)

Lemma or_zeroQ_avgQ (l : list Q) : (JS.or_zeroQ (avgQ l) == mean l)%Q.
Proof.
  destruct l as [|x l]; [reflexivity|].
  unfold avgQ, mean, JS.or_zeroQ.
  destruct (Qeq_bool _ 0) eqn:E; [|reflexivity].
  apply Qeq_bool_eq in E. now rewrite E.
Qed.

Lemma find_has_id_In (cid : Z) (cs : list Cluster.t) :
  (exists c, find (cluster.has_id cid) cs = Some c) <->
  (exists c, In c cs /\ Cluster.id c = cid).
Proof.
  split.
  - intros [c H]. apply find_some in H. destruct H as [H1 H2].
    exists c. split; [exact H1 | now apply Z.eqb_eq].
  - intros [c [H1 H2]].
    destruct (find (cluster.has_id cid) cs) as [c'|] eqn:E; [now exists c'|].
    exfalso. apply (find_none _ _ E) in H1.
    unfold cluster.has_id in H1. rewrite H2, Z.eqb_refl in H1. discriminate.
Qed.

Lemma In_update_where {A} (w : A -> bool) (data : A -> A) (rows : list A) (y : A) :
  In y (update_where w data rows) <->
  exists x, In x rows /\ y = if w x then data x else x.
Proof.
  unfold update_where. rewrite in_map_iff.
  split; intros [x [H1 H2]]; exists x; auto.
Qed.

(** What a refresh that goes through does: the problems stay; a row with the
    id carries the recomputed statistics; every other row stays. *)
Lemma refresh_Some (cid : Z) (db db' : Store) :
  refresh cid db = Some db' ->
  problems db' = problems db /\
  resolvedComments db' = resolvedComments db /\
  clusters db' =
    update_where (cluster.has_id cid)
      (Cluster.with_stats
         (Z.of_nat (List.length (members db cid)))
         (JS.or_zeroQ (avgQ (map Problem.sentiment_score (members db cid)))))
      (clusters db).
Proof.
  unfold refresh, cluster.update.
  destruct (find (cluster.has_id cid) (clusters db)); [|discriminate].
  intros [= <-]. simpl. repeat split.
Qed.

Lemma refresh_defined (cid : Z) (db : Store) :
  (exists c, In c (clusters db) /\ Cluster.id c = cid) ->
  exists db', refresh cid db = Some db'.
Proof.
  intros H. apply find_has_id_In in H. destruct H as [c H].
  unfold refresh, cluster.update. rewrite H. eauto.
Qed.

Lemma refresh_None (cid : Z) (db : Store) :
  refresh cid db = None -> forall c, In c (clusters db) -> Cluster.id c <> cid.
Proof.
  intros H c Hc Hid.
  destruct (refresh_defined cid db) as [db' E]; [eauto | congruence].
Qed.

Lemma stats_fresh_same_problems (db db' : Store) (c : Cluster.t) :
  problems db' = problems db -> stats_fresh db c -> stats_fresh db' c.
Proof. unfold stats_fresh, members. now intros ->. Qed.

Lemma refresh_clusters (cid : Z) (db db' : Store) (c' : Cluster.t) :
  refresh cid db = Some db' -> In c' (clusters db') ->
  (Cluster.id c' = cid /\ stats_fresh db' c') \/
  (Cluster.id c' <> cid /\ In c' (clusters db)).
Proof.
  intros H Hin. apply refresh_Some in H. destruct H as [Hp [_ Hc]].
  rewrite Hc in Hin. apply In_update_where in Hin.
  destruct Hin as [c [Hin ->]]. unfold cluster.has_id.
  destruct (Z.eqb_spec (Cluster.id c) cid) as [E | E].
  - left. simpl. split; [exact E|].
    unfold stats_fresh, members. simpl. rewrite Hp, E.
    split; [reflexivity | apply or_zeroQ_avgQ].
  - right. now split.
Qed.

Lemma refresh_ids (cid : Z) (db db' : Store) :
  refresh cid db = Some db' ->
  map Cluster.id (clusters db') = map Cluster.id (clusters db).
Proof.
  intros H. apply refresh_Some in H. destruct H as [_ [_ ->]].
  unfold update_where. rewrite map_map. apply map_ext.
  intros c. now destruct (cluster.has_id cid c).
Qed.

Lemma refresh_consistent (cid : Z) (db db' : Store) :
  refresh cid db = Some db' -> consistent db -> consistent db'.
Proof.
  intros H Hc c' Hin.
  destruct (refresh_clusters _ _ _ _ H Hin) as [[_ F] | [_ Hold]]; [exact F|].
  apply stats_fresh_same_problems with db; [now apply refresh_Some in H | auto].
Qed.

(** Refreshing twice in a row: the second refresh changes nothing. *)
Lemma refresh_idempotent (cid : Z) (db db1 : Store) :
  refresh cid db = Some db1 -> refresh cid db1 = Some db1.
Proof.
  intros H. pose proof (refresh_Some _ _ _ H) as [Hp [Hr Hc]].
  assert (Hex : exists c, In c (clusters db1) /\ Cluster.id c = cid).
  { assert (Hids : In cid (map Cluster.id (clusters db1))).
    { rewrite (refresh_ids _ _ _ H).
      unfold refresh, cluster.update in H.
      destruct (find (cluster.has_id cid) (clusters db)) as [c|] eqn:E;
        [|discriminate].
      apply find_some in E. destruct E as [E1 E2].
      apply Z.eqb_eq in E2. rewrite <- E2. now apply in_map. }
    apply in_map_iff in Hids. destruct Hids as [c1 [H1 H2]]. now exists c1. }
  destruct (refresh_defined _ _ Hex) as [db2 H2].
  rewrite H2. f_equal.
  pose proof (refresh_Some _ _ _ H2) as [Hp2 [Hr2 Hc2]].
  destruct db1 as [ps1 cs1 rs1], db2 as [ps2 cs2 rs2]. simpl in *.
  subst ps2 rs2. f_equal. rewrite Hc2.
  unfold members. simpl. rewrite Hp.
  fold (members db cid). rewrite Hc.
  unfold update_where. rewrite map_map. apply map_ext.
  intros c. unfold cluster.has_id.
  destruct (Z.eqb_spec (Cluster.id c) cid) as [E | E]; simpl.
  - rewrite E, Z.eqb_refl. reflexivity.
  - destruct (Z.eqb_spec (Cluster.id c) cid); [contradiction | reflexivity].
Qed.

Lemma refresh_each_spec (cs : list Cluster.t) (db : Store) :
  (forall c, In c cs ->
     exists c', In c' (clusters db) /\ Cluster.id c' = Cluster.id c) ->
  exists db',
    refresh_each cs db = Some db' /\
    problems db' = problems db /\
    resolvedComments db' = resolvedComments db /\
    map Cluster.id (clusters db') = map Cluster.id (clusters db) /\
    forall c', In c' (clusters db') ->
      (In (Cluster.id c') (map Cluster.id cs) /\ stats_fresh db' c') \/
      (~ In (Cluster.id c') (map Cluster.id cs) /\ In c' (clusters db)).
Proof.
  revert db. induction cs as [|c cs IH]; intros db Hex; simpl.
  - exists db. repeat split; auto.
  - destruct (refresh_defined (Cluster.id c) db) as [db1 H1].
    { apply Hex. now left. }
    rewrite H1.
    pose proof (refresh_Some _ _ _ H1) as [Hp1 [Hr1 _]].
    pose proof (refresh_ids _ _ _ H1) as Hids1.
    destruct (IH db1) as [db' [H2 [Hp [Hr [Hids Hcl]]]]].
    { intros c0 Hc0. destruct (Hex c0) as [c' [Hc' Hid]]; [now right|].
      assert (Hin : In (Cluster.id c0) (map Cluster.id (clusters db1))).
      { rewrite Hids1, <- Hid. now apply in_map. }
      apply in_map_iff in Hin. destruct Hin as [c1 [E1 E2]]. now exists c1. }
    exists db'. split; [exact H2|].
    split; [congruence|]. split; [congruence|]. split; [congruence|].
    intros c' Hin. destruct (Hcl c' Hin) as [[Hi F] | [Hn Hold]].
    + left. split; [now right | exact F].
    + destruct (refresh_clusters _ _ _ _ H1 Hold) as [[E F] | [E Hold']].
      * left. split; [now left|].
        apply stats_fresh_same_problems with db1; [exact Hp | exact F].
      * right. split; [|exact Hold']. intros [G | G]; [congruence | tauto].
Qed.

(** The sweep over all clusters goes through and leaves every cluster with the
    statistics of its members, whatever was stored before. *)
Lemma refresh_all_consistent (db : Store) :
  exists db', refresh_all db = Some db' /\ problems db' = problems db /\
              consistent db'.
Proof.
  destruct (refresh_each_spec (clusters db) db) as [db' [H [Hp [_ [Hids Hcl]]]]].
  { intros c Hc. now exists c. }
  exists db'. split; [exact H|]. split; [exact Hp|].
  intros c' Hin. destruct (Hcl c' Hin) as [[_ F] | [Hn _]]; [exact F|].
  exfalso. apply Hn. rewrite <- Hids. now apply in_map.
Qed.

Lemma members_scores (db : Store) (cid : Z) :
  map Problem.sentiment_score (members db cid) =
  map snd
    (filter (fun v => match fst v with Some c => c =? cid | None => false end)
       (membership db)).
Proof.
  unfold members, membership.
  induction (problems db) as [|p ps IH]; simpl; [reflexivity|].
  unfold in_cluster at 1.
  destruct (Problem.cluster_id p) as [c|]; [|exact IH].
  destruct (c =? cid); simpl; [now rewrite IH | exact IH].
Qed.

Lemma stats_fresh_same_membership (db db' : Store) (c : Cluster.t) :
  membership db' = membership db -> stats_fresh db c -> stats_fresh db' c.
Proof.
  intros Hm [H1 H2]. unfold stats_fresh.
  rewrite <- (length_map Problem.sentiment_score) in H1 |- *.
  rewrite members_scores in H1, H2 |- *. rewrite Hm. now split.
Qed.

Lemma map_update_where {A B} (f : A -> B) (w : A -> bool) (data : A -> A)
  (rows : list A) :
  (forall x, f (data x) = f x) ->
  map f (update_where w data rows) = map f rows.
Proof.
  intros H. unfold update_where. rewrite map_map. apply map_ext.
  intros x. destruct (w x); auto.
Qed.

Lemma cluster_refs_ok_same (db db' : Store) :
  membership db' = membership db ->
  map Cluster.id (clusters db') = map Cluster.id (clusters db) ->
  cluster_refs_ok db -> cluster_refs_ok db'.
Proof.
  intros Hm Hc Hok p cid Hp Hcid.
  assert (Hin : In (Some cid) (map fst (membership db))).
  { rewrite <- Hm. unfold membership. rewrite map_map. simpl.
    rewrite <- Hcid. now apply in_map. }
  unfold membership in Hin. rewrite map_map in Hin. simpl in Hin.
  apply in_map_iff in Hin. destruct Hin as [p0 [E Hp0]].
  destruct (Hok p0 cid Hp0 E) as [c [Hc1 Hc2]].
  assert (Hid : In cid (map Cluster.id (clusters db'))).
  { rewrite Hc, <- Hc2. now apply in_map. }
  apply in_map_iff in Hid. destruct Hid as [c' [E1 E2]]. now exists c'.
Qed.

Lemma max_ids_bound (ids : list Z) (x : Z) :
  In x ids -> x <= fold_right Z.max 0 ids.
Proof.
  induction ids as [|y ids IH]; simpl; [tauto|].
  intros [-> | H]; [lia | specialize (IH H); lia].
Qed.

Lemma next_id_fresh (db : Store) (c : Cluster.t) :
  In c (clusters db) -> Cluster.id c < cluster.next_id db.
Proof.
  intros H. unfold cluster.next_id.
  assert (Cluster.id c <= fold_right Z.max 0 (map Cluster.id (clusters db)))
    by (apply max_ids_bound; now apply in_map).
  lia.
Qed.

Lemma filter_nil {A} (f : A -> bool) (l : list A) :
  (forall x, In x l -> f x = false) -> filter f l = [].
Proof.
  induction l as [|x l IH]; intros H; simpl; [reflexivity|].
  rewrite (H x) by now left. apply IH. intros y Hy. apply H. now right.
Qed.

Section SubmissionFacts.

Variable collate : ascii -> ascii.
Variable backslash : bool.

(** The two outcomes of the find-or-create. *)
Lemma resolve_cluster_cases (suggestion location : string) (db : Store) :
  (exists c,
     cluster.findFirst (name_contains collate backslash suggestion) db = Some c
       /\
     resolve_cluster collate backslash suggestion location db = (db, c)) \/
  (cluster.findFirst (name_contains collate backslash suggestion) db = None /\
   resolve_cluster collate backslash suggestion location db =
     cluster.create suggestion location db).
Proof.
  unfold resolve_cluster.
  destruct (cluster.findFirst (name_contains collate backslash suggestion) db)
    as [c|];
    [left; now exists c | now right].
Qed.

Lemma resolve_cluster_keeps (suggestion location : string) (db db1 : Store)
  (c : Cluster.t) :
  resolve_cluster collate backslash suggestion location db = (db1, c) ->
  problems db1 = problems db /\
  resolvedComments db1 = resolvedComments db /\
  In c (clusters db1) /\
  (forall c', In c' (clusters db) -> In c' (clusters db1)).
Proof.
  destruct (resolve_cluster_cases suggestion location db)
    as [[c0 [Hf ->]] | [Hf ->]].
  - intros [= <- <-]. repeat split; auto.
    apply find_some in Hf. tauto.
  - unfold cluster.create. intros [= <- <-]. simpl. repeat split.
    + apply in_or_app. right. now left.
    + intros c' H. apply in_or_app. now left.
Qed.

Lemma resolve_cluster_invariant (suggestion location : string) (db db1 : Store)
  (c : Cluster.t) :
  resolve_cluster collate backslash suggestion location db = (db1, c) ->
  consistent db /\ cluster_refs_ok db ->
  consistent db1 /\ cluster_refs_ok db1.
Proof.
  destruct (resolve_cluster_cases suggestion location db)
    as [[c0 [Hf ->]] | [Hf ->]].
  - now intros [= <- <-].
  - unfold cluster.create. intros [= <- <-] [Hc Hr]. split.
    + intros c' Hin. simpl in Hin. apply in_app_or in Hin.
      destruct Hin as [Hin | [<- | []]].
      * apply stats_fresh_same_problems with db; auto.
      * unfold stats_fresh, members. simpl.
        rewrite filter_nil; [split; reflexivity|].
        intros p Hp. unfold in_cluster.
        destruct (Problem.cluster_id p) as [cid|] eqn:E; [|reflexivity].
        destruct (Hr p cid Hp E) as [c0 [H1 H2]].
        apply next_id_fresh in H1. apply Z.eqb_neq. lia.
    + intros p cid Hp E. simpl in Hp.
      destruct (Hr p cid Hp E) as [c0 [H1 H2]].
      exists c0. split; [|exact H2]. simpl. apply in_or_app. now left.
Qed.

Lemma problem_create_Some (row : Problem.t) (db db' : Store) :
  problem.create row db = Some db' ->
  problem.findUnique (Problem.id row) db = None /\
  problems db' = problems db ++ [row] /\
  clusters db' = clusters db /\
  resolvedComments db' = resolvedComments db.
Proof.
  unfold problem.create.
  destruct (problem.findUnique (Problem.id row) db); [discriminate|].
  intros [= <-]. simpl. repeat split.
Qed.

(** A submission that is answered with [res.json] went through every step. *)
Lemma post_problem_Json (user : User.t) (body : SubmitBody.t) (uuid : string)
  (now : Z) (db db' : Store) (r : Submitted.t) :
  post_problem collate backslash user body uuid now db = (db', Json r) ->
  exists analysis db1 cluster db2,
    SubmitBody.analysis body = Some analysis /\
    resolve_cluster collate backslash (Analysis.cluster_suggestion analysis)
      (SubmitBody.location body) db = (db1, cluster) /\
    problem.create (new_problem user body analysis uuid now cluster) db1
      = Some db2 /\
    refresh (Cluster.id cluster) db2 = Some db' /\
    r = {| Submitted.id := uuid; Submitted.analysis := analysis |}.
Proof.
  unfold post_problem.
  destruct (negb (authorize ["citizen_admin"] user)); [discriminate|].
  destruct (SubmitBody.analysis body) as [analysis|]; [|discriminate].
  destruct (resolve_cluster collate backslash _ _ db) as [db1 cluster] eqn:E1.
  destruct (problem.create _ db1) as [db2|] eqn:E2; [|discriminate].
  destruct (refresh (Cluster.id cluster) db2) as [db3|] eqn:E3; [|discriminate].
  intros [= <- <-]. now exists analysis, db1, cluster, db2.
Qed.

Lemma find_app_last {A} (f : A -> bool) (l : list A) (x : A) :
  find f l = None -> f x = true -> find f (l ++ [x]) = Some x.
Proof.
  induction l as [|y l IH]; simpl; intros H Hx; [now rewrite Hx|].
  destruct (f y); [discriminate | auto].
Qed.

(** After a submission that went through, the cluster of the new problem
    exists and every row with its id carries the statistics of its members. *)
Lemma post_problem_refreshes (user : User.t) (body : SubmitBody.t)
  (uuid : string) (now : Z) (db db' : Store) (r : Submitted.t) :
  post_problem collate backslash user body uuid now db = (db', Json r) ->
  exists p cid,
    problem.findUnique (Submitted.id r) db' = Some p /\
    Problem.cluster_id p = Some cid /\
    (exists c, In c (clusters db') /\ Cluster.id c = cid) /\
    (forall c, In c (clusters db') -> Cluster.id c = cid -> stats_fresh db' c).
Proof.
  intros H. apply post_problem_Json in H.
  destruct H as [a [db1 [cl [db2 [Ha [Hres [Hcr [Hrf ->]]]]]]]].
  pose proof (resolve_cluster_keeps _ _ _ _ _ Hres) as [_ [_ [Hcl _]]].
  pose proof (problem_create_Some _ _ _ Hcr) as [Hnone [Hps [Hcs _]]].
  pose proof (refresh_Some _ _ _ Hrf) as [Hp' _].
  exists (new_problem user body a uuid now cl), (Cluster.id cl).
  simpl. split; [|split; [reflexivity|split]].
  - unfold problem.findUnique. rewrite Hp', Hps.
    apply find_app_last; [exact Hnone|].
    unfold problem.has_id. simpl. apply String.eqb_refl.
  - assert (Hid : In (Cluster.id cl) (map Cluster.id (clusters db'))).
    { rewrite (refresh_ids _ _ _ Hrf), Hcs. now apply in_map. }
    apply in_map_iff in Hid. destruct Hid as [c [E1 E2]]. now exists c.
  - intros c Hin Hid.
    destruct (refresh_clusters _ _ _ _ Hrf Hin) as [[_ F] | [Hne _]];
      [exact F | contradiction].
Qed.

End SubmissionFacts.

(** ** Histories keep the statistics right *)

Section HistoryFacts.

Variable collate : ascii -> ascii.
Variable backslash : bool.
Variable unique_problem : bool.

Lemma membership_same_problems (db db' : Store) :
  problems db' = problems db -> membership db' = membership db.
Proof. unfold membership. now intros ->. Qed.

Lemma consistent_same (db db' : Store) :
  membership db' = membership db -> clusters db' = clusters db ->
  consistent db -> consistent db'.
Proof.
  intros Hm Hc H c Hin. rewrite Hc in Hin.
  apply stats_fresh_same_membership with db; auto.
Qed.

Lemma problem_update_Some (id : string) (data : Problem.t -> Problem.t)
  (db db' : Store) :
  problem.update id data db = Some db' ->
  problems db' = update_where (problem.has_id id) data (problems db) /\
  clusters db' = clusters db /\
  resolvedComments db' = resolvedComments db.
Proof.
  unfold problem.update.
  destruct (problem.findUnique id db); [|discriminate].
  intros [= <-]. simpl. repeat split.
Qed.

Lemma patch_status_membership (user : User.t) (id status : string) (now : Z)
  (db : Store) :
  membership (fst (patch_status user id status now db)) = membership db /\
  clusters (fst (patch_status user id status now db)) = clusters db /\
  resolvedComments (fst (patch_status user id status now db)) =
    resolvedComments db.
Proof.
  unfold patch_status.
  destruct (negb (authorize ["municipal_admin"] user)); [now simpl|].
  destruct (status =? "Resolved")%string.
  - destruct (problem.update id _ db) as [db'|] eqn:E; [|now simpl].
    apply problem_update_Some in E. destruct E as [Hp [Hc Hr]]. simpl.
    repeat split; auto. unfold membership. rewrite Hp.
    now apply map_update_where.
  - destruct (problem.update id _ db) as [db'|] eqn:E; [|now simpl].
    apply problem_update_Some in E. destruct E as [Hp [Hc Hr]]. simpl.
    repeat split; auto. unfold membership. rewrite Hp.
    now apply map_update_where.
Qed.

Lemma resolvedComment_create_Some (c : ResolvedComment.t) (db db' : Store) :
  resolvedComment.create unique_problem c db = Some db' ->
  problems db' = problems db /\ clusters db' = clusters db /\
  resolvedComments db' = resolvedComments db ++ [c].
Proof.
  unfold resolvedComment.create.
  destruct (existsb _ _); [discriminate|].
  destruct (unique_problem && _); [discriminate|].
  intros [= <-]. simpl. repeat split.
Qed.

Lemma post_comment_keeps (user : User.t) (id rating comment uuid : string)
  (now : Z) (db : Store) :
  problems (fst (post_comment unique_problem user id rating comment uuid now db))
    = problems db /\
  clusters (fst (post_comment unique_problem user id rating comment uuid now db))
    = clusters db.
Proof.
  unfold post_comment.
  destruct (negb (authorize ["citizen_admin"] user)); [now simpl|].
  destruct (problem.findUnique id db) as [p|]; [|now simpl].
  destruct (Problem.resolved_at p) as [r|]; [|now simpl].
  destruct (resolvedComment.create unique_problem _ db) as [db'|] eqn:E;
    [|now simpl].
  apply resolvedComment_create_Some in E. simpl. tauto.
Qed.

Lemma filter_app_one {A} (f : A -> bool) (l : list A) (x : A) :
  f x = false -> filter f (l ++ [x]) = filter f l.
Proof. intros H. rewrite filter_app. simpl. rewrite H. apply app_nil_r. Qed.

Lemma post_problem_invariant (user : User.t) (body : SubmitBody.t)
  (uuid : string) (now : Z) (db : Store) :
  consistent db /\ cluster_refs_ok db ->
  consistent (fst (post_problem collate backslash user body uuid now db)) /\
  cluster_refs_ok (fst (post_problem collate backslash user body uuid now db)).
Proof.
  intros Hinv. unfold post_problem.
  destruct (negb (authorize ["citizen_admin"] user)); [exact Hinv|].
  destruct (SubmitBody.analysis body) as [a|]; [|exact Hinv].
  destruct (resolve_cluster collate backslash _ _ db) as [db1 cl] eqn:E1.
  pose proof (resolve_cluster_invariant _ _ _ _ _ _ _ E1 Hinv) as [Hc1 Hr1].
  pose proof (resolve_cluster_keeps _ _ _ _ _ _ _ E1) as [_ [_ [Hcl _]]].
  destruct (problem.create _ db1) as [db2|] eqn:E2; [|now simpl].
  pose proof (problem_create_Some _ _ _ E2) as [_ [Hps [Hcs _]]].
  destruct (refresh_defined (Cluster.id cl) db2) as [db3 E3].
  { exists cl. rewrite Hcs. now split. }
  rewrite E3. simpl.
  pose proof (refresh_Some _ _ _ E3) as [Hp3 _].
  pose proof (refresh_ids _ _ _ E3) as Hids3.
  split.
  - intros c Hin.
    destruct (refresh_clusters _ _ _ _ E3 Hin) as [[_ F] | [Hne Hold]];
      [exact F|].
    rewrite Hcs in Hold. specialize (Hc1 c Hold).
    unfold stats_fresh, members in *. rewrite Hp3, Hps.
    rewrite filter_app_one; [exact Hc1|].
    unfold in_cluster. simpl. apply Z.eqb_neq. congruence.
  - intros p cid Hp E. rewrite Hp3, Hps in Hp. apply in_app_or in Hp.
    assert (Hex : exists c, In c (clusters db1) /\ Cluster.id c = cid).
    { destruct Hp as [Hp | [<- | []]].
      - eapply Hr1; eauto.
      - simpl in E. injection E as <-. now exists cl. }
    destruct Hex as [c [Hc Hid]].
    assert (Hin : In cid (map Cluster.id (clusters db3))).
    { rewrite Hids3, Hcs, <- Hid. now apply in_map. }
    apply in_map_iff in Hin. destruct Hin as [c' [G1 G2]]. now exists c'.
Qed.

Lemma step_invariant (o : op) (db : Store) :
  consistent db /\ cluster_refs_ok db ->
  consistent (step collate backslash unique_problem o db) /\
  cluster_refs_ok (step collate backslash unique_problem o db).
Proof.
  intros Hinv. destruct o as [[user body uuid | user id status
                             | user id rating comment uuid] now | cid |];
    simpl.
  - now apply post_problem_invariant.
  - destruct (patch_status_membership user id status now db) as [Hm [Hc _]].
    destruct Hinv as [H1 H2]. split.
    + now apply consistent_same with db.
    + apply cluster_refs_ok_same with db; auto. now rewrite Hc.
  - destruct (post_comment_keeps user id rating comment uuid now db)
      as [Hp Hc].
    destruct Hinv as [H1 H2].
    pose proof (membership_same_problems _ _ Hp) as Hm. split.
    + now apply consistent_same with db.
    + apply cluster_refs_ok_same with db; auto. now rewrite Hc.
  - destruct (refresh cid db) as [db'|] eqn:E; [|exact Hinv]. simpl.
    destruct Hinv as [H1 H2]. split.
    + eapply refresh_consistent; eauto.
    + apply cluster_refs_ok_same with db; auto.
      * apply membership_same_problems. now apply refresh_Some in E.
      * eapply refresh_ids; eauto.
  - unfold refresh_all.
    destruct (refresh_each_spec (clusters db) db)
      as [db' [H [Hp [_ [Hids Hcl]]]]].
    { intros c Hc. now exists c. }
    rewrite H. simpl. destruct Hinv as [H1 H2]. split.
    + intros c' Hin. destruct (Hcl c' Hin) as [[_ F] | [Hn _]]; [exact F|].
      exfalso. apply Hn. rewrite <- Hids. now apply in_map.
    + apply cluster_refs_ok_same with db; auto.
      now apply membership_same_problems.
Qed.

Lemma run_invariant (ops : list op) (db : Store) :
  consistent db /\ cluster_refs_ok db ->
  consistent (run collate backslash unique_problem ops db) /\
  cluster_refs_ok (run collate backslash unique_problem ops db).
Proof.
  revert db. induction ops as [|o ops IH]; intros db H; simpl; [exact H|].
  apply IH. now apply step_invariant.
Qed.

Lemma empty_store_invariant :
  consistent empty_store /\ cluster_refs_ok empty_store.
Proof.
  split; [intros c [] | intros p cid []].
Qed.

End HistoryFacts.

(** ** Submissions, forwards *)

Section SubmissionRuns.

Variable collate : ascii -> ascii.
Variable backslash : bool.

Lemma post_problem_success (user : User.t) (body : SubmitBody.t)
  (uuid : string) (now : Z) (db db1 : Store) (a : Analysis.t) (cl : Cluster.t) :
  authorize ["citizen_admin"] user = true ->
  SubmitBody.analysis body = Some a ->
  resolve_cluster collate backslash (Analysis.cluster_suggestion a)
    (SubmitBody.location body) db = (db1, cl) ->
  problem.findUnique uuid db1 = None ->
  post_problem collate backslash user body uuid now db =
    (submitted db1 (new_problem user body a uuid now cl) (Cluster.id cl),
     Json {| Submitted.id := uuid; Submitted.analysis := a |}).
Proof.
  intros Hauth Ha Hres Hfresh. unfold post_problem.
  rewrite Hauth, Ha, Hres. simpl negb. cbv iota.
  unfold problem.create. simpl Problem.id. rewrite Hfresh.
  pose proof (resolve_cluster_keeps _ _ _ _ _ _ _ Hres) as [_ [_ [Hcl _]]].
  unfold refresh, cluster.update. cbn [clusters].
  destruct (find (cluster.has_id (Cluster.id cl)) (clusters db1)) as [c|] eqn:E.
  - reflexivity.
  - exfalso. apply (find_none _ _ E) in Hcl.
    unfold cluster.has_id in Hcl. rewrite Z.eqb_refl in Hcl. discriminate.
Qed.

End SubmissionRuns.

(** ** Claims on clusters *)

(** A citizen's submission that carries an analysis and a fresh id is
    answered with that id. *)
Lemma post_problem_answers (collate : ascii -> ascii) (backslash : bool)
  (user : User.t) (body : SubmitBody.t) (uuid : string) (now : Z) (db : Store)
  (a : Analysis.t) :
  authorize ["citizen_admin"] user = true ->
  SubmitBody.analysis body = Some a ->
  problem.findUnique uuid db = None ->
  exists db1 cl,
    resolve_cluster collate backslash (Analysis.cluster_suggestion a)
      (SubmitBody.location body) db = (db1, cl) /\
    problems db1 = problems db /\
    post_problem collate backslash user body uuid now db =
      (submitted db1 (new_problem user body a uuid now cl) (Cluster.id cl),
       Json {| Submitted.id := uuid; Submitted.analysis := a |}).
Proof.
  intros Hauth Ha Hfresh.
  destruct (resolve_cluster collate backslash (Analysis.cluster_suggestion a)
              (SubmitBody.location body) db) as [db1 cl] eqn:Hres.
  pose proof (resolve_cluster_keeps _ _ _ _ _ _ _ Hres) as [Hp1 _].
  exists db1, cl. split; [reflexivity|]. split; [exact Hp1|].
  apply post_problem_success; auto.
  unfold problem.findUnique. now rewrite Hp1.
Qed.

(** C1.  A citizen's submission that carries an analysis and an id no stored
    problem has is answered with that id; after it, and after any submission
    that is answered with the new id, the cluster assigned to the new problem
    exists, and its stored [problem_count] is the number of problems whose
    [cluster_id] is its id and its stored [avg_sentiment] is the mean of
    their [sentiment_score] (0 over none).  Every history of requests and
    refreshes, from the empty store or from any store where this holds for
    all clusters and every problem's cluster exists, keeps it true of all
    clusters.  A refresh run again on the store it produced returns that same
    store, and the sweep over all clusters makes the statistics right
    whatever was stored before. *)
Theorem cluster_stats_reconciled (collate : ascii -> ascii) (backslash : bool)
  (unique_problem : bool) :
  (forall user body uuid now db a,
     authorize ["citizen_admin"] user = true ->
     SubmitBody.analysis body = Some a ->
     problem.findUnique uuid db = None ->
     exists db' p cid,
       post_problem collate backslash user body uuid now db =
         (db', Json {| Submitted.id := uuid; Submitted.analysis := a |}) /\
       problem.findUnique uuid db' = Some p /\
       Problem.cluster_id p = Some cid /\
       (exists c, In c (clusters db') /\ Cluster.id c = cid) /\
       (forall c, In c (clusters db') -> Cluster.id c = cid ->
                  stats_fresh db' c)) /\
  (forall user body uuid now db db' r,
     post_problem collate backslash user body uuid now db = (db', Json r) ->
     exists p cid,
       problem.findUnique (Submitted.id r) db' = Some p /\
       Problem.cluster_id p = Some cid /\
       (exists c, In c (clusters db') /\ Cluster.id c = cid) /\
       (forall c, In c (clusters db') -> Cluster.id c = cid ->
                  stats_fresh db' c)) /\
  (forall ops db,
     consistent db -> cluster_refs_ok db ->
     consistent (run collate backslash unique_problem ops db)) /\
  (forall ops,
     consistent (run collate backslash unique_problem ops empty_store)) /\
  (forall cid db db1, refresh cid db = Some db1 -> refresh cid db1 = Some db1) /\
  (forall db, exists db',
     refresh_all db = Some db' /\ problems db' = problems db /\
     consistent db').
Proof.
  split; [|split; [|split; [|split; [|split]]]].
  - intros user body uuid now db a Hauth Ha Hfresh.
    destruct (post_problem_answers collate backslash user body uuid now db a
                Hauth Ha Hfresh) as [db1 [cl [_ [_ Hpost]]]].
    destruct (post_problem_refreshes _ _ _ _ _ _ _ _ _ Hpost)
      as [p [cid H]].
    eexists. exists p, cid. split; [exact Hpost | exact H].
  - intros user body uuid now db db' r H.
    eapply post_problem_refreshes; eauto.
  - intros ops db H1 H2.
    now apply (run_invariant collate backslash unique_problem ops db).
  - intros ops.
    apply (run_invariant collate backslash unique_problem ops empty_store).
    apply empty_store_invariant.
  - exact refresh_idempotent.
  - exact refresh_all_consistent.
Qed.

(** A second report joins the cluster of [leakage_store]: the answer carries
    its id, and the one cluster then counts two problems with mean score
    -0.6. *)
Lemma cluster_stats_reconciled_witness :
  exists db',
    post_problem binary false neighbour (report "Main Road" (-4 # 10) "Water")
      "p2" early_2_november leakage_store =
      (db', Json {| Submitted.id := "p2";
                    Submitted.analysis := judgment (-4 # 10) "Water" |}) /\
    map Cluster.problem_count (clusters db') = [2] /\
    Forall (fun c => (Cluster.avg_sentiment c == - (6 # 10))%Q) (clusters db').
Proof.
  destruct (cluster_stats_reconciled binary false false) as [H _].
  destruct (H neighbour (report "Main Road" (-4 # 10) "Water") "p2"
              early_2_november leakage_store (judgment (-4 # 10) "Water")
              eq_refl eq_refl eq_refl) as [db' [p [cid [Hpost _]]]].
  exists db'. split; [exact Hpost|].
  vm_compute in Hpost. injection Hpost as Hdb. subst db'.
  split; [reflexivity|]. repeat constructor.
Defined.

Lemma update_where_none {A} (w : A -> bool) (data : A -> A) (rows : list A) :
  (forall x, In x rows -> w x = false) -> update_where w data rows = rows.
Proof.
  intros H. unfold update_where. rewrite <- (map_id rows) at 2.
  apply map_ext_in. intros x Hx. now rewrite (H x Hx).
Qed.

(** The row that [find] returns, with what comes before it. *)
Lemma find_split {A} (f : A -> bool) (l : list A) (x : A) :
  find f l = Some x ->
  exists before after,
    l = before ++ x :: after /\
    (forall y, In y before -> f y = false) /\ f x = true.
Proof.
  induction l as [|y l IH]; [discriminate|]. cbn [find].
  destruct (f y) eqn:E.
  - intros [= ->]. exists [], l. split; [reflexivity|].
    split; [intros ? [] | exact E].
  - intros H. destruct (IH H) as [before [after [-> [Hb Hx]]]].
    exists (y :: before), after. split; [reflexivity|].
    split; [|exact Hx]. intros z [<- | Hz]; [exact E | now apply Hb].
Qed.

Lemma plain_water (backslash : bool) : plain backslash "Water" = true.
Proof. now destruct backslash. Qed.

Lemma plain_water_leakage (backslash : bool) :
  plain backslash "Water Leakage" = true.
Proof. now destruct backslash. Qed.

(** C9.  The suggestion reaches the database as a pattern.  With only the
    cluster [Water] in the store the suggestion [W_ter] finds it, though
    [W_ter] does not occur in [Water], not even regardless of case; and the
    suggestion [Water%], which contains the name [Water] and more, finds it
    too, so that no cluster is created.  For a suggestion without [%], [_]
    and the escape character the filter is what the claim says: it holds
    exactly when the suggestion occurs in the name (characters compared under
    the collation), a name that occurs in the suggestion without being equal
    to it does not match, and with only [Water] stored the suggestion
    [Water Leakage] creates a second cluster, named [Water Leakage]. *)
Theorem wildcard_suggestion_matches (collate : ascii -> ascii)
  (backslash : bool) :
  (forall location c0 ps rs,
     Cluster.cluster_name c0 = "Water" ->
     resolve_cluster collate backslash "W_ter" location
       {| problems := ps; clusters := [c0]; resolvedComments := rs |} =
     ({| problems := ps; clusters := [c0]; resolvedComments := rs |}, c0)) /\
  ~ occurs_in nocase "W_ter" "Water" /\
  (forall location c0 ps rs,
     Cluster.cluster_name c0 = "Water" ->
     resolve_cluster collate backslash "Water%" location
       {| problems := ps; clusters := [c0]; resolvedComments := rs |} =
     ({| problems := ps; clusters := [c0]; resolvedComments := rs |}, c0)) /\
  occurs_in binary "Water" "Water%" /\
  (forall suggestion c,
     plain backslash suggestion = true ->
     (name_contains collate backslash suggestion c = true <->
      occurs_in collate suggestion (Cluster.cluster_name c))) /\
  (forall suggestion c,
     plain backslash suggestion = true ->
     occurs_in collate (Cluster.cluster_name c) suggestion ->
     fold_string collate (Cluster.cluster_name c) <>
       fold_string collate suggestion ->
     name_contains collate backslash suggestion c = false) /\
  (forall location c0 ps rs,
     Cluster.cluster_name c0 = "Water" ->
     exists c,
       resolve_cluster collate backslash "Water Leakage" location
         {| problems := ps; clusters := [c0]; resolvedComments := rs |} =
       ({| problems := ps; clusters := [c0; c]; resolvedComments := rs |}, c) /\
       Cluster.cluster_name c = "Water Leakage" /\
       Cluster.id c <> Cluster.id c0).
Proof.
  assert (Hiff : forall suggestion c,
            plain backslash suggestion = true ->
            (name_contains collate backslash suggestion c = true <->
             occurs_in collate suggestion (Cluster.cluster_name c))).
  { intros suggestion c Hp. now apply contains_plain_spec. }
  assert (Hone : forall suggestion c,
            plain backslash suggestion = true ->
            occurs_in collate (Cluster.cluster_name c) suggestion ->
            fold_string collate (Cluster.cluster_name c) <>
              fold_string collate suggestion ->
            name_contains collate backslash suggestion c = false).
  { intros suggestion c Hp H1 H2. unfold name_contains.
    rewrite (contains_plain _ _ _ _ Hp). now apply has_substring_one_way. }
  split; [|split; [|split; [|split; [|split; [exact Hiff|split;
    [exact Hone|]]]]]].
  - intros location c0 ps rs Hname.
    unfold resolve_cluster, cluster.findFirst, name_contains.
    cbn [clusters find]. rewrite Hname.
    replace (contains collate backslash "Water" "W_ter") with true;
      [reflexivity|].
    symmetry. unfold contains. cbn [append]. rewrite tokens_percent.
    apply like_Any_here.
    destruct backslash; cbn; now rewrite !Ascii.eqb_refl.
  - intros H. apply has_substring_spec in H. discriminate H.
  - intros location c0 ps rs Hname.
    unfold resolve_cluster, cluster.findFirst, name_contains.
    cbn [clusters find]. rewrite Hname.
    replace (contains collate backslash "Water" "Water%") with true;
      [reflexivity|].
    symmetry. unfold contains. cbn [append]. rewrite tokens_percent.
    apply like_Any_here.
    destruct backslash; cbn; now rewrite !Ascii.eqb_refl.
  - exists ""%string, "%"%string. reflexivity.
  - intros location c0 ps rs Hname.
    assert (Hno : name_contains collate backslash "Water Leakage" c0 = false).
    { apply Hone; [apply plain_water_leakage | |]; rewrite Hname.
      - apply (occurs_in_literal collate "" "Water" " Leakage").
      - intros H. apply (f_equal String.length) in H.
        rewrite !fold_string_length in H. discriminate. }
    unfold resolve_cluster, cluster.findFirst. cbn [clusters find].
    rewrite Hno. unfold cluster.create.
    cbn [clusters problems resolvedComments app].
    eexists. split; [reflexivity|]. split; [reflexivity|].
    cbn [Cluster.id]. unfold cluster.next_id.
    cbn [clusters map fold_right]. lia.
Qed.

(** Under a collation that ignores case the suggestion [water] joins the
    cluster [Water Leakage]; under the binary one it does not. *)
Lemma collation_decides_case :
  contains nocase false "Water Leakage" "water" = true /\
  contains binary false "Water Leakage" "water" = false.
Proof. split; reflexivity. Qed.

(** The store after a report with suggestion [Water Leakage] and then one
    with suggestion [Water], from the empty store. *)
Lemma leakage_then_water_store (collate : ascii -> ascii) (backslash : bool)
  (unique_problem : bool) (loc1 loc2 : string) (s1 s2 : Q)
  (uuid1 uuid2 : string) (now1 now2 : Z) :
  uuid1 <> uuid2 ->
  let c1 := {| Cluster.id := 1; Cluster.cluster_name := "Water Leakage";
               Cluster.area := loc1; Cluster.problem_count := 1;
               Cluster.avg_sentiment := JS.or_zeroQ (avgQ [s1]) |} in
  run collate backslash unique_problem
    [Req (PostProblem citizen (report loc1 s1 "Water Leakage") uuid1) now1;
     Req (PostProblem neighbour (report loc2 s2 "Water") uuid2) now2]
    empty_store =
  {| problems :=
       [new_problem citizen (report loc1 s1 "Water Leakage")
          (judgment s1 "Water Leakage") uuid1 now1 c1;
        new_problem neighbour (report loc2 s2 "Water")
          (judgment s2 "Water") uuid2 now2 c1];
     clusters :=
       [{| Cluster.id := 1; Cluster.cluster_name := "Water Leakage";
           Cluster.area := loc1; Cluster.problem_count := 2;
           Cluster.avg_sentiment := JS.or_zeroQ (avgQ [s1; s2]) |}];
     resolvedComments := [] |}.
Proof.
  intros Hne c1.
  set (p1 := new_problem citizen (report loc1 s1 "Water Leakage")
               (judgment s1 "Water Leakage") uuid1 now1 c1).
  set (db1 := {| problems := [p1]; clusters := [c1]; resolvedComments := [] |}).
  assert (H1 : fst (post_problem collate backslash citizen
                      (report loc1 s1 "Water Leakage") uuid1 now1 empty_store)
               = db1) by reflexivity.
  assert (Hfind : cluster.findFirst (name_contains collate backslash "Water")
                    db1 = Some c1).
  { unfold cluster.findFirst, db1. cbn [clusters find].
    replace (name_contains collate backslash "Water" c1) with true;
      [reflexivity|].
    symmetry. apply (contains_plain_spec _ _ _ _ (plain_water backslash)).
    apply (occurs_in_literal collate "" "Water" " Leakage"). }
  assert (H2 : post_problem collate backslash neighbour
                 (report loc2 s2 "Water") uuid2 now2 db1 =
               (submitted db1
                  (new_problem neighbour (report loc2 s2 "Water")
                     (judgment s2 "Water") uuid2 now2 c1) (Cluster.id c1),
                Json {| Submitted.id := uuid2;
                        Submitted.analysis := judgment s2 "Water" |})).
  { apply post_problem_success; [reflexivity | reflexivity | |].
    - unfold resolve_cluster.
      cbn [report judgment SubmitBody.analysis SubmitBody.location
           Analysis.cluster_suggestion].
      now rewrite Hfind.
    - unfold problem.findUnique, db1. cbn [problems find].
      unfold problem.has_id, p1. cbn [Problem.id new_problem].
      now apply String.eqb_neq in Hne as ->. }
  cbn [run fold_left step]. rewrite H1, H2. reflexivity.
Qed.

(** C4, counterexample.  In [waterworks_store] the cluster [Water Leakage]
    exists, with id 2 and one report, after the cluster [Waterworks], with
    id 1.  A report with suggestion [Water] is answered with its id and filed
    under [Waterworks], the first cluster whose name contains [Water]; the
    cluster [Water Leakage] keeps its count of 1. *)
Lemma earlier_cluster_takes_the_report : ~ joins_water_leakage binary false.
Proof.
  intros H.
  destruct (post_problem binary false neighbour
              (report "Main Road" (-4 # 10) "Water") "p3" early_2_november
              waterworks_store) as [db' rep] eqn:E.
  destruct rep as [r| |]; try (vm_compute in E; discriminate E).
  destruct (H neighbour (report "Main Road" (-4 # 10) "Water") "p3"
              early_2_november waterworks_store db' r
              (judgment (-4 # 10) "Water")
              {| Cluster.id := 2; Cluster.cluster_name := "Water Leakage";
                 Cluster.area := "Kottapeta"; Cluster.problem_count := 1;
                 Cluster.avg_sentiment := - (8 # 10) |})
    as [p [Hp Hc]].
  - vm_compute. right. left. reflexivity.
  - reflexivity.
  - reflexivity.
  - reflexivity.
  - exact E.
  - vm_compute in E. injection E as <- _.
    vm_compute in Hp. injection Hp as <-. discriminate Hc.
Qed.

(** The store that a submission leaves, told by what occurs in the names. *)
Lemma post_problem_joins_or_creates (collate : ascii -> ascii)
  (backslash : bool) (user : User.t) (body : SubmitBody.t) (uuid : string)
  (now : Z) (db : Store) (a : Analysis.t) :
  authorize ["citizen_admin"] user = true ->
  SubmitBody.analysis body = Some a ->
  plain backslash (Analysis.cluster_suggestion a) = true ->
  problem.findUnique uuid db = None ->
  exists db' p,
    post_problem collate backslash user body uuid now db =
      (db', Json {| Submitted.id := uuid; Submitted.analysis := a |}) /\
    problems db' = problems db ++ [p] /\
    Problem.id p = uuid /\
    ((exists before c after,
        clusters db = before ++ c :: after /\
        (forall c0, In c0 before ->
           ~ occurs_in collate (Analysis.cluster_suggestion a)
               (Cluster.cluster_name c0)) /\
        occurs_in collate (Analysis.cluster_suggestion a)
          (Cluster.cluster_name c) /\
        Problem.cluster_id p = Some (Cluster.id c) /\
        map Cluster.id (clusters db') = map Cluster.id (clusters db) /\
        map Cluster.cluster_name (clusters db') =
          map Cluster.cluster_name (clusters db) /\
        map Cluster.area (clusters db') = map Cluster.area (clusters db)) \/
     ((forall c0, In c0 (clusters db) ->
         ~ occurs_in collate (Analysis.cluster_suggestion a)
             (Cluster.cluster_name c0)) /\
      exists c,
        clusters db' = clusters db ++ [c] /\
        Cluster.id c = cluster.next_id db /\
        (forall c0, In c0 (clusters db) -> Cluster.id c0 <> Cluster.id c) /\
        Cluster.cluster_name c = Analysis.cluster_suggestion a /\
        Cluster.area c = SubmitBody.location body /\
        Problem.cluster_id p = Some (Cluster.id c))) /\
    (forall c, In c (clusters db') ->
       Problem.cluster_id p = Some (Cluster.id c) ->
       members db' (Cluster.id c) = members db (Cluster.id c) ++ [p] /\
       stats_fresh db' c).
Proof.
  intros Hauth Ha Hplain Hfresh.
  destruct (post_problem_answers collate backslash user body uuid now db a
              Hauth Ha Hfresh) as [db1 [cl [Hres [Hp1 Hpost]]]].
  set (p := new_problem user body a uuid now cl) in *.
  exists (submitted db1 p (Cluster.id cl)), p.
  split; [exact Hpost|].
  assert (Hps : problems (submitted db1 p (Cluster.id cl)) = problems db ++ [p])
    by (cbn [submitted problems]; now rewrite Hp1).
  split; [exact Hps|]. split; [reflexivity|]. split.
  - unfold resolve_cluster in Hres.
    destruct (cluster.findFirst _ db) as [c|] eqn:E.
    + injection Hres as <- <-. left.
      destruct (find_split _ _ _ E) as [before [after [Hl [Hnone Hc]]]].
      exists before, c, after. split; [exact Hl|].
      split; [|split; [|split; [reflexivity|]]].
      * intros c0 Hc0 Hocc.
        apply (contains_plain_spec collate backslash _ _ Hplain) in Hocc.
        unfold name_contains in Hnone. rewrite (Hnone c0 Hc0) in Hocc.
        discriminate Hocc.
      * now apply (contains_plain_spec collate backslash _ _ Hplain).
      * cbn [submitted clusters].
        split; [|split]; apply map_update_where; reflexivity.
    + unfold cluster.create in Hres. injection Hres as <- <-. right. split.
      * intros c0 Hc0 Hocc.
        apply (contains_plain_spec collate backslash _ _ Hplain) in Hocc.
        apply (find_none _ _ E) in Hc0. unfold name_contains in Hc0.
        rewrite Hc0 in Hocc. discriminate Hocc.
      * eexists. split; [|split; [|split; [|split; [|split]]]].
        -- cbn [submitted clusters Cluster.id]. unfold update_where.
           rewrite map_app. cbn [map]. unfold cluster.has_id at 2.
           cbn [Cluster.id]. rewrite Z.eqb_refl. f_equal.
           apply update_where_none. intros c0 Hc0.
           apply next_id_fresh in Hc0. apply Z.eqb_neq. lia.
        -- reflexivity.
        -- intros c0 Hc0. apply next_id_fresh in Hc0.
           cbn [Cluster.id Cluster.with_stats]. lia.
        -- reflexivity.
        -- reflexivity.
        -- reflexivity.
  - intros c Hin Hcid.
    assert (Hid : Cluster.id c = Cluster.id cl)
      by (cbn [p new_problem Problem.cluster_id] in Hcid; congruence).
    destruct (post_problem_refreshes _ _ _ _ _ _ _ _ _ Hpost)
      as [p' [cid [Hp' [Hcid' [_ Hfr]]]]].
    cbn [Submitted.id] in Hp'.
    assert (Hfind : problem.findUnique uuid (submitted db1 p (Cluster.id cl))
                    = Some p).
    { unfold problem.findUnique. rewrite Hps.
      apply find_app_last; [exact Hfresh|].
      unfold problem.has_id. cbn [p new_problem Problem.id].
      apply String.eqb_refl. }
    assert (p' = p) by congruence. subst p'.
    split.
    + unfold members. rewrite Hps, filter_app. cbn [filter].
      unfold in_cluster at 2. rewrite Hcid, Z.eqb_refl. reflexivity.
    + apply Hfr; [exact Hin | congruence].
Qed.

(** C4, amended.  A citizen's submission with an analysis, an id no stored
    problem has and a suggestion without [%], [_] and the escape character is
    answered with its id and stores one problem.  When some cluster's name
    contains the suggestion, the problem is filed under the first such
    cluster in the order of the table and no cluster is created; when no name
    contains it, one cluster is added, with the next id, the suggestion as
    name and the submitted location as area, and the problem is filed under
    it.  The members of that cluster are then its earlier members and the new
    problem, and its stored count and mean are those of its members.  From
    the empty store, a report with suggestion [Water Leakage] followed by one
    with suggestion [Water] leaves a single cluster [Water Leakage] holding
    both, with count 2 and the average of the two scores as mean
    sentiment. *)
Theorem submission_joins_or_creates (collate : ascii -> ascii)
  (backslash : bool) (unique_problem : bool) :
  (forall user body uuid now db a,
     authorize ["citizen_admin"] user = true ->
     SubmitBody.analysis body = Some a ->
     plain backslash (Analysis.cluster_suggestion a) = true ->
     problem.findUnique uuid db = None ->
     exists db' p,
       post_problem collate backslash user body uuid now db =
         (db', Json {| Submitted.id := uuid; Submitted.analysis := a |}) /\
       problems db' = problems db ++ [p] /\
       Problem.id p = uuid /\
       ((exists before c after,
           clusters db = before ++ c :: after /\
           (forall c0, In c0 before ->
              ~ occurs_in collate (Analysis.cluster_suggestion a)
                  (Cluster.cluster_name c0)) /\
           occurs_in collate (Analysis.cluster_suggestion a)
             (Cluster.cluster_name c) /\
           Problem.cluster_id p = Some (Cluster.id c) /\
           map Cluster.id (clusters db') = map Cluster.id (clusters db) /\
           map Cluster.cluster_name (clusters db') =
             map Cluster.cluster_name (clusters db) /\
           map Cluster.area (clusters db') = map Cluster.area (clusters db)) \/
        ((forall c0, In c0 (clusters db) ->
            ~ occurs_in collate (Analysis.cluster_suggestion a)
                (Cluster.cluster_name c0)) /\
         exists c,
           clusters db' = clusters db ++ [c] /\
           Cluster.id c = cluster.next_id db /\
           (forall c0, In c0 (clusters db) -> Cluster.id c0 <> Cluster.id c) /\
           Cluster.cluster_name c = Analysis.cluster_suggestion a /\
           Cluster.area c = SubmitBody.location body /\
           Problem.cluster_id p = Some (Cluster.id c))) /\
       (forall c, In c (clusters db') ->
          Problem.cluster_id p = Some (Cluster.id c) ->
          members db' (Cluster.id c) = members db (Cluster.id c) ++ [p] /\
          stats_fresh db' c)) /\
  (forall loc1 loc2 s1 s2 uuid1 uuid2 now1 now2,
     uuid1 <> uuid2 ->
     exists c,
       clusters
         (run collate backslash unique_problem
            [Req (PostProblem citizen (report loc1 s1 "Water Leakage") uuid1)
                 now1;
             Req (PostProblem neighbour (report loc2 s2 "Water") uuid2) now2]
            empty_store) = [c] /\
       map Problem.cluster_id
         (problems
            (run collate backslash unique_problem
               [Req (PostProblem citizen (report loc1 s1 "Water Leakage") uuid1)
                    now1;
                Req (PostProblem neighbour (report loc2 s2 "Water") uuid2) now2]
               empty_store)) = [Some (Cluster.id c); Some (Cluster.id c)] /\
       Cluster.cluster_name c = "Water Leakage" /\
       Cluster.area c = loc1 /\
       Cluster.problem_count c = 2 /\
       (Cluster.avg_sentiment c == (s1 + s2) / 2)%Q).
Proof.
  split.
  - apply post_problem_joins_or_creates.
  - intros loc1 loc2 s1 s2 uuid1 uuid2 now1 now2 Hne.
    rewrite (leakage_then_water_store collate backslash unique_problem
               loc1 loc2 s1 s2 uuid1 uuid2 now1 now2 Hne).
    eexists. split; [reflexivity|].
    split; [reflexivity|]. split; [reflexivity|]. split; [reflexivity|].
    split; [reflexivity|].
    cbn [Cluster.avg_sentiment]. rewrite or_zeroQ_avgQ.
    unfold mean. cbn [sumQ List.length].
    change (inject_Z (Z.of_nat 2)) with 2%Q. field.
Qed.

(** In [leakage_store] the one cluster is [Water Leakage]: a report with
    suggestion [Water] is filed under it, and a report with suggestion
    [Lighting] under a new cluster with id 2. *)
Lemma submission_joins_or_creates_witness :
  (exists db' p,
     post_problem binary false neighbour (report "Main Road" (-4 # 10) "Water")
       "p2" early_2_november leakage_store =
       (db', Json {| Submitted.id := "p2";
                     Submitted.analysis := judgment (-4 # 10) "Water" |}) /\
     problems db' = problems leakage_store ++ [p] /\
     Problem.cluster_id p = Some 1 /\
     map (fun c => (Cluster.cluster_name c, Cluster.problem_count c))
       (clusters db') = [("Water Leakage", 2)]) /\
  (exists db' p,
     post_problem binary false neighbour
       (report "Main Road" (-4 # 10) "Lighting") "p2" early_2_november
       leakage_store =
       (db', Json {| Submitted.id := "p2";
                     Submitted.analysis := judgment (-4 # 10) "Lighting" |}) /\
     problems db' = problems leakage_store ++ [p] /\
     Problem.cluster_id p = Some 2 /\
     map (fun c => (Cluster.cluster_name c, Cluster.problem_count c))
       (clusters db') = [("Water Leakage", 1); ("Lighting", 1)]).
Proof.
  destruct (submission_joins_or_creates binary false false) as [H _].
  split.
  - destruct (H neighbour (report "Main Road" (-4 # 10) "Water") "p2"
                early_2_november leakage_store (judgment (-4 # 10) "Water")
                eq_refl eq_refl eq_refl eq_refl)
      as [db' [p [Hpost [Hps _]]]].
    exists db', p. split; [exact Hpost|]. split; [exact Hps|].
    vm_compute in Hpost. injection Hpost as Hdb. subst db'.
    vm_compute in Hps. injection Hps as <-. split; reflexivity.
  - destruct (H neighbour (report "Main Road" (-4 # 10) "Lighting") "p2"
                early_2_november leakage_store
                (judgment (-4 # 10) "Lighting")
                eq_refl eq_refl eq_refl eq_refl)
      as [db' [p [Hpost [Hps _]]]].
    exists db', p. split; [exact Hpost|]. split; [exact Hps|].
    vm_compute in Hpost. injection Hpost as Hdb. subst db'.
    vm_compute in Hps. injection Hps as <-. split; reflexivity.
Defined.

(** ** The trend series *)

Lemma count_cons {A} (f : A -> bool) (x : A) (l : list A) :
  count f (x :: l) = (if f x then 1 else 0) + count f l.
Proof.
  unfold count. simpl. destruct (f x); simpl List.length; lia.
Qed.

Lemma count_filter {A} (f g : A -> bool) (l : list A) :
  count f (filter g l) = count (fun x => g x && f x) l.
Proof.
  induction l as [|x l IH]; [reflexivity|].
  simpl filter. destruct (g x) eqn:E.
  - rewrite !count_cons, IH, E. reflexivity.
  - rewrite count_cons, IH, E. reflexivity.
Qed.

Lemma count_nonneg {A} (f : A -> bool) (l : list A) : 0 <= count f l.
Proof. unfold count. lia. Qed.

Lemma count_pos {A} (f : A -> bool) (l : list A) (x : A) :
  In x l -> f x = true -> 1 <= count f l.
Proof.
  induction l as [|y l IH]; [intros []|].
  intros [-> | H] Hx; rewrite count_cons.
  - rewrite Hx. pose proof (count_nonneg f l). lia.
  - specialize (IH H Hx). destruct (f y); lia.
Qed.

Lemma get_tally (m : dict Z (Z * Z)) (p : Problem.t) (k : Z) :
  get Z.eqb (tally m p) k =
  match get Z.eqb m k with
  | Some c =>
      Some (bump_entry c (if active_on k p then 1 else 0)
                         (if resolved_on k p then 1 else 0))
  | None => None
  end.
Proof.
  unfold tally, active_on, created_on, resolved_on, bump_entry.
  set (cd := isoDate (Problem.created_at p)).
  set (m1 := match get Z.eqb m cd with
             | Some c => if negb (is_resolved p)
                         then set Z.eqb m cd (fst c + 1, snd c) else m
             | None => m
             end).
  assert (H1 : get Z.eqb m1 k =
               match get Z.eqb m k with
               | Some c => Some (fst c + (if (cd =? k) && negb (is_resolved p)
                                          then 1 else 0), snd c)
               | None => None
               end).
  { unfold m1. destruct (get Z.eqb m cd) as [c|] eqn:Ecd.
    - destruct (negb (is_resolved p)).
      + rewrite (get_set _ _ Z.eqb Z.eqb_eq). rewrite (Z.eqb_sym cd k).
        destruct (Z.eqb_spec k cd) as [-> | Hne]; simpl.
        * now rewrite Ecd.
        * destruct (get Z.eqb m k) as [[a r]|]; simpl; [|reflexivity].
          now rewrite Z.add_0_r.
      + rewrite andb_false_r.
        destruct (get Z.eqb m k) as [[a r]|]; simpl; [|reflexivity].
        now rewrite Z.add_0_r.
    - destruct (Z.eqb_spec cd k) as [<- | Hne]; simpl.
      + now rewrite Ecd.
      + destruct (get Z.eqb m k) as [[a r]|]; simpl; [|reflexivity].
        now rewrite Z.add_0_r. }
  destruct (Problem.resolved_at p) as [r|].
  - set (rd := isoDate r).
    destruct (get Z.eqb m1 rd) as [c1|] eqn:Erd.
    + rewrite (get_set _ _ Z.eqb Z.eqb_eq). rewrite (Z.eqb_sym rd k).
      destruct (Z.eqb_spec k rd) as [-> | Hne].
      * rewrite H1 in Erd. destruct (get Z.eqb m rd) as [c|]; [|discriminate].
        injection Erd as <-. reflexivity.
      * rewrite H1. destruct (get Z.eqb m k) as [c|]; [|reflexivity].
        simpl. now rewrite Z.add_0_r.
    + destruct (Z.eqb_spec rd k) as [<- | Hne].
      * rewrite Erd. rewrite H1 in Erd.
        destruct (get Z.eqb m rd); [discriminate | reflexivity].
      * rewrite H1. destruct (get Z.eqb m k) as [c|]; [|reflexivity].
        simpl. now rewrite Z.add_0_r.
  - rewrite H1. destruct (get Z.eqb m k) as [c|]; [|reflexivity].
    simpl. now rewrite Z.add_0_r.
Qed.

Lemma keys_tally (m : dict Z (Z * Z)) (p : Problem.t) :
  keys (tally m p) = keys m.
Proof.
  unfold tally.
  set (cd := isoDate (Problem.created_at p)).
  set (m1 := match get Z.eqb m cd with
             | Some c => if negb (is_resolved p)
                         then set Z.eqb m cd (fst c + 1, snd c) else m
             | None => m
             end).
  assert (H1 : keys m1 = keys m).
  { unfold m1. destruct (get Z.eqb m cd) as [c|] eqn:E; [|reflexivity].
    destruct (negb (is_resolved p)); [|reflexivity].
    apply (keys_set_present _ _ Z.eqb Z.eqb_eq).
    eapply (get_Some_keys _ _ Z.eqb Z.eqb_eq); eauto. }
  destruct (Problem.resolved_at p) as [r|]; [|exact H1].
  destruct (get Z.eqb m1 (isoDate r)) as [c1|] eqn:E; [|exact H1].
  rewrite <- H1. apply (keys_set_present _ _ Z.eqb Z.eqb_eq).
  eapply (get_Some_keys _ _ Z.eqb Z.eqb_eq); eauto.
Qed.

Lemma keys_fold_tally (ps : list Problem.t) (m : dict Z (Z * Z)) :
  keys (fold_left tally ps m) = keys m.
Proof.
  revert m. induction ps as [|p ps IH]; intros m; simpl; [reflexivity|].
  now rewrite IH, keys_tally.
Qed.

Lemma get_fold_tally (ps : list Problem.t) (m : dict Z (Z * Z)) (k : Z) :
  get Z.eqb (fold_left tally ps m) k =
  match get Z.eqb m k with
  | Some c => Some (bump_entry c (count (active_on k) ps)
                                 (count (resolved_on k) ps))
  | None => None
  end.
Proof.
  revert m. induction ps as [|p ps IH]; intros m; simpl.
  - destruct (get Z.eqb m k) as [[a r]|]; [|reflexivity].
    unfold bump_entry, count. simpl. now rewrite !Z.add_0_r.
  - rewrite IH, get_tally.
    destruct (get Z.eqb m k) as [c|]; [|reflexivity].
    rewrite !count_cons. unfold bump_entry. simpl. f_equal. f_equal; lia.
Qed.

Arguments isoDate : simpl never.
Arguments daysAgo : simpl never.
Arguments trendMap_init : simpl never.
Arguments tally : simpl never.

Section TrendFacts.

Variable LocalTZA : Z -> bool -> Z.

Lemma fold_set_get (v0 : Z * Z) (ks : list Z) (m : dict Z (Z * Z)) (k : Z) :
  get Z.eqb (fold_left (fun m k => set Z.eqb m k v0) ks m) k =
  if existsb (Z.eqb k) ks then Some v0 else get Z.eqb m k.
Proof.
  revert m. induction ks as [|k0 ks IH]; intros m; simpl; [reflexivity|].
  rewrite IH, (get_set _ _ Z.eqb Z.eqb_eq).
  destruct (existsb (Z.eqb k) ks); [now rewrite orb_true_r|].
  now rewrite orb_false_r.
Qed.

Lemma fold_set_NoDup (v0 : Z * Z) (ks : list Z) (m : dict Z (Z * Z)) :
  NoDup (keys m) -> NoDup (keys (fold_left (fun m k => set Z.eqb m k v0) ks m)).
Proof.
  revert m. induction ks as [|k0 ks IH]; intros m H; simpl; [exact H|].
  apply IH. now apply (keys_set_NoDup _ _ Z.eqb Z.eqb_eq).
Qed.

Lemma fold_set_In (v0 : Z * Z) (ks : list Z) (m : dict Z (Z * Z)) (k : Z) :
  In k (keys (fold_left (fun m k => set Z.eqb m k v0) ks m)) <->
  In k ks \/ In k (keys m).
Proof.
  revert m. induction ks as [|k0 ks IH]; intros m; simpl; [tauto|].
  rewrite IH, (In_keys_set _ _ Z.eqb Z.eqb_eq). intuition.
Qed.

Lemma trendMap_init_fold (now : Z) :
  trendMap_init LocalTZA now =
  fold_left (fun m k => set Z.eqb m k (0, 0)) (window LocalTZA now) [].
Proof.
  unfold trendMap_init, window.
  generalize (@nil (Z * (Z * Z))). generalize (seq 0 30).
  induction l as [|i l IH]; intros m; simpl; [reflexivity | apply IH].
Qed.

Lemma existsb_eqb_In (k : Z) (ks : list Z) :
  existsb (Z.eqb k) ks = true <-> In k ks.
Proof.
  rewrite existsb_exists. split.
  - intros [x [H1 H2]]. apply Z.eqb_eq in H2. now subst.
  - intros H. exists k. split; [exact H | apply Z.eqb_refl].
Qed.

(** The dictionary after the loop over the problems: the keys are those of the
    window, and each entry counts the rows of the query. *)
Lemma trendMap_entries (now : Z) (ps : list Problem.t) (k : Z) (c : Z * Z) :
  In (k, c) (fold_left tally ps (trendMap_init LocalTZA now)) <->
  In k (window LocalTZA now) /\
  c = (count (active_on k) ps, count (resolved_on k) ps).
Proof.
  set (m := fold_left tally ps (trendMap_init LocalTZA now)).
  assert (Hnd : NoDup (keys m)).
  { unfold m. rewrite keys_fold_tally, trendMap_init_fold.
    apply fold_set_NoDup. constructor. }
  assert (Hget : get Z.eqb m k =
                 if existsb (Z.eqb k) (window LocalTZA now)
                 then Some (count (active_on k) ps, count (resolved_on k) ps)
                 else None).
  { unfold m. rewrite get_fold_tally, trendMap_init_fold, fold_set_get.
    destruct (existsb (Z.eqb k) (window LocalTZA now)); reflexivity. }
  split.
  - intros H. apply (In_get_Some _ _ Z.eqb Z.eqb_eq _ _ _ Hnd) in H.
    rewrite H in Hget.
    destruct (existsb (Z.eqb k) (window LocalTZA now)) eqn:E; [|discriminate].
    apply existsb_eqb_In in E. split; [exact E | congruence].
  - intros [Hk ->]. apply (get_Some_In _ _ Z.eqb Z.eqb_eq).
    rewrite Hget. apply existsb_eqb_In in Hk. now rewrite Hk.
Qed.

Lemma trendMap_keys (now : Z) (ps : list Problem.t) :
  NoDup (keys (fold_left tally ps (trendMap_init LocalTZA now))) /\
  forall k, In k (keys (fold_left tally ps (trendMap_init LocalTZA now))) <->
            In k (window LocalTZA now).
Proof.
  rewrite keys_fold_tally, trendMap_init_fold. split.
  - apply fold_set_NoDup. constructor.
  - intros k. rewrite fold_set_In.
    split; [intros [H | []]; exact H | intros H; now left].
Qed.

(** The series: one entry for each day of the window and no other, each with
    the number of rows of the query created that day and not resolved now, and
    the number of rows of the query resolved that day; no day twice; ascending
    by date. *)
Lemma trends_spec (isMunicipal : bool) (userId now : Z) (db : Store) :
  let ts := trends LocalTZA isMunicipal userId now db in
  let rows := trend_rows LocalTZA isMunicipal userId now db in
  (forall t, In t ts <->
     In (Trend.date t) (window LocalTZA now) /\
     Trend.active t = count (active_on (Trend.date t)) rows /\
     Trend.resolved t = count (resolved_on (Trend.date t)) rows) /\
  NoDup (map Trend.date ts) /\
  Sorted (fun a b => Trend.date a <= Trend.date b) ts.
Proof.
  intros ts rows. unfold ts, trends.
  fold (trend_rows LocalTZA isMunicipal userId now db).
  fold rows.
  set (m := fold_left tally rows (trendMap_init LocalTZA now)).
  set (mk := fun e : Z * (Z * Z) =>
               {| Trend.date := fst e; Trend.active := fst (snd e);
                  Trend.resolved := snd (snd e) |}).
  set (le := fun a b => Trend.date a <=? Trend.date b).
  split; [|split].
  - intros t. rewrite In_sort, in_map_iff. split.
    + intros [[k c] [<- Hin]]. apply trendMap_entries in Hin.
      destruct Hin as [Hk ->].
      cbn [mk Trend.date Trend.active Trend.resolved fst snd]. tauto.
    + intros [Hk [Ha Hr]].
      exists (Trend.date t, (Trend.active t, Trend.resolved t)). split.
      * destruct t; reflexivity.
      * apply trendMap_entries. split; [exact Hk | now rewrite Ha, Hr].
  - apply (Permutation_NoDup (l := map Trend.date (map mk m))).
    + apply Permutation_map. symmetry. apply sort_perm.
    + rewrite map_map. apply (trendMap_keys now rows).
  - assert (Htot : forall a b, le a b = true \/ le b a = true).
    { intros a b. unfold le.
      destruct (Z.leb_spec (Trend.date a) (Trend.date b)); [now left|].
      right. apply Z.leb_le. lia. }
    pose proof (sort_sorted _ le Htot (map mk m)) as S.
    induction S as [|x l Hs IH Hhd]; constructor; [exact IH|].
    destruct Hhd as [|y l' Hxy]; constructor.
    now apply Z.leb_le.
Qed.

End TrendFacts.

Lemma fold_set_keys_fresh (v0 : Z * Z) (ks : list Z) (m : dict Z (Z * Z)) :
  NoDup ks -> (forall k, In k ks -> ~ In k (keys m)) ->
  keys (fold_left (fun m k => set Z.eqb m k v0) ks m) = keys m ++ ks.
Proof.
  revert m. induction ks as [|k0 ks IH]; intros m Hnd Hfresh; simpl.
  - now rewrite app_nil_r.
  - inversion Hnd as [|? ? Hnot Hnd']; subst.
    rewrite IH; [|exact Hnd'|].
    + rewrite (set_absent _ _ Z.eqb Z.eqb_eq) by (apply Hfresh; now left).
      unfold keys. rewrite map_app, <- app_assoc. reflexivity.
    + intros k Hk Hin. apply (In_keys_set _ _ Z.eqb Z.eqb_eq) in Hin.
      destruct Hin as [-> | Hin]; [contradiction|].
      apply (Hfresh k); [now right | exact Hin].
Qed.

(** The dates of the series are the days of the window, sorted, when the loop
    met no day twice. *)
Lemma trend_dates (LocalTZA : Z -> bool -> Z) (isMunicipal : bool)
  (userId now : Z) (db : Store) :
  NoDup (window LocalTZA now) ->
  map Trend.date (trends LocalTZA isMunicipal userId now db) =
  sort Z.leb (window LocalTZA now).
Proof.
  intros Hnd. unfold trends.
  rewrite (sort_map Trend.date _ Z.leb) by reflexivity.
  rewrite map_map. cbn [Trend.date].
  change (map (fun e : Z * (Z * Z) => fst e) ?m) with (keys m).
  rewrite keys_fold_tally, trendMap_init_fold.
  rewrite fold_set_keys_fresh; [reflexivity | exact Hnd | intros k _ []].
Qed.

Lemma descending_from (c : Z) (n s : nat) :
  StronglySorted Z.gt (map (fun i => c - Z.of_nat i) (seq s n)).
Proof.
  revert s. induction n as [|n IH]; intros s; simpl; constructor.
  - apply IH.
  - apply Forall_forall. intros y Hy. apply in_map_iff in Hy.
    destruct Hy as [i [<- Hi]]. apply in_seq in Hi. lia.
Qed.

Lemma descending_NoDup (l : list Z) : StronglySorted Z.gt l -> NoDup l.
Proof.
  induction 1 as [|x l Hs IH Hall]; constructor; [|exact IH].
  intros Hin. rewrite Forall_forall in Hall. specialize (Hall x Hin). lia.
Qed.

(** On a host whose offset from UTC never changes, the window is today and the
    29 days before it. *)
Lemma window_constant_offset (LocalTZA : Z -> bool -> Z) (offset now : Z) :
  (forall t isUTC, LocalTZA t isUTC = offset) ->
  window LocalTZA now = map (fun i => isoDate now - Z.of_nat i) (seq 0 30).
Proof.
  intros H. unfold window. apply map_ext. intros i.
  unfold daysAgo, UTC, LocalTime, isoDate. rewrite !H.
  replace (now + offset - Z.of_nat i * msPerDay - offset)
    with (now + - Z.of_nat i * msPerDay) by ring.
  rewrite Z.div_add by (unfold msPerDay; lia). ring.
Qed.

(** On such a host the series has exactly 30 entries, for the 30 consecutive
    days that end today, in ascending order. *)
Lemma trends_constant_offset (LocalTZA : Z -> bool -> Z) (offset : Z)
  (isMunicipal : bool) (userId now : Z) (db : Store) :
  (forall t isUTC, LocalTZA t isUTC = offset) ->
  map Trend.date (trends LocalTZA isMunicipal userId now db) =
  map (fun i => isoDate now - 29 + Z.of_nat i) (seq 0 30).
Proof.
  intros H.
  pose proof (window_constant_offset LocalTZA offset now H) as Hw.
  pose proof (descending_from (isoDate now) 30 0) as Hd.
  rewrite <- Hw in Hd.
  rewrite trend_dates by now apply descending_NoDup.
  rewrite sort_descending by exact Hd. rewrite Hw.
  cbn [seq map rev app].
  repeat (apply f_equal2; [lia|]). reflexivity.
Qed.

(** The window of that instant on the host in Central European time, whatever
    the store holds: thirty days from 3 October, without 25 October. *)
Lemma trend_dates_after_clock_change (isMunicipal : bool) (userId : Z)
  (db : Store) :
  map Trend.date (trends zone_berlin isMunicipal userId early_2_november db) =
  map (fun i => 20729 + Z.of_nat i) (seq 0 22) ++
  map (fun i => 20752 + Z.of_nat i) (seq 0 8).
Proof.
  assert (Hw : window zone_berlin early_2_november =
               map (fun i => 20759 - Z.of_nat i) (seq 0 8) ++
               map (fun i => 20750 - Z.of_nat i) (seq 0 22))
    by (vm_compute; reflexivity).
  assert (Hnd : NoDup (window zone_berlin early_2_november)).
  { rewrite Hw. vm_compute.
    repeat (constructor;
            [let H := fresh "H" in
             intros H; cbn [In] in H;
             repeat (destruct H as [H | H]; [discriminate H|]); exact H|]).
    constructor. }
  rewrite trend_dates by exact Hnd.
  rewrite Hw. vm_compute. reflexivity.
Qed.

(** C2 (the code departs from the claim).  On a host in Central European time,
    asked at 2026-11-02T00:30:00Z, [GET /api/stats] returns a series of 30
    entries, sorted, all with explicit zero counts over the empty store, but
    the days are not consecutive: the series runs from 2026-10-03 to
    2026-11-02 and has no entry for 2026-10-25.  Asked at
    2026-04-04T23:30:00Z it returns 29 entries, from 2026-03-07 to
    2026-04-04.  The loop steps back in local time ([setDate]) and keys the
    entry by the UTC date ([toISOString]); a change of the offset within the
    30 days moves the local time 01:30 across the UTC midnight, so that a day
    is skipped or met twice. *)
Theorem trends_skip_a_day_after_clock_change :
  (exists s,
     get_stats zone_berlin officer early_2_november empty_store = Json s /\
     List.length (Stats.trends s) = 30%nat /\
     map (fun t => isoDateString (Trend.date t)) (Stats.trends s) =
       ["2026-10-03"; "2026-10-04"; "2026-10-05"; "2026-10-06"; "2026-10-07";
        "2026-10-08"; "2026-10-09"; "2026-10-10"; "2026-10-11"; "2026-10-12";
        "2026-10-13"; "2026-10-14"; "2026-10-15"; "2026-10-16"; "2026-10-17";
        "2026-10-18"; "2026-10-19"; "2026-10-20"; "2026-10-21"; "2026-10-22";
        "2026-10-23"; "2026-10-24"; "2026-10-26"; "2026-10-27"; "2026-10-28";
        "2026-10-29"; "2026-10-30"; "2026-10-31"; "2026-11-01"; "2026-11-02"] /\
     isoDateString (isoDate early_2_november) = "2026-11-02" /\
     ~ In (isoDate early_2_november - 8) (map Trend.date (Stats.trends s)) /\
     Forall (fun t => Trend.active t = 0 /\ Trend.resolved t = 0)
       (Stats.trends s)) /\
  (exists s,
     get_stats zone_berlin officer early_5_april empty_store = Json s /\
     List.length (Stats.trends s) = 29%nat /\
     map (fun t => isoDateString (Trend.date t)) (Stats.trends s) =
       ["2026-03-07"; "2026-03-08"; "2026-03-09"; "2026-03-10"; "2026-03-11";
        "2026-03-12"; "2026-03-13"; "2026-03-14"; "2026-03-15"; "2026-03-16";
        "2026-03-17"; "2026-03-18"; "2026-03-19"; "2026-03-20"; "2026-03-21";
        "2026-03-22"; "2026-03-23"; "2026-03-24"; "2026-03-25"; "2026-03-26";
        "2026-03-27"; "2026-03-28"; "2026-03-29"; "2026-03-30"; "2026-03-31";
        "2026-04-01"; "2026-04-02"; "2026-04-03"; "2026-04-04"] /\
     isoDateString (isoDate early_5_april) = "2026-04-04").
Proof.
  split.
  - eexists. split; [vm_compute; reflexivity|].
    cbn [Stats.trends].
    split; [vm_compute; reflexivity|].
    split; [vm_compute; reflexivity|].
    split; [vm_compute; reflexivity|].
    split.
    + vm_compute. intros H.
      repeat (destruct H as [H | H]; [discriminate H|]). exact H.
    + vm_compute. repeat (constructor; [split; reflexivity|]). constructor.
  - eexists. split; [vm_compute; reflexivity|].
    cbn [Stats.trends].
    split; [vm_compute; reflexivity|].
    split; vm_compute; reflexivity.
Qed.

(** ** [GET /api/stats], field by field *)

Lemma get_stats_Json (LocalTZA : Z -> bool -> Z) (user : User.t) (now : Z)
  (db : Store) (s : Stats.t) :
  get_stats LocalTZA user now db = Json s ->
  Stats.totalProblems s = count (in_scope user) (problems db) /\
  Stats.activeProblems s =
    count (fun p => in_scope user p && negb (is_resolved p)) (problems db) /\
  Stats.resolvedProblems s =
    count (fun p => in_scope user p && is_resolved p) (problems db) /\
  Stats.urgentAlerts s =
    count (fun p => in_scope user p && Problem.is_urgent p
                    && negb (is_resolved p)) (problems db) /\
  Stats.avgSentiment s =
    JS.or_zeroQ (avgQ (map Problem.sentiment_score (problems db))) /\
  Stats.activeClusters s = Z.of_nat (List.length (clusters db)) /\
  Stats.trends s =
    trends LocalTZA (User.role user =? "municipal_admin")%string
      (User.id user) now db /\
  exists raw,
    resolvedComment.findMany_with_category db = Some raw /\
    Stats.resolutionTimes s = resolutionTimes_hours (resolutionTimesMap raw).
Proof.
  unfold get_stats, in_scope.
  destruct (resolvedComment.findMany_with_category db) as [raw|].
  - assert (Hall : forall l : list Problem.t, filter (fun _ => true) l = l).
    { induction l; simpl; congruence. }
    destruct (User.role user =? "municipal_admin")%string;
      intros [= <-]; cbn [Stats.totalProblems Stats.activeProblems
        Stats.resolvedProblems Stats.urgentAlerts Stats.avgSentiment
        Stats.activeClusters Stats.trends Stats.resolutionTimes orb];
      unfold problem.count, problem.aggregate_avg_sentiment_score,
        cluster.count; rewrite Hall;
      (repeat split; try reflexivity); exists raw; split; reflexivity.
  - destruct (User.role user =? "municipal_admin")%string; discriminate.
Qed.

(** ** Claims on trends *)

(** C3, counterexample.  On a host in UTC, the report of [old_report_store]
    was resolved the day before the query, a day of the window, and the entry
    of that day has [resolved = 0]. *)
Lemma old_report_not_counted : ~ resolved_counts_any_age zone_utc.
Proof.
  intros H.
  specialize (H officer early_2_november old_report_store).
  destruct (get_stats zone_utc officer early_2_november old_report_store)
    as [s| |] eqn:E; try (vm_compute in E; discriminate E).
  specialize (H s {| Trend.date := isoDate early_2_november - 1;
                     Trend.active := 0; Trend.resolved := 0 |} eq_refl).
  vm_compute in E. injection E as <-.
  cbn [Stats.trends] in H.
  assert (Hc : 0 = 1); [|discriminate Hc].
  apply H. vm_compute. do 28 right. left. reflexivity.
Qed.

(** C3, amended.  An entry's [resolved] counts the reports in scope that were
    created on or after [thirtyDaysAgo] and resolved that day, whatever their
    status and whether or not their creation day is in the window; such a
    report, resolved on a day of the window, is counted in that day's entry.
    A report created before [thirtyDaysAgo] is not a row of the query and
    changes no entry. *)
Theorem resolved_tally_of_recent_reports (LocalTZA : Z -> bool -> Z)
  (user : User.t) (now : Z) (db : Store) (s : Stats.t) :
  get_stats LocalTZA user now db = Json s ->
  (forall t, In t (Stats.trends s) ->
     Trend.resolved t =
     count (fun p => (daysAgo LocalTZA now 30 <=? Problem.created_at p)
                     && in_scope user p && resolved_on (Trend.date t) p)
       (problems db)) /\
  (forall p r,
     In p (problems db) -> in_scope user p = true ->
     daysAgo LocalTZA now 30 <= Problem.created_at p ->
     Problem.resolved_at p = Some r ->
     In (isoDate r) (window LocalTZA now) ->
     exists t, In t (Stats.trends s) /\ Trend.date t = isoDate r /\
               1 <= Trend.resolved t) /\
  (forall p,
     Problem.created_at p < daysAgo LocalTZA now 30 ->
     trends LocalTZA (User.role user =? "municipal_admin")%string
       (User.id user) now
       {| problems := problems db ++ [p]; clusters := clusters db;
          resolvedComments := resolvedComments db |} = Stats.trends s).
Proof.
  intros H. apply get_stats_Json in H.
  destruct H as [_ [_ [_ [_ [_ [_ [Ht _]]]]]]]. rewrite Ht.
  set (isM := (User.role user =? "municipal_admin")%string).
  pose proof (trends_spec LocalTZA isM (User.id user) now db) as [Hspec _].
  assert (Hcount : forall k,
            count (resolved_on k) (trend_rows LocalTZA isM (User.id user) now db)
            = count (fun p => (daysAgo LocalTZA now 30 <=? Problem.created_at p)
                              && in_scope user p && resolved_on k p)
                (problems db)).
  { intros k. unfold trend_rows, problem.findMany. rewrite count_filter.
    reflexivity. }
  split; [|split].
  - intros t Hin. apply Hspec in Hin. destruct Hin as [_ [_ Hr]].
    now rewrite Hr, Hcount.
  - intros p r Hp Hscope Hrecent Hres Hwin.
    exists {| Trend.date := isoDate r;
              Trend.active :=
                count (active_on (isoDate r))
                  (trend_rows LocalTZA isM (User.id user) now db);
              Trend.resolved :=
                count (resolved_on (isoDate r))
                  (trend_rows LocalTZA isM (User.id user) now db) |}.
    split; [apply Hspec; cbn [Trend.date Trend.active Trend.resolved]; tauto|].
    split; [reflexivity|]. cbn [Trend.resolved]. rewrite Hcount.
    apply count_pos with p; [exact Hp|].
    unfold in_scope in Hscope. fold isM in Hscope.
    unfold in_scope. fold isM. rewrite Hscope.
    unfold resolved_on. rewrite Hres, Z.eqb_refl.
    apply Z.leb_le in Hrecent. now rewrite Hrecent.
  - intros p Hold. unfold trends, problem.findMany. cbn [problems].
    rewrite filter_app. cbn [filter]. unfold trend_scope at 2.
    apply Z.leb_gt in Hold. rewrite Hold. cbn [andb]. now rewrite app_nil_r.
Qed.

Lemma resolved_tally_of_recent_reports_witness :
  exists s t,
    get_stats zone_utc officer early_2_november recent_report_store = Json s /\
    In t (Stats.trends s) /\
    Trend.date t = isoDate (early_2_november - msPerDay) /\
    1 <= Trend.resolved t.
Proof.
  destruct (get_stats zone_utc officer early_2_november recent_report_store)
    as [s| |] eqn:E; try (vm_compute in E; discriminate E).
  destruct (resolved_tally_of_recent_reports zone_utc officer
              early_2_november recent_report_store s E) as [_ [H _]].
  destruct (H (Problem.with_status "Resolved"
                 (Some (early_2_november - msPerDay))
                 (new_problem citizen (report "Kottapeta" (-8 # 10) "Water")
                    (judgment (-8 # 10) "Water") "p1"
                    (early_2_november - 5 * msPerDay)
                    {| Cluster.id := 1; Cluster.cluster_name := "Water";
                       Cluster.area := "Kottapeta";
                       Cluster.problem_count := 0;
                       Cluster.avg_sentiment := 0%Q |}))
              (early_2_november - msPerDay))
    as [t [H1 [H2 H3]]].
  - vm_compute. left. reflexivity.
  - reflexivity.
  - vm_compute. discriminate.
  - reflexivity.
  - vm_compute. right. left. reflexivity.
  - exists s, t. repeat split; assumption.
Defined.

(** ** Claims on the counts and the resolution times *)

Lemma count_ext {A} (f g : A -> bool) (l : list A) :
  (forall x, f x = g x) -> count f l = count g l.
Proof. intros H. unfold count. now rewrite (filter_ext f g H). Qed.

(** C10.  For a caller who is not municipal, [totalProblems],
    [activeProblems], [resolvedProblems] and [urgentAlerts] count the caller's
    own problems, while [avgSentiment] is the mean [sentiment_score] of all
    problems of all users (0 over none): every caller, whatever the role or
    the time, is given the same average. *)
Theorem citizen_counts_own_mean_global (LocalTZA : Z -> bool -> Z)
  (user : User.t) (now : Z) (db : Store) (s : Stats.t) :
  User.role user <> "municipal_admin" ->
  get_stats LocalTZA user now db = Json s ->
  Stats.totalProblems s = count (of_user (User.id user)) (problems db) /\
  Stats.activeProblems s =
    count (fun p => of_user (User.id user) p && negb (is_resolved p))
      (problems db) /\
  Stats.resolvedProblems s =
    count (fun p => of_user (User.id user) p && is_resolved p) (problems db) /\
  Stats.urgentAlerts s =
    count (fun p => of_user (User.id user) p && Problem.is_urgent p
                    && negb (is_resolved p)) (problems db) /\
  (Stats.avgSentiment s == mean (map Problem.sentiment_score (problems db)))%Q /\
  (forall other now' s',
     get_stats LocalTZA other now' db = Json s' ->
     Stats.avgSentiment s' = Stats.avgSentiment s).
Proof.
  intros Hrole H. apply get_stats_Json in H.
  destruct H as [H1 [H2 [H3 [H4 [H5 _]]]]].
  apply String.eqb_neq in Hrole.
  assert (Hs : forall p, in_scope user p = of_user (User.id user) p).
  { intros p. unfold in_scope. now rewrite Hrole. }
  rewrite H1, H2, H3, H4, H5.
  repeat split.
  - now apply count_ext.
  - apply count_ext. intros p. now rewrite Hs.
  - apply count_ext. intros p. now rewrite Hs.
  - apply count_ext. intros p. now rewrite Hs.
  - apply or_zeroQ_avgQ.
  - intros other now' s' H'. apply get_stats_Json in H'.
    destruct H' as [_ [_ [_ [_ [H5' _]]]]]. now rewrite H5'.
Qed.

Lemma citizen_counts_own_mean_global_witness :
  exists s,
    get_stats zone_utc citizen early_2_november two_reports_store = Json s /\
    Stats.totalProblems s = 1 /\
    (Stats.avgSentiment s == -6 # 10)%Q.
Proof.
  destruct (get_stats zone_utc citizen early_2_november two_reports_store)
    as [s| |] eqn:E; try (vm_compute in E; discriminate E).
  destruct (citizen_counts_own_mean_global zone_utc citizen early_2_november
              two_reports_store s) as [H1 [_ [_ [_ [H5 _]]]]].
  - discriminate.
  - exact E.
  - exists s. split; [reflexivity|]. split.
    + rewrite H1. reflexivity.
    + rewrite H5. reflexivity.
Defined.

Lemma include_category_spec (db : Store) (cs : list ResolvedComment.t) :
  (forall c, In c cs ->
     exists p, problem.findUnique (ResolvedComment.problem_id c) db = Some p) ->
  exists raw,
    resolvedComment.include_category db cs = Some raw /\
    map fst raw = cs /\
    forall e, In e raw -> comment_category db (fst e) = Some (snd e).
Proof.
  induction cs as [|c cs IH]; intros H; simpl.
  - exists []. repeat split. intros e [].
  - destruct (H c (or_introl eq_refl)) as [p Hp].
    destruct IH as [raw [H1 [H2 H3]]].
    { intros c0 Hc0. apply H. now right. }
    rewrite Hp, H1. exists ((c, Problem.category p) :: raw).
    split; [reflexivity|]. split; [simpl; now rewrite H2|].
    intros e [<- | He]; [|now apply H3].
    unfold comment_category. simpl. now rewrite Hp.
Qed.

Lemma findMany_with_category_spec (db : Store) :
  comments_ok db ->
  exists raw,
    resolvedComment.findMany_with_category db = Some raw /\
    map fst raw = resolvedComments db /\
    forall e, In e raw -> comment_category db (fst e) = Some (snd e).
Proof. intros H. now apply include_category_spec. Qed.

Lemma raw_of_category (db : Store) (raw : list (ResolvedComment.t * string))
  (k : string) :
  (forall e, In e raw -> comment_category db (fst e) = Some (snd e)) ->
  map fst (filter (fun e => (snd e =? k)%string) raw) =
  filter (fun c => match comment_category db c with
                   | Some k' => (k' =? k)%string
                   | None => false
                   end) (map fst raw).
Proof.
  induction raw as [|e raw IH]; intros H; simpl; [reflexivity|].
  rewrite (H e (or_introl eq_refl)).
  destruct (snd e =? k)%string; simpl; rewrite IH; auto;
    intros e0 He0; apply H; now right.
Qed.

Lemma fold_totals (l : list (ResolvedComment.t * string)) (d : Z * Z) :
  fold_left
    (fun d c => (fst d + JS.or_zero (ResolvedComment.time_taken (fst c)),
                 snd d + 1)) l d =
  (fst d + sumZ (map seconds (map fst l)), snd d + Z.of_nat (List.length l)).
Proof.
  revert d. induction l as [|c l IH]; intros [t n].
  - simpl. now rewrite !Z.add_0_r.
  - cbn [fold_left]. rewrite IH. cbn [fst snd map sumZ List.length].
    unfold seconds. f_equal; lia.
Qed.

(** An entry of [resolutionTimesMap]: a category with at least one comment,
    the total of their seconds and their number. *)
Lemma resolutionTimesMap_entries (db : Store)
  (raw : list (ResolvedComment.t * string)) (k : string) (d : Z * Z) :
  map fst raw = resolvedComments db ->
  (forall e, In e raw -> comment_category db (fst e) = Some (snd e)) ->
  In (k, d) (resolutionTimesMap raw) ->
  comments_in db k <> [] /\
  d = (sumZ (map seconds (comments_in db k)),
       Z.of_nat (List.length (comments_in db k))).
Proof.
  intros Hraw Hcat Hin. unfold resolutionTimesMap in Hin.
  apply accumulate_In in Hin. destruct Hin as [Hne ->].
  rewrite fold_totals. cbn [fst snd]. rewrite !Z.add_0_l.
  assert (E : map fst (filter (fun e => (snd e =? k)%string) raw) =
              comments_in db k).
  { unfold comments_in. rewrite <- Hraw. now apply raw_of_category. }
  rewrite <- E. split.
  - intros H0. apply Hne. now apply map_eq_nil in H0.
  - now rewrite length_map.
Qed.

(** Comments are only written for problems that exist, and problems stay. *)
Lemma find_has_id_update (id id' : string) (data : Problem.t -> Problem.t)
  (ps : list Problem.t) :
  (forall p, Problem.id (data p) = Problem.id p) ->
  (exists p, find (problem.has_id id') ps = Some p) ->
  exists p, find (problem.has_id id')
              (update_where (problem.has_id id) data ps) = Some p.
Proof.
  intros Hid. induction ps as [|p ps IH]; [intros [? [=]]|].
  intros H. unfold update_where in *. cbn [map find] in *.
  assert (Hd : problem.has_id id' (if problem.has_id id p then data p else p)
               = problem.has_id id' p).
  { destruct (problem.has_id id p); [|reflexivity].
    unfold problem.has_id. now rewrite Hid. }
  rewrite Hd. destruct (problem.has_id id' p); [eauto | now apply IH].
Qed.

Lemma find_app_Some {A} (f : A -> bool) (l l' : list A) :
  (exists x, find f l = Some x) -> exists x, find f (l ++ l') = Some x.
Proof.
  induction l as [|y l IH]; simpl; [intros [? [=]]|].
  destruct (f y); [eauto | exact IH].
Qed.

Lemma comments_ok_grow (db db' : Store) :
  (forall id, (exists p, problem.findUnique id db = Some p) ->
              exists p, problem.findUnique id db' = Some p) ->
  (forall c, In c (resolvedComments db') ->
     In c (resolvedComments db) \/
     exists p, problem.findUnique (ResolvedComment.problem_id c) db' = Some p) ->
  comments_ok db -> comments_ok db'.
Proof.
  intros Hp Hc Hok c Hin. destruct (Hc c Hin) as [Hold | Hnew]; [|exact Hnew].
  apply Hp. now apply Hok.
Qed.

Lemma step_comments_ok (collate : ascii -> ascii) (backslash : bool)
  (unique_problem : bool)
  (o : op) (db : Store) :
  comments_ok db -> comments_ok (step collate backslash unique_problem o db).
Proof.
  intros Hok.
  destruct o as [[user body uuid | user id status
                 | user id rating comment uuid] now | cid |]; simpl.
  - unfold post_problem.
    destruct (negb (authorize ["citizen_admin"] user)); [exact Hok|].
    destruct (SubmitBody.analysis body) as [a|]; [|exact Hok].
    destruct (resolve_cluster collate backslash _ _ db) as [db1 cl] eqn:E1.
    pose proof (resolve_cluster_keeps _ _ _ _ _ _ _ E1) as [Hp1 [Hr1 _]].
    assert (Hok1 : comments_ok db1).
    { apply comments_ok_grow with db; [| |exact Hok].
      - intros i. unfold problem.findUnique. now rewrite Hp1.
      - intros c Hc. left. now rewrite <- Hr1. }
    destruct (problem.create _ db1) as [db2|] eqn:E2; [|exact Hok1].
    pose proof (problem_create_Some _ _ _ E2) as [_ [Hp2 [_ Hr2]]].
    assert (Hok2 : comments_ok db2).
    { apply comments_ok_grow with db1; [| |exact Hok1].
      - intros i. unfold problem.findUnique. rewrite Hp2.
        apply find_app_Some.
      - intros c Hc. left. now rewrite <- Hr2. }
    destruct (refresh (Cluster.id cl) db2) as [db3|] eqn:E3; [|exact Hok2].
    pose proof (refresh_Some _ _ _ E3) as [Hp3 [Hr3 _]]. simpl.
    apply comments_ok_grow with db2; [| |exact Hok2].
    + intros i. unfold problem.findUnique. now rewrite Hp3.
    + intros c Hc. left. now rewrite <- Hr3.
  - unfold patch_status.
    destruct (negb (authorize ["municipal_admin"] user)); [exact Hok|].
    destruct (status =? "Resolved")%string;
      (destruct (problem.update id _ db) as [db'|] eqn:E; [|exact Hok]);
      apply problem_update_Some in E; destruct E as [Hp [_ Hr]]; simpl;
      (apply comments_ok_grow with db; [| |exact Hok]);
      try (intros c Hc; left; now rewrite <- Hr);
      intros i; unfold problem.findUnique; rewrite Hp;
      now apply find_has_id_update.
  - unfold post_comment.
    destruct (negb (authorize ["citizen_admin"] user)); [exact Hok|].
    destruct (problem.findUnique id db) as [p|] eqn:Ep; [|exact Hok].
    destruct (Problem.resolved_at p) as [r|]; [|exact Hok].
    destruct (resolvedComment.create unique_problem _ db) as [db'|] eqn:E;
      [|exact Hok].
    apply resolvedComment_create_Some in E. destruct E as [Hp [_ Hr]]. simpl.
    apply comments_ok_grow with db; [| |exact Hok].
    + intros i. unfold problem.findUnique. now rewrite Hp.
    + intros c Hc. rewrite Hr in Hc. apply in_app_or in Hc.
      destruct Hc as [Hc | [<- | []]]; [now left|].
      right. exists p. unfold problem.findUnique. rewrite Hp. exact Ep.
  - destruct (refresh cid db) as [db'|] eqn:E; [|exact Hok]. simpl.
    pose proof (refresh_Some _ _ _ E) as [Hp [Hr _]].
    apply comments_ok_grow with db; [| |exact Hok].
    + intros i. unfold problem.findUnique. now rewrite Hp.
    + intros c Hc. left. now rewrite <- Hr.
  - unfold refresh_all.
    destruct (refresh_each_spec (clusters db) db) as [db' [H [Hp [Hr _]]]].
    { intros c Hc. now exists c. }
    rewrite H. simpl.
    apply comments_ok_grow with db; [| |exact Hok].
    + intros i. unfold problem.findUnique. now rewrite Hp.
    + intros c Hc. left. now rewrite <- Hr.
Qed.

(** Every store that a history builds from the empty store has it. *)
Lemma run_comments_ok (collate : ascii -> ascii) (backslash : bool)
  (unique_problem : bool)
  (ops : list op) (db : Store) :
  comments_ok db -> comments_ok (run collate backslash unique_problem ops db).
Proof.
  revert db. induction ops as [|o ops IH]; intros db H; simpl; [exact H|].
  apply IH. now apply step_comments_ok.
Qed.

Lemma empty_comments_ok : comments_ok empty_store.
Proof. intros c []. Qed.

(** C8, counterexample.  Over [rated_store], whose one comment has
    [time_taken = 7200], [/api/stats] lists [Water] with [avg_time = 2] and
    [/api/reports/strategic] lists it with [avg_time = 7200]. *)
Lemma resolution_times_differ : ~ resolution_times_agree zone_utc.
Proof.
  intros H.
  specialize (H officer early_2_november Threw rated_store).
  destruct (get_stats zone_utc officer early_2_november rated_store)
    as [s| |] eqn:Es; try (vm_compute in Es; discriminate Es).
  destruct (get_strategic Threw rated_store)
    as [r| |] eqn:Er; try (vm_compute in Er; discriminate Er).
  specialize (H s r eq_refl eq_refl).
  vm_compute in Es. injection Es as <-.
  vm_compute in Er. injection Er as <-.
  cbn [Stats.resolutionTimes StrategicReport.resolutionTimes] in H.
  inversion H as [|a b l l' [_ Hq] _]; subst.
  vm_compute in Hq. discriminate Hq.
Qed.

(** C8, amended.  The two listings have the same categories in the same
    order.  [/api/reports/strategic] gives the mean [time_taken] of the
    category's comments in seconds, [/api/stats] gives that mean in hours,
    rounded to the nearest integer: the [avg_time] of [/api/stats] is
    [Math.round] of the [avg_time] of [/api/reports/strategic] divided by
    3600. *)
Theorem resolution_times_hours_of_seconds (LocalTZA : Z -> bool -> Z)
  (user : User.t) (now : Z) (oracle : narrative) (db : Store) :
  comments_ok db ->
  exists s r,
    get_stats LocalTZA user now db = Json s /\
    get_strategic oracle db = Json r /\
    Forall2
      (fun a b =>
         ResolutionTime.category a = ResolutionTime.category b /\
         ResolutionTime.avg_time a =
           inject_Z (JS.round (ResolutionTime.avg_time b / inject_Z 3600)))
      (Stats.resolutionTimes s) (StrategicReport.resolutionTimes r) /\
    forall b, In b (StrategicReport.resolutionTimes r) ->
      comments_in db (ResolutionTime.category b) <> [] /\
      ResolutionTime.avg_time b =
        JS.div (sumZ (map seconds (comments_in db (ResolutionTime.category b))))
          (Z.of_nat (List.length (comments_in db (ResolutionTime.category b)))).
Proof.
  intros Hok.
  destruct (findMany_with_category_spec db Hok) as [raw [Hraw [Hfst Hcat]]].
  unfold get_stats, get_strategic. rewrite Hraw.
  destruct (User.role user =? "municipal_admin")%string;
    (eexists; eexists; split; [reflexivity|]; split; [reflexivity|];
     cbn [Stats.resolutionTimes StrategicReport.resolutionTimes]; split;
     [ unfold resolutionTimes_hours, resolutionTimes_raw;
       induction (resolutionTimesMap raw) as [|e m IH]; simpl; constructor;
       [split; reflexivity | exact IH]
     | intros b Hb; unfold resolutionTimes_raw in Hb;
       apply in_map_iff in Hb; destruct Hb as [[k d] [<- Hin]];
       cbn [ResolutionTime.category ResolutionTime.avg_time fst snd];
       destruct (resolutionTimesMap_entries db raw k d Hfst Hcat Hin)
         as [Hne ->];
       split; [exact Hne | reflexivity] ]).
Qed.

Lemma resolution_times_hours_of_seconds_witness :
  exists s r,
    get_stats zone_utc officer early_2_november rated_store = Json s /\
    get_strategic Threw rated_store = Json r /\
    map ResolutionTime.avg_time (Stats.resolutionTimes s) = [2%Q] /\
    map ResolutionTime.avg_time (StrategicReport.resolutionTimes r)
      = [7200 # 1].
Proof.
  destruct (resolution_times_hours_of_seconds zone_utc officer
              early_2_november Threw rated_store) as [s [r [Hs [Hr _]]]].
  - apply run_comments_ok, empty_comments_ok.
  - exists s, r. split; [exact Hs|]. split; [exact Hr|].
    vm_compute in Hs. injection Hs as <-.
    vm_compute in Hr. injection Hr as <-.
    split; reflexivity.
Defined.

(** ** The strategic report *)

Lemma In_firstn {A} (k : nat) (l : list A) (x : A) :
  In x (firstn k l) -> In x l.
Proof.
  intros H. rewrite <- (firstn_skipn k l). apply in_or_app. now left.
Qed.

Section Ranking.

Variable A : Type.
Variable le : A -> A -> bool.
Hypothesis le_total : forall a b, le a b = true \/ le b a = true.
Hypothesis le_trans :
  forall a b c, le a b = true -> le b c = true -> le a c = true.

Lemma sort_strongly_sorted (l : list A) :
  StronglySorted (fun a b => le a b = true) (sort le l).
Proof.
  apply Sorted_StronglySorted; [|now apply sort_sorted].
  intros a b c. apply le_trans.
Qed.

Lemma firstn_before_skipn (R : A -> A -> Prop) (l : list A) :
  StronglySorted R l ->
  forall k x y, In x (firstn k l) -> In y (skipn k l) -> R x y.
Proof.
  induction 1 as [|a l Hs IH Hall]; intros k x y Hx Hy.
  - destruct k; destruct Hx.
  - destruct k as [|k]; [destruct Hx|]. simpl in Hx, Hy.
    destruct Hx as [<- | Hx].
    + rewrite Forall_forall in Hall. apply Hall.
      rewrite <- (firstn_skipn k l). apply in_or_app. now right.
    + eapply IH; eauto.
Qed.

(** The first [k] of the sorted list rank before everything left out. *)
Lemma firstn_sort_top (k : nat) (l : list A) (x y : A) :
  In x (firstn k (sort le l)) -> In y l -> ~ In y (firstn k (sort le l)) ->
  le x y = true.
Proof.
  intros Hx Hy Hn.
  apply (firstn_before_skipn _ (sort le l) (sort_strongly_sorted l) k x y Hx).
  apply (In_sort _ le) in Hy. rewrite <- (firstn_skipn k (sort le l)) in Hy.
  apply in_app_or in Hy. tauto.
Qed.

End Ranking.

Lemma fold_increment {A} (l : list A) (n : Z) :
  fold_left (fun v (_ : A) => v + 1) l n = n + Z.of_nat (List.length l).
Proof.
  revert n. induction l as [|x l IH]; intros n; simpl List.length.
  - simpl. lia.
  - cbn [fold_left]. rewrite IH. lia.
Qed.

Lemma fold_snoc {A B} (f : A -> B) (l : list A) (acc : list B) :
  fold_left (fun v x => v ++ [f x]) l acc = acc ++ map f l.
Proof.
  revert acc. induction l as [|x l IH]; intros acc; simpl.
  - now rewrite app_nil_r.
  - rewrite IH, <- app_assoc. reflexivity.
Qed.

(** The groups by category: the categories that occur, each with the number
    of its problems. *)
Lemma category_groups (ps : list Problem.t) (k : string) (n : Z) :
  In (k, n) (groupBy Problem.category 0 (fun _ n => n + 1) ps) <->
  1 <= n /\ n = count (in_category k) ps.
Proof.
  unfold groupBy. rewrite accumulate_In, fold_increment.
  fold (in_category k). unfold count.
  destruct (filter (in_category k) ps) as [|p l]; simpl List.length.
  - split; [intros [H _]; now contradiction H | intros [H ->]; simpl in H; lia].
  - split; [intros [_ ->]; lia | intros [_ ->]; split; [discriminate | lia]].
Qed.

(** The groups by location: the locations that occur, each with the scores of
    its problems. *)
Lemma location_groups (ps : list Problem.t) (k : string) (avg : option Q) :
  In (k, avg)
    (map (fun e => (fst e, avgQ (snd e)))
       (groupBy Problem.location []
          (fun p l => l ++ [Problem.sentiment_score p]) ps)) <->
  filter (at_location k) ps <> [] /\
  avg = avgQ (map Problem.sentiment_score (filter (at_location k) ps)).
Proof.
  rewrite in_map_iff. unfold groupBy. split.
  - intros [[k' l] [E Hin]]. simpl in E. injection E as -> <-.
    apply accumulate_In in Hin. destruct Hin as [Hne ->].
    rewrite fold_snoc. simpl. now split.
  - intros [Hne ->].
    exists (k, map Problem.sentiment_score (filter (at_location k) ps)).
    split; [reflexivity|]. apply accumulate_In. split; [exact Hne|].
    now rewrite fold_snoc.
Qed.

Lemma count_desc_total (a b : string * Z) :
  (snd b <=? snd a) = true \/ (snd a <=? snd b) = true.
Proof. rewrite !Z.leb_le. lia. Qed.

Lemma count_desc_trans (a b c : string * Z) :
  (snd b <=? snd a) = true -> (snd c <=? snd b) = true ->
  (snd c <=? snd a) = true.
Proof. rewrite !Z.leb_le. lia. Qed.

Lemma firstn_short {A} (k : nat) (l : list A) :
  (List.length (firstn k l) < k)%nat -> firstn k l = l.
Proof.
  intros H. apply firstn_all2. rewrite length_firstn in H. lia.
Qed.

(** What [take] leaves out only when it is full. *)
Lemma firstn_full {A} (k : nat) (l : list A) (x : A) :
  In x l -> In x (firstn k l) \/ List.length (firstn k l) = k.
Proof.
  intros Hx. destruct (Nat.lt_ge_cases (List.length (firstn k l)) k) as [H | H].
  - left. now rewrite (firstn_short k l H).
  - right. pose proof (firstn_le_length k l). lia.
Qed.

Lemma avg_le_total (a b : string * option Q) :
  avg_le (snd a) (snd b) = true \/ avg_le (snd b) (snd a) = true.
Proof.
  destruct (snd a) as [x|], (snd b) as [y|]; simpl; auto.
  rewrite !Qle_bool_iff.
  destruct (Qlt_le_dec x y); [left; now apply Qlt_le_weak | now right].
Qed.

Lemma avg_le_trans (a b c : string * option Q) :
  avg_le (snd a) (snd b) = true -> avg_le (snd b) (snd c) = true ->
  avg_le (snd a) (snd c) = true.
Proof.
  destruct (snd a), (snd b), (snd c); simpl; auto; try discriminate.
  rewrite !Qle_bool_iff. apply Qle_trans.
Qed.

Lemma avgQ_mean (l : list Q) : l <> [] -> avgQ l = Some (mean l).
Proof. destruct l; [contradiction | reflexivity]. Qed.

(** An entry of the grouping by location carries the mean of its location. *)
Lemma area_entry (db : Store) (e : string * option Q) :
  In e
    (map (fun e => (fst e, avgQ (snd e)))
       (groupBy Problem.location []
          (fun p l => l ++ [Problem.sentiment_score p]) (problems db))) <->
  filter (at_location (fst e)) (problems db) <> [] /\
  snd e = Some (mean_at db (fst e)).
Proof.
  destruct e as [k avg]. rewrite location_groups. cbn [fst snd].
  unfold mean_at.
  split; intros [Hne H]; (split; [exact Hne|]); rewrite H.
  - apply avgQ_mean. intros E. apply map_eq_nil in E. contradiction.
  - symmetry. apply avgQ_mean. intros E. apply map_eq_nil in E. contradiction.
Qed.

(** The listed categories carry their live counts, are at most five, and no
    category left out has more problems than a listed one; a category with a
    problem is left out only when five are listed. *)
Lemma commonIssues_spec (db : Store) :
  (List.length (commonIssues db) <= 5)%nat /\
  (forall k n, In (k, n) (commonIssues db) ->
     1 <= n /\ n = count (in_category k) (problems db)) /\
  (forall k n k', In (k, n) (commonIssues db) ->
     ~ In k' (map fst (commonIssues db)) ->
     count (in_category k') (problems db) <= n) /\
  (forall p, In p (problems db) ->
     In (Problem.category p, count (in_category (Problem.category p))
                               (problems db)) (commonIssues db) \/
     List.length (commonIssues db) = 5%nat).
Proof.
  unfold commonIssues. split; [apply firstn_le_length|]. split; [|split].
  - intros k n H. apply In_firstn, In_sort in H. now apply category_groups.
  - intros k n k' H Hout.
    destruct (Z.leb_spec 1 (count (in_category k') (problems db)))
      as [Hpos | Hzero].
    + pose proof (firstn_sort_top _ _ count_desc_total count_desc_trans 5 _
                    (k, n) (k', count (in_category k') (problems db)) H)
        as Htop.
      cbn [snd] in Htop. apply Z.leb_le. apply Htop.
      * now apply category_groups.
      * intros Hin. apply Hout.
        change k' with (fst (k', count (in_category k') (problems db))).
        now apply in_map.
    + apply In_firstn, In_sort, category_groups in H. lia.
  - intros p Hp. apply firstn_full. apply In_sort. apply category_groups.
    split; [|reflexivity].
    apply count_pos with p; [exact Hp|].
    unfold in_category. apply String.eqb_refl.
Qed.

(** The listed locations carry the live mean of their scores and are at most
    five; a location with a problem that is left out has no lower mean than a
    listed one, and is left out only when five are listed. *)
Lemma negativeSentimentAreas_spec (db : Store) :
  (List.length (negativeSentimentAreas db) <= 5)%nat /\
  (forall k avg, In (k, avg) (negativeSentimentAreas db) ->
     exists q,
       avg = Some q /\
       filter (at_location k) (problems db) <> [] /\
       (q == mean (map Problem.sentiment_score
                     (filter (at_location k) (problems db))))%Q) /\
  (forall k avg k',
     In (k, avg) (negativeSentimentAreas db) ->
     ~ In k' (map fst (negativeSentimentAreas db)) ->
     filter (at_location k') (problems db) <> [] ->
     (mean_at db k <= mean_at db k')%Q) /\
  (forall p, In p (problems db) ->
     In (Problem.location p, Some (mean_at db (Problem.location p)))
       (negativeSentimentAreas db) \/
     List.length (negativeSentimentAreas db) = 5%nat).
Proof.
  unfold negativeSentimentAreas.
  set (groups :=
         map (fun e : string * list Q => (fst e, avgQ (snd e)))
           (groupBy Problem.location []
              (fun p l => l ++ [Problem.sentiment_score p]) (problems db))).
  set (le := fun a b : string * option Q => avg_le (snd a) (snd b)).
  split; [apply firstn_le_length|]. split; [|split].
  - intros k avg H. apply In_firstn, In_sort, location_groups in H.
    destruct H as [Hne ->].
    destruct (filter (at_location k) (problems db)) as [|p l] eqn:E;
      [contradiction|].
    eexists. split; [reflexivity|]. split; [discriminate | reflexivity].
  - intros k avg k' Hin Hout Hne.
    assert (Hk' : In (k', Some (mean_at db k')) groups).
    { apply area_entry. now split. }
    pose proof (firstn_sort_top _ le avg_le_total avg_le_trans 5 groups
                  (k, avg) (k', Some (mean_at db k')) Hin Hk') as Htop.
    assert (Havg : avg = Some (mean_at db k)).
    { apply In_firstn, In_sort in Hin. now apply area_entry in Hin. }
    assert (Hle : le (k, avg) (k', Some (mean_at db k')) = true).
    { apply Htop. intros H. apply Hout.
      change k' with (fst (k', Some (mean_at db k'))). now apply in_map. }
    unfold le in Hle. cbn [snd] in Hle. rewrite Havg in Hle.
    now apply Qle_bool_iff in Hle.
  - intros p Hp. apply firstn_full. apply In_sort. apply area_entry.
    cbn [fst snd]. split; [|reflexivity].
    intros E.
    assert (Hf : In p (filter (at_location (Problem.location p))
                         (problems db))).
    { apply filter_In. split; [exact Hp|].
      unfold at_location. apply String.eqb_refl. }
    rewrite E in Hf. destruct Hf.
Qed.

(** Every category with a comment has its entry in [resolutionTimesMap]. *)
Lemma resolutionTimesMap_listed (db : Store)
  (raw : list (ResolvedComment.t * string)) (k : string) :
  map fst raw = resolvedComments db ->
  (forall e, In e raw -> comment_category db (fst e) = Some (snd e)) ->
  comments_in db k <> [] ->
  In (k, (sumZ (map seconds (comments_in db k)),
          Z.of_nat (List.length (comments_in db k))))
    (resolutionTimesMap raw).
Proof.
  intros Hraw Hcat Hne.
  assert (E : map fst (filter (fun e => (snd e =? k)%string) raw) =
              comments_in db k).
  { unfold comments_in. rewrite <- Hraw. now apply raw_of_category. }
  unfold resolutionTimesMap. apply accumulate_In. split.
  - intros H0. apply Hne. rewrite <- E.
    change (filter (fun e : ResolvedComment.t * string => (snd e =? k)%string)
              raw = []) in H0.
    now rewrite H0.
  - rewrite fold_totals. cbn [fst snd]. rewrite !Z.add_0_l, <- E.
    now rewrite length_map.
Qed.

(** The resolution times name each category with a comment once, with the
    mean [time_taken] of its comments, and no other category. *)
Lemma resolutionTimes_raw_spec (db : Store)
  (raw : list (ResolvedComment.t * string)) :
  map fst raw = resolvedComments db ->
  (forall e, In e raw -> comment_category db (fst e) = Some (snd e)) ->
  NoDup (map ResolutionTime.category
           (resolutionTimes_raw (resolutionTimesMap raw))) /\
  (forall b, In b (resolutionTimes_raw (resolutionTimesMap raw)) ->
     comments_in db (ResolutionTime.category b) <> [] /\
     ResolutionTime.avg_time b =
       JS.div
         (sumZ (map seconds (comments_in db (ResolutionTime.category b))))
         (Z.of_nat
            (List.length (comments_in db (ResolutionTime.category b))))) /\
  (forall k, comments_in db k <> [] ->
     In k (map ResolutionTime.category
             (resolutionTimes_raw (resolutionTimesMap raw)))).
Proof.
  intros Hfst Hcat.
  assert (Hkeys : map ResolutionTime.category
                    (resolutionTimes_raw (resolutionTimesMap raw)) =
                  keys (resolutionTimesMap raw)).
  { unfold resolutionTimes_raw, keys. rewrite map_map. reflexivity. }
  split; [|split].
  - rewrite Hkeys. unfold resolutionTimesMap. apply keys_accumulate_NoDup.
  - intros b Hb. unfold resolutionTimes_raw in Hb.
    apply in_map_iff in Hb. destruct Hb as [[k d] [<- Hin]].
    cbn [ResolutionTime.category ResolutionTime.avg_time fst snd].
    destruct (resolutionTimesMap_entries db raw k d Hfst Hcat Hin) as [Hne ->].
    split; [exact Hne | reflexivity].
  - intros k Hne. rewrite Hkeys.
    change k with
      (fst (k, (sumZ (map seconds (comments_in db k)),
                Z.of_nat (List.length (comments_in db k))))).
    apply in_map. now apply resolutionTimesMap_listed.
Qed.

(** C7.  Over every store whose comments belong to existing problems (every
    store a history of requests builds), and whatever the narrative call does,
    [GET /api/reports/strategic] answers with a report.  Its listed categories
    are at most five, each with its live count of problems; no category left
    out has more, and a category with a problem is left out only when five
    are listed.  Its listed locations are at most five, each with the live
    mean sentiment of its problems; a location with a problem that is left out
    has no lower mean than a listed one, and is left out only when five are
    listed.  Its resolution times name every category with a comment, once,
    with the mean [time_taken] of its comments, and no other category.  These
    fields are the same whatever the narrative call does.  When that call
    throws, or returns no text, [aiSummary] is the placeholder sentence;
    otherwise it is the returned text. *)
Theorem strategic_report_never_fails (oracle : narrative) (db : Store) :
  comments_ok db ->
  exists r,
    get_strategic oracle db = Json r /\
    ((List.length (StrategicReport.commonIssues r) <= 5)%nat /\
     (forall k n, In (k, n) (StrategicReport.commonIssues r) ->
        1 <= n /\ n = count (in_category k) (problems db)) /\
     (forall k n k', In (k, n) (StrategicReport.commonIssues r) ->
        ~ In k' (map fst (StrategicReport.commonIssues r)) ->
        count (in_category k') (problems db) <= n) /\
     (forall p, In p (problems db) ->
        In (Problem.category p,
            count (in_category (Problem.category p)) (problems db))
          (StrategicReport.commonIssues r) \/
        List.length (StrategicReport.commonIssues r) = 5%nat)) /\
    ((List.length (StrategicReport.negativeSentimentAreas r) <= 5)%nat /\
     (forall k avg, In (k, avg) (StrategicReport.negativeSentimentAreas r) ->
        exists q,
          avg = Some q /\
          filter (at_location k) (problems db) <> [] /\
          (q == mean (map Problem.sentiment_score
                        (filter (at_location k) (problems db))))%Q) /\
     (forall k avg k',
        In (k, avg) (StrategicReport.negativeSentimentAreas r) ->
        ~ In k' (map fst (StrategicReport.negativeSentimentAreas r)) ->
        filter (at_location k') (problems db) <> [] ->
        (mean_at db k <= mean_at db k')%Q) /\
     (forall p, In p (problems db) ->
        In (Problem.location p, Some (mean_at db (Problem.location p)))
          (StrategicReport.negativeSentimentAreas r) \/
        List.length (StrategicReport.negativeSentimentAreas r) = 5%nat)) /\
    (NoDup (map ResolutionTime.category (StrategicReport.resolutionTimes r)) /\
     (forall b, In b (StrategicReport.resolutionTimes r) ->
        comments_in db (ResolutionTime.category b) <> [] /\
        ResolutionTime.avg_time b =
          JS.div
            (sumZ (map seconds (comments_in db (ResolutionTime.category b))))
            (Z.of_nat
               (List.length (comments_in db (ResolutionTime.category b))))) /\
     (forall k, comments_in db k <> [] ->
        In k (map ResolutionTime.category
                (StrategicReport.resolutionTimes r)))) /\
    (forall oracle' r',
       get_strategic oracle' db = Json r' ->
       StrategicReport.commonIssues r' = StrategicReport.commonIssues r /\
       StrategicReport.negativeSentimentAreas r' =
         StrategicReport.negativeSentimentAreas r /\
       StrategicReport.resolutionTimes r' = StrategicReport.resolutionTimes r) /\
    StrategicReport.aiSummary r =
      match oracle with
      | Threw | Returned None | Returned (Some "") => placeholder
      | Returned (Some text) => text
      end.
Proof.
  intros Hok.
  destruct (findMany_with_category_spec db Hok) as [raw [Hraw [Hfst Hcat]]].
  unfold get_strategic. rewrite Hraw.
  eexists. split; [reflexivity|].
  cbn [StrategicReport.commonIssues StrategicReport.negativeSentimentAreas
       StrategicReport.resolutionTimes StrategicReport.aiSummary].
  split; [apply commonIssues_spec|].
  split; [apply negativeSentimentAreas_spec|].
  split; [now apply resolutionTimes_raw_spec|]. split.
  - intros oracle' r' [= <-]. repeat split.
  - destruct oracle as [|[[|a text]|]]; reflexivity.
Qed.

(** Over [rated_store], with the narrative call failing: one category with
    one problem, one location with its score, one resolution time of 7200
    seconds, and the placeholder. *)
Lemma strategic_report_never_fails_witness :
  exists r,
    get_strategic Threw rated_store = Json r /\
    StrategicReport.commonIssues r = [("Water", 1)] /\
    StrategicReport.negativeSentimentAreas r =
      [("Kottapeta", Some (-8 # 10))] /\
    map (fun b => (ResolutionTime.category b, ResolutionTime.avg_time b))
      (StrategicReport.resolutionTimes r) = [("Water", 7200 # 1)] /\
    StrategicReport.aiSummary r = placeholder.
Proof.
  destruct (strategic_report_never_fails Threw rated_store)
    as [r [Hr [_ [_ [_ [_ Hs]]]]]].
  - apply run_comments_ok, empty_comments_ok.
  - exists r. split; [exact Hr|].
    split; [|split; [|split; [|exact Hs]]];
      vm_compute in Hr; injection Hr as <-; reflexivity.
Defined.

(** ** The life of a report *)

(** C6, counterexample.  Along [reopen_history], whose clock never runs
    backwards, the report is [Resolved] after the second request and
    [Pending] after the third, with [resolved_at] still set: the status update
    is not refused, and [resolved_at] set no longer means [Resolved]. *)
Lemma reopened_report_keeps_resolved_at :
  clock_from 0 reopen_history /\
  map Problem.status
    (problems (run binary false false (firstn 2 reopen_history) empty_store))
    = ["Resolved"] /\
  map (fun p => (Problem.status p, Problem.resolved_at p))
    (problems reopened_store)
    = [("Pending", Some (early_2_november - msPerDay + 3600000))] /\
  ~ resolved_iff reopened_store.
Proof.
  split; [vm_compute; repeat split; discriminate|].
  split; [reflexivity|]. split; [reflexivity|].
  intros H.
  assert (Hin : exists p, In p (problems reopened_store) /\
                          Problem.status p = "Pending" /\
                          Problem.resolved_at p <> None).
  { vm_compute. eexists. split; [left; reflexivity|].
    split; [reflexivity | discriminate]. }
  destruct Hin as [p [Hp [Hs Hr]]].
  apply (H p Hp) in Hr. rewrite Hs in Hr. discriminate Hr.
Qed.

Lemma lifecycle_ok_later (t t' : Z) (db : Store) :
  t <= t' -> lifecycle_ok t db -> lifecycle_ok t' db.
Proof.
  intros Hle H p Hp. destruct (H p Hp) as [H1 [H2 H3]].
  split; [lia|]. split; [exact H2|].
  intros r Hr. specialize (H3 r Hr). lia.
Qed.

Lemma lifecycle_ok_same (t : Z) (db db' : Store) :
  problems db' = problems db -> lifecycle_ok t db -> lifecycle_ok t db'.
Proof. unfold lifecycle_ok. now intros ->. Qed.

Lemma post_problem_problems (collate : ascii -> ascii) (backslash : bool) (user
  : User.t)
  (body : SubmitBody.t) (uuid : string) (now : Z) (db : Store) :
  problems (fst (post_problem collate backslash user body uuid now db)) =
    problems db \/
  exists a cl,
    problems (fst (post_problem collate backslash user body uuid now db)) =
    problems db ++ [new_problem user body a uuid now cl].
Proof.
  unfold post_problem.
  destruct (negb (authorize ["citizen_admin"] user)); [now left|].
  destruct (SubmitBody.analysis body) as [a|]; [|now left].
  destruct (resolve_cluster collate backslash _ _ db) as [db1 cl] eqn:E1.
  pose proof (resolve_cluster_keeps _ _ _ _ _ _ _ E1) as [Hp1 _].
  destruct (problem.create _ db1) as [db2|] eqn:E2; [|now left].
  pose proof (problem_create_Some _ _ _ E2) as [_ [Hp2 _]].
  destruct (refresh (Cluster.id cl) db2) as [db3|] eqn:E3.
  - pose proof (refresh_Some _ _ _ E3) as [Hp3 _]. right. exists a, cl.
    simpl. congruence.
  - right. exists a, cl. simpl. congruence.
Qed.

Lemma step_lifecycle (collate : ascii -> ascii) (backslash : bool)
  (unique_problem : bool)
  (t : Z) (o : op) (db : Store) :
  lifecycle_ok t db -> clock_from t [o] ->
  lifecycle_ok (clock_end t [o]) (step collate backslash unique_problem o db).
Proof.
  intros Hok Hclock.
  destruct o as [[user body uuid | user id status
                 | user id rating comment uuid] now | cid |];
    cbn [clock_from clock_end] in *; cbn [step].
  - destruct Hclock as [Hle _].
    apply (lifecycle_ok_later t now _ Hle) in Hok.
    destruct (post_problem_problems collate backslash user body uuid now db)
      as [E | [a [cl E]]].
    + now apply lifecycle_ok_same with db.
    + intros p Hp. rewrite E in Hp. apply in_app_or in Hp.
      destruct Hp as [Hp | [<- | []]]; [now apply Hok|].
      cbn [new_problem Problem.created_at Problem.status Problem.resolved_at].
      split; [lia|]. split; [discriminate | discriminate].
  - destruct Hclock as [Hle _].
    apply (lifecycle_ok_later t now _ Hle) in Hok.
    unfold patch_status.
    destruct (negb (authorize ["municipal_admin"] user)); [exact Hok|].
    destruct (status =? "Resolved")%string eqn:Es;
      (destruct (problem.update id _ db) as [db'|] eqn:E; [|exact Hok]);
      apply problem_update_Some in E; destruct E as [Hp _]; cbn [fst];
      intros p Hin; rewrite Hp in Hin; apply In_update_where in Hin;
      destruct Hin as [p0 [Hp0 ->]]; destruct (Hok p0 Hp0) as [H1 [H2 H3]];
      (destruct (problem.has_id id p0); [|exact (conj H1 (conj H2 H3))]);
      cbn [Problem.with_status Problem.created_at Problem.status
           Problem.resolved_at].
    + split; [exact H1|]. split; [discriminate|].
      intros r [= <-]. lia.
    + split; [exact H1|]. split; [|exact H3].
      intros ->. discriminate Es.
  - destruct Hclock as [Hle _].
    apply (lifecycle_ok_later t now _ Hle) in Hok.
    apply lifecycle_ok_same with db; [|exact Hok].
    apply post_comment_keeps.
  - destruct (refresh cid db) as [db'|] eqn:E; [|exact Hok]. simpl.
    apply lifecycle_ok_same with db; [|exact Hok].
    now apply refresh_Some in E.
  - unfold refresh_all.
    destruct (refresh_each_spec (clusters db) db) as [db' [H [Hp _]]].
    { intros c Hc. now exists c. }
    rewrite H. simpl. now apply lifecycle_ok_same with db.
Qed.

Lemma find_update_same (id : string) (data : Problem.t -> Problem.t)
  (ps : list Problem.t) :
  (forall p, Problem.id (data p) = Problem.id p) ->
  find (problem.has_id id) (update_where (problem.has_id id) data ps) =
  option_map data (find (problem.has_id id) ps).
Proof.
  intros Hid. unfold update_where.
  induction ps as [|p ps IH]; [reflexivity|]. cbn [map find].
  destruct (problem.has_id id p) eqn:E.
  - unfold problem.has_id at 1. rewrite Hid. fold (problem.has_id id p).
    now rewrite E.
  - now rewrite E.
Qed.

Lemma run_lifecycle (collate : ascii -> ascii) (backslash : bool)
  (unique_problem : bool)
  (ops : list op) (t : Z) (db : Store) :
  lifecycle_ok t db -> clock_from t ops ->
  lifecycle_ok (clock_end t ops) (run collate backslash unique_problem ops db).
Proof.
  revert t db. induction ops as [|o ops IH]; intros t db Hok Hclock.
  - exact Hok.
  - cbn [run fold_left].
    assert (H1 : clock_from t [o] /\ clock_from (clock_end t [o]) ops /\
                 clock_end t (o :: ops) = clock_end (clock_end t [o]) ops).
    { destruct o as [r now | cid |]; cbn [clock_from clock_end] in *; tauto. }
    destruct H1 as [Ho [Hops ->]].
    apply IH; [|exact Hops]. now apply step_lifecycle.
Qed.

(** C6, amended.  Along every history whose clock never runs backwards, from
    the empty store or from any store where it holds, every report with
    status [Resolved] has [resolved_at] set, and every [resolved_at] is at or
    after [created_at].  A status update is never refused for the status it
    leaves: on an existing report it sets the status it is given, stamps
    [resolved_at] when that status is [Resolved] and leaves [resolved_at] as
    it was otherwise, so a report can leave [Resolved] and keep its
    [resolved_at]. *)
Theorem lifecycle_kept (collate : ascii -> ascii) (backslash : bool)
  (unique_problem : bool)
  (t : Z) (ops : list op) (db : Store) :
  lifecycle_ok t db -> clock_from t ops ->
  lifecycle_ok (clock_end t ops) (run collate backslash unique_problem ops db)
    /\
  lifecycle_ok t empty_store /\
  (forall db0 id status now p,
     problem.findUnique id db0 = Some p ->
     exists db',
       patch_status officer id status now db0 = (db', Json tt) /\
       problem.findUnique id db' =
         Some (Problem.with_status status
                 (if (status =? "Resolved")%string then Some now
                  else Problem.resolved_at p) p)).
Proof.
  intros Hok Hclock. split; [now apply run_lifecycle|].
  split; [intros p []|].
  intros db0 id status now p Hp.
  unfold patch_status. cbn [authorize officer User.role existsb negb].
  cbn [String.eqb Ascii.eqb Bool.eqb orb negb].
  unfold problem.update. rewrite Hp.
  destruct (status =? "Resolved")%string; eexists; (split; [reflexivity|]);
    unfold problem.findUnique in *; cbn [problems];
    rewrite find_update_same by reflexivity; now rewrite Hp.
Qed.

Lemma lifecycle_kept_witness :
  lifecycle_ok (clock_end 0 reopen_history) reopened_store.
Proof.
  apply (lifecycle_kept binary false false 0 reopen_history empty_store).
  - intros p [].
  - vm_compute. repeat split; discriminate.
Defined.

(** ** Feedback *)

(** C5, counterexample.  The report of [reopened_store] is [Pending]; its
    reporter's feedback is accepted and written, whether or not the schema
    makes [problem_id] unique. *)
Lemma feedback_on_reopened_report :
  ~ feedback_guarded true /\ ~ feedback_guarded false.
Proof.
  split; intros H;
    (destruct (H citizen "p1" "Good" "Thank you" "c1" early_2_november
                 reopened_store) as [code [error E]];
     [left; intros p Hp; vm_compute in Hp; injection Hp as <-; discriminate
     | vm_compute in E; discriminate E]).
Qed.

Lemma floor_div (a : Z) (b : positive) :
  JS.floor (JS.div a (Zpos b)) = a / Zpos b.
Proof.
  unfold JS.floor, JS.div, Qdiv, Qinv, Qmult, Qfloor, inject_Z. simpl.
  now rewrite Z.mul_1_r.
Qed.

Lemma existsb_of_problem (id : string) (cs : list ResolvedComment.t) :
  existsb (resolvedComment.of_problem id) cs = false ->
  ~ In id (map ResolvedComment.problem_id cs).
Proof.
  intros H Hin. apply in_map_iff in Hin. destruct Hin as [c [E Hc]].
  assert (Ht : existsb (resolvedComment.of_problem id) cs = true).
  { apply existsb_exists. exists c. split; [exact Hc|].
    unfold resolvedComment.of_problem. rewrite E. apply String.eqb_refl. }
  congruence.
Qed.

(** C5, amended.  For a caller with the role [citizen_admin]: feedback on a
    report that does not exist or whose [resolved_at] is not set is answered
    with 400 and nothing is written; it is [resolved_at] that is tested, not
    the status.  Feedback on a report whose [resolved_at] is set is written,
    with [time_taken] the whole seconds from [created_at] to [resolved_at],
    and answered with that [time_taken], unless the store refuses the row:
    the generated id is taken, or the schema makes [problem_id] unique and the
    report has a feedback already; then the answer is 500 and nothing is
    written.  There is no other test for an earlier feedback: where
    [problem_id] is not unique a second feedback is accepted, and where it is,
    at most one feedback per report is kept. *)
Theorem feedback_tests_resolved_at (unique_problem : bool) (user : User.t)
  (id rating comment uuid : string) (now : Z) (db : Store) :
  authorize ["citizen_admin"] user = true ->
  match problem.findUnique id db with
  | None =>
      post_comment unique_problem user id rating comment uuid now db =
      (db, Status 400 "Problem not resolved")
  | Some p =>
      match Problem.resolved_at p with
      | None =>
          post_comment unique_problem user id rating comment uuid now db =
          (db, Status 400 "Problem not resolved")
      | Some r =>
          if existsb (resolvedComment.has_id uuid) (resolvedComments db)
             || (unique_problem &&
                 existsb (resolvedComment.of_problem id) (resolvedComments db))
          then
            post_comment unique_problem user id rating comment uuid now db =
            (db, Status 500 "Failed to save comment")
          else
            post_comment unique_problem user id rating comment uuid now db =
            ({| problems := problems db; clusters := clusters db;
                resolvedComments :=
                  resolvedComments db ++
                  [feedback_row user id rating comment uuid now p r] |},
             Json ((r - Problem.created_at p) / 1000))
      end
  end /\
  (unique_problem = true -> one_comment_each db ->
   one_comment_each
     (fst (post_comment unique_problem user id rating comment uuid now db))).
Proof.
  intros Hauth.
  assert (Hfloor : forall a, JS.floor (JS.div a 1000) = a / 1000)
    by (intros a; apply (floor_div a 1000)).
  split.
  - unfold post_comment. rewrite Hauth. cbn [negb].
    destruct (problem.findUnique id db) as [p|]; [|reflexivity].
    destruct (Problem.resolved_at p) as [r|]; [|reflexivity].
    unfold resolvedComment.create. cbn [ResolvedComment.id
      ResolvedComment.problem_id]. rewrite Hfloor.
    destruct (existsb (resolvedComment.has_id uuid) (resolvedComments db));
      [reflexivity|].
    cbn [orb].
    destruct (unique_problem &&
              existsb (resolvedComment.of_problem id) (resolvedComments db));
      reflexivity.
  - intros -> Hone. unfold post_comment. rewrite Hauth. cbn [negb].
    destruct (problem.findUnique id db) as [p|]; [|exact Hone].
    destruct (Problem.resolved_at p) as [r|]; [|exact Hone].
    unfold resolvedComment.create. cbn [ResolvedComment.id
      ResolvedComment.problem_id andb].
    destruct (existsb (resolvedComment.has_id uuid) (resolvedComments db));
      [exact Hone|].
    destruct (existsb (resolvedComment.of_problem id) (resolvedComments db))
      eqn:E; [exact Hone|].
    unfold one_comment_each in *. cbn [fst resolvedComments].
    rewrite map_app. cbn [map ResolvedComment.problem_id].
    apply NoDup_app; [exact Hone | repeat constructor; intros [] |].
    intros x Hx [<- | []]. now apply existsb_of_problem in E.
Qed.

Lemma feedback_tests_resolved_at_witness :
  post_comment false citizen "p1" "Good" "Thank you" "c1" early_2_november
    rated_store = (rated_store, Status 500 "Failed to save comment") /\
  fst (post_comment false citizen "p1" "Good" "Thank you" "c2" early_2_november
         rated_store) <> rated_store /\
  snd (post_comment false citizen "p1" "Good" "Thank you" "c2" early_2_november
         rated_store) = Json 7200 /\
  post_comment true citizen "p1" "Good" "Thank you" "c2" early_2_november
    rated_store = (rated_store, Status 500 "Failed to save comment").
Proof.
  pose proof (feedback_tests_resolved_at false citizen "p1" "Good" "Thank you"
                "c1" early_2_november rated_store eq_refl) as [H1 _].
  pose proof (feedback_tests_resolved_at false citizen "p1" "Good" "Thank you"
                "c2" early_2_november rated_store eq_refl) as [H2 _].
  pose proof (feedback_tests_resolved_at true citizen "p1" "Good" "Thank you"
                "c2" early_2_november rated_store eq_refl) as [H3 _].
  split; [exact H1|]. split; [|split; [|exact H3]].
  - remember (post_comment false citizen "p1" "Good" "Thank you" "c2"
                early_2_november rated_store) as answer eqn:E.
    vm_compute in H2. rewrite H2. vm_compute. discriminate.
  - remember (post_comment false citizen "p1" "Good" "Thank you" "c2"
                early_2_november rated_store) as answer eqn:E.
    vm_compute in H2. rewrite H2. reflexivity.
Defined.

(** ** The seeding script *)

(** The script ends with the sweep: when it completes, every cluster carries
    the statistics of its members. *)
Lemma seed_consistent (unique_problem : bool) (citizenId now : Z)
  (uuid : nat -> string) (db db' : Store) :
  Seed.main unique_problem citizenId now uuid db = Some db' -> consistent db'.
Proof.
  unfold Seed.main.
  destruct (fold_left Seed.seed_cluster Seed.clusters (db, [])) as [db1 m].
  destruct (fold_left _ Seed.problemsData (Some (db1, O))) as [[db2 k]|];
    [|discriminate].
  intros H. destruct (refresh_all_consistent db2) as [db3 [E [_ Hc]]].
  rewrite E in H. now injection H as <-.
Qed.

(** Run on the empty store the script completes.  Its two [Resolved] reports
    are stored with [resolved_at] one and two days before [created_at], and
    their comments with a negative [time_taken], which [/api/stats] reports
    as -24 and -48 hours. *)
Lemma seeding_resolves_before_creating :
  Seed.main false 1 early_2_november letters empty_store = Some seeded_store /\
  map (fun p => (Problem.status p,
                 option_map (fun r => r - Problem.created_at p)
                   (Problem.resolved_at p)))
    (problems seeded_store) =
    [("Pending", None); ("In Progress", None); ("Resolved", Some (-86400000));
     ("Pending", None); ("Resolved", Some (-172800000))] /\
  map ResolvedComment.time_taken (resolvedComments seeded_store) =
    [Some (-86400); Some (-172800)] /\
  ~ lifecycle_ok early_2_november seeded_store /\
  (exists s,
     get_stats zone_utc officer early_2_november seeded_store = Json s /\
     map (fun e => (ResolutionTime.category e, ResolutionTime.avg_time e))
       (Stats.resolutionTimes s) =
     [("Electricity", inject_Z (-24)); ("Other", inject_Z (-48))]).
Proof.
  split; [vm_compute; reflexivity|].
  split; [vm_compute; reflexivity|].
  split; [vm_compute; reflexivity|].
  split.
  - intros H.
    assert (Hb : existsb
                   (fun p => match Problem.resolved_at p with
                             | Some r => r <? Problem.created_at p
                             | None => false
                             end) (problems seeded_store) = true)
      by (vm_compute; reflexivity).
    apply existsb_exists in Hb. destruct Hb as [p [Hp Hlt]].
    destruct (Problem.resolved_at p) as [r|] eqn:Er; [|discriminate Hlt].
    apply Z.ltb_lt in Hlt.
    destruct (H p Hp) as [_ [_ H3]]. specialize (H3 r Er). lia.
  - eexists. split; [vm_compute; reflexivity|]. vm_compute. reflexivity.
Qed.

(** ** Who may write *)

(** X1.  A caller whose role is not [citizen_admin] is answered 403
    [Forbidden] by [POST /api/problems] and by
    [POST /api/problems/:id/comment], and a caller whose role is not
    [municipal_admin] is answered 403 by [PATCH /api/problems/:id/status];
    in each case the store is left as it was.  No role passes both gates:
    nobody can both file reports and change their status. *)
Theorem forbidden_requests_change_nothing (collate : ascii -> ascii)
  (backslash : bool)
  (unique_problem : bool) (user : User.t) :
  (User.role user <> "citizen_admin" ->
   (forall body uuid now db,
      post_problem collate backslash user body uuid now db =
      (db, Status 403 "Forbidden")) /\
   (forall id rating comment uuid now db,
      post_comment unique_problem user id rating comment uuid now db =
      (db, Status 403 "Forbidden"))) /\
  (User.role user <> "municipal_admin" ->
   forall id status now db,
     patch_status user id status now db = (db, Status 403 "Forbidden")) /\
  authorize ["citizen_admin"] user && authorize ["municipal_admin"] user
    = false.
Proof.
  split; [|split].
  - intros H. apply String.eqb_neq in H.
    assert (Ha : authorize ["citizen_admin"] user = false).
    { unfold authorize. cbn [existsb]. now rewrite H. }
    split; intros; [unfold post_problem | unfold post_comment];
      now rewrite Ha.
  - intros H id status now db. apply String.eqb_neq in H.
    unfold patch_status, authorize. cbn [existsb]. now rewrite H.
  - unfold authorize. cbn [existsb]. rewrite !orb_false_r.
    destruct (String.eqb_spec (User.role user) "citizen_admin") as [E | E];
      [|reflexivity].
    rewrite E. reflexivity.
Qed.

(** ** The counters of [GET /api/stats] *)

Lemma count_split {A} (f g : A -> bool) (l : list A) :
  count f l =
  count (fun x => f x && g x) l + count (fun x => f x && negb (g x)) l.
Proof.
  induction l as [|x l IH]; [reflexivity|].
  rewrite !count_cons, IH. destruct (f x), (g x); cbn [andb negb]; lia.
Qed.

Lemma count_le {A} (f g : A -> bool) (l : list A) :
  (forall x, f x = true -> g x = true) -> count f l <= count g l.
Proof.
  intros H. induction l as [|x l IH]; [unfold count; simpl; lia|].
  rewrite !count_cons. specialize (H x).
  destruct (f x), (g x); try lia; specialize (H eq_refl); discriminate H.
Qed.

Lemma count_le_length {A} (f : A -> bool) (l : list A) :
  count f l <= Z.of_nat (List.length l).
Proof.
  unfold count. pose proof (filter_length_le f l). lia.
Qed.

(** X2.  In every answer of [GET /api/stats], for every caller:
    [totalProblems] is [activeProblems] plus [resolvedProblems];
    [urgentAlerts] counts some of the active problems, so it lies between 0
    and [activeProblems]; the total is at most the number of stored problems,
    and it is that number for a municipal caller. *)
Theorem stats_counters_add_up (LocalTZA : Z -> bool -> Z) (user : User.t)
  (now : Z) (db : Store) (s : Stats.t) :
  get_stats LocalTZA user now db = Json s ->
  Stats.totalProblems s = Stats.activeProblems s + Stats.resolvedProblems s /\
  0 <= Stats.urgentAlerts s <= Stats.activeProblems s /\
  0 <= Stats.resolvedProblems s /\
  Stats.totalProblems s <= Z.of_nat (List.length (problems db)) /\
  (User.role user = "municipal_admin" ->
   Stats.totalProblems s = Z.of_nat (List.length (problems db))).
Proof.
  intros H. apply get_stats_Json in H.
  destruct H as [H1 [H2 [H3 [H4 _]]]]. rewrite H1, H2, H3, H4.
  split; [|split; [|split; [|split]]].
  - rewrite (count_split (in_scope user) is_resolved). lia.
  - split; [apply count_nonneg|]. apply count_le. intros p Hp.
    apply andb_true_iff in Hp. destruct Hp as [Hp Hr].
    apply andb_true_iff in Hp. destruct Hp as [Hp _]. now rewrite Hp, Hr.
  - apply count_nonneg.
  - apply count_le_length.
  - intros Hrole.
    assert (Hs : forall p, in_scope user p = true).
    { intros p. unfold in_scope. now rewrite Hrole. }
    unfold count. f_equal. f_equal. clear H1 H2 H3 H4.
    induction (problems db) as [|p ps IH]; [reflexivity|].
    cbn [filter]. now rewrite Hs, IH.
Qed.

Lemma stats_counters_add_up_witness :
  exists s,
    get_stats zone_utc officer early_2_november two_reports_store = Json s /\
    Stats.totalProblems s = 2 /\
    Stats.activeProblems s + Stats.resolvedProblems s = 2.
Proof.
  destruct (get_stats zone_utc officer early_2_november two_reports_store)
    as [s| |] eqn:E; try (vm_compute in E; discriminate E).
  destruct (stats_counters_add_up zone_utc officer early_2_november
              two_reports_store s E) as [H1 [_ [_ [_ H5]]]].
  exists s. split; [reflexivity|].
  rewrite <- H1, (H5 eq_refl). split; reflexivity.
Defined.

(** ** The trend series, on every host *)

Lemma sorted_strict (l : list Trend.t) :
  Sorted (fun a b => Trend.date a <= Trend.date b) l ->
  NoDup (map Trend.date l) ->
  Sorted (fun a b => Trend.date a < Trend.date b) l.
Proof.
  induction 1 as [|x l Hs IH Hhd]; intros Hnd; constructor.
  - apply IH. now inversion Hnd.
  - destruct Hhd as [|y l' Hxy]; constructor.
    assert (Trend.date x <> Trend.date y); [|lia].
    inversion Hnd as [|? ? Hnot _]; subst.
    intros E. apply Hnot. rewrite E. now left.
Qed.

(** X3.  On every host and for every caller, the series of
    [GET /api/stats] has one entry for each day for which the loop made a
    key, and no other entry.  The entry's [active] is the number of reports
    in the caller's scope that were created on or after [thirtyDaysAgo], on
    that day, and whose status is not [Resolved] now; its [resolved] is the
    number of such recent reports resolved on that day.  The dates strictly
    increase, there are between 1 and 30 entries, and the day reached by
    stepping back 0 days is among them. *)
Theorem trend_series_shape (LocalTZA : Z -> bool -> Z) (user : User.t)
  (now : Z) (db : Store) (s : Stats.t) :
  get_stats LocalTZA user now db = Json s ->
  (forall t, In t (Stats.trends s) <->
     In (Trend.date t) (window LocalTZA now) /\
     Trend.active t =
       count (fun p => (daysAgo LocalTZA now 30 <=? Problem.created_at p)
                       && in_scope user p && created_on (Trend.date t) p
                       && negb (is_resolved p)) (problems db) /\
     Trend.resolved t =
       count (fun p => (daysAgo LocalTZA now 30 <=? Problem.created_at p)
                       && in_scope user p && resolved_on (Trend.date t) p)
         (problems db)) /\
  Sorted (fun a b => Trend.date a < Trend.date b) (Stats.trends s) /\
  (1 <= List.length (Stats.trends s) <= 30)%nat /\
  In (isoDate (daysAgo LocalTZA now 0)) (map Trend.date (Stats.trends s)).
Proof.
  intros H. apply get_stats_Json in H.
  destruct H as [_ [_ [_ [_ [_ [_ [Ht _]]]]]]]. rewrite Ht.
  set (isM := (User.role user =? "municipal_admin")%string).
  pose proof (trends_spec LocalTZA isM (User.id user) now db)
    as [Hspec [Hnd Hsorted]].
  set (rows := trend_rows LocalTZA isM (User.id user) now db) in *.
  set (ts := trends LocalTZA isM (User.id user) now db) in *.
  assert (Ha : forall k,
            count (active_on k) rows =
            count (fun p => (daysAgo LocalTZA now 30 <=? Problem.created_at p)
                            && in_scope user p && created_on k p
                            && negb (is_resolved p)) (problems db)).
  { intros k. unfold rows, trend_rows, problem.findMany. rewrite count_filter.
    apply count_ext. intros p. unfold trend_scope, active_on, in_scope.
    fold isM. now rewrite !andb_assoc. }
  assert (Hr : forall k,
            count (resolved_on k) rows =
            count (fun p => (daysAgo LocalTZA now 30 <=? Problem.created_at p)
                            && in_scope user p && resolved_on k p)
              (problems db)).
  { intros k. unfold rows, trend_rows, problem.findMany. rewrite count_filter.
    reflexivity. }
  assert (Hiff : forall t, In t ts <->
            In (Trend.date t) (window LocalTZA now) /\
            Trend.active t =
              count (fun p => (daysAgo LocalTZA now 30 <=? Problem.created_at p)
                              && in_scope user p && created_on (Trend.date t) p
                              && negb (is_resolved p)) (problems db) /\
            Trend.resolved t =
              count (fun p => (daysAgo LocalTZA now 30 <=? Problem.created_at p)
                              && in_scope user p
                              && resolved_on (Trend.date t) p) (problems db)).
  { intros t. rewrite (Hspec t), Ha, Hr. reflexivity. }
  assert (Htoday : In (isoDate (daysAgo LocalTZA now 0))
                     (map Trend.date ts)).
  { apply in_map_iff.
    exists {| Trend.date := isoDate (daysAgo LocalTZA now 0);
              Trend.active :=
                count (active_on (isoDate (daysAgo LocalTZA now 0))) rows;
              Trend.resolved :=
                count (resolved_on (isoDate (daysAgo LocalTZA now 0))) rows |}.
    split; [reflexivity|]. apply Hspec.
    cbn [Trend.date Trend.active Trend.resolved].
    split; [|split; reflexivity].
    unfold window.
    change (isoDate (daysAgo LocalTZA now 0))
      with ((fun i => isoDate (daysAgo LocalTZA now (Z.of_nat i))) 0%nat).
    apply in_map. apply in_seq. lia. }
  split; [exact Hiff|]. split; [now apply sorted_strict|].
  split; [|exact Htoday]. split.
  - destruct ts; [destruct Htoday | simpl; lia].
  - rewrite <- (length_map Trend.date).
    replace 30%nat with (List.length (window LocalTZA now))
      by (unfold window; now rewrite length_map, length_seq).
    apply NoDup_incl_length; [exact Hnd|].
    intros k Hk. apply in_map_iff in Hk. destruct Hk as [t [<- Hin]].
    now apply Hspec in Hin.
Qed.

Lemma trend_series_shape_witness :
  exists s,
    get_stats zone_utc officer early_2_november recent_report_store = Json s /\
    (1 <= List.length (Stats.trends s) <= 30)%nat.
Proof.
  destruct (get_stats zone_utc officer early_2_november recent_report_store)
    as [s| |] eqn:E; try (vm_compute in E; discriminate E).
  destruct (trend_series_shape zone_utc officer early_2_november
              recent_report_store s E) as [_ [_ [H _]]].
  exists s. split; [reflexivity | exact H].
Defined.

(** X4.  On a host whose offset from UTC never changes, the series of
    [GET /api/stats] has exactly 30 entries, for the 30 consecutive days that
    end with the UTC date of the request, in ascending order, whatever the
    caller and the store. *)
Theorem trends_on_fixed_offset_host (LocalTZA : Z -> bool -> Z) (offset : Z)
  (user : User.t) (now : Z) (db : Store) (s : Stats.t) :
  (forall t isUTC, LocalTZA t isUTC = offset) ->
  get_stats LocalTZA user now db = Json s ->
  map Trend.date (Stats.trends s) =
    map (fun i => isoDate now - 29 + Z.of_nat i) (seq 0 30) /\
  List.length (Stats.trends s) = 30%nat.
Proof.
  intros Hzone H. apply get_stats_Json in H.
  destruct H as [_ [_ [_ [_ [_ [_ [Ht _]]]]]]]. rewrite Ht.
  pose proof (trends_constant_offset LocalTZA offset
                (User.role user =? "municipal_admin")%string (User.id user)
                now db Hzone) as Hd.
  split; [exact Hd|].
  rewrite <- (length_map Trend.date), Hd, length_map. apply length_seq.
Qed.

Lemma trends_on_fixed_offset_host_witness :
  exists s,
    get_stats zone_utc officer early_2_november recent_report_store = Json s /\
    List.length (Stats.trends s) = 30%nat.
Proof.
  destruct (get_stats zone_utc officer early_2_november recent_report_store)
    as [s| |] eqn:E; try (vm_compute in E; discriminate E).
  destruct (trends_on_fixed_offset_host zone_utc 0 officer early_2_november
              recent_report_store s (fun _ _ => eq_refl) E) as [_ H].
  exists s. split; [reflexivity | exact H].
Defined.

(** ** The weekly chart *)

Lemma slice_last_map {A B} (f : A -> B) (k : nat) (l : list A) :
  map f (slice_last k l) = slice_last k (map f l).
Proof. unfold slice_last. now rewrite length_map, skipn_map. Qed.

(** X5.  The weekly chart draws at most seven entries and is empty before the
    first answer has arrived.  On a server whose offset from UTC never
    changes it draws exactly the seven consecutive days that end with the UTC
    date of the request, oldest first. *)
Theorem weekly_chart_last_seven_days (LocalTZA : Z -> bool -> Z) (offset : Z)
  (user : User.t) (now : Z) (db : Store) (s : Stats.t) :
  (forall t isUTC, LocalTZA t isUTC = offset) ->
  get_stats LocalTZA user now db = Json s ->
  map Trend.date (weeklyTrends (Some s)) =
    map (fun i => isoDate now - 6 + Z.of_nat i) (seq 0 7) /\
  (forall stats, (List.length (weeklyTrends stats) <= 7)%nat) /\
  weeklyTrends None = [].
Proof.
  intros Hzone H. apply get_stats_Json in H.
  destruct H as [_ [_ [_ [_ [_ [_ [Ht _]]]]]]].
  split; [|split; [|reflexivity]].
  - cbn [weeklyTrends]. rewrite slice_last_map, Ht.
    rewrite (trends_constant_offset LocalTZA offset _ _ _ _ Hzone).
    unfold slice_last. rewrite length_map, length_seq.
    cbn [Nat.sub seq map skipn].
    repeat (apply f_equal2; [lia|]). reflexivity.
  - intros [s'|]; cbn [weeklyTrends]; [|simpl; lia].
    unfold slice_last. rewrite length_skipn. lia.
Qed.

Lemma weekly_chart_last_seven_days_witness :
  exists s,
    get_stats zone_utc officer early_2_november recent_report_store = Json s /\
    map (fun t => isoDateString (Trend.date t)) (weeklyTrends (Some s)) =
      ["2026-10-27"; "2026-10-28"; "2026-10-29"; "2026-10-30"; "2026-10-31";
       "2026-11-01"; "2026-11-02"].
Proof.
  destruct (get_stats zone_utc officer early_2_november recent_report_store)
    as [s| |] eqn:E; try (vm_compute in E; discriminate E).
  destruct (weekly_chart_last_seven_days zone_utc 0 officer early_2_november
              recent_report_store s (fun _ _ => eq_refl) E) as [H _].
  exists s. split; [reflexivity|].
  rewrite <- (map_map Trend.date isoDateString), H. vm_compute. reflexivity.
Defined.

(** ** The rankings of the strategic report *)

Lemma StronglySorted_weaken {A} (R R' : A -> A -> Prop) (l : list A) :
  (forall a b, In a l -> In b l -> R a b -> R' a b) ->
  StronglySorted R l -> StronglySorted R' l.
Proof.
  intros H S. induction S as [|x l Hs IH Hall]; constructor.
  - apply IH. intros a b Ha Hb. apply H; now right.
  - rewrite Forall_forall in *. intros y Hy.
    apply H; [now left | now right | now apply Hall].
Qed.

Lemma firstn_strongly_sorted {A} (R : A -> A -> Prop) (k : nat) (l : list A) :
  StronglySorted R l -> StronglySorted R (firstn k l).
Proof.
  intros H. revert k.
  induction H as [|x l Hs IH Hall]; intros [|k]; simpl; try constructor.
  - apply IH.
  - rewrite Forall_forall in *. intros y Hy. apply Hall.
    now apply In_firstn in Hy.
Qed.

Lemma firstn_NoDup {A} (k : nat) (l : list A) : NoDup l -> NoDup (firstn k l).
Proof.
  intros H. rewrite <- (firstn_skipn k l) in H.
  now apply NoDup_app_remove_r in H.
Qed.

Lemma sumZ_perm (l l' : list Z) : Permutation l l' -> sumZ l = sumZ l'.
Proof. induction 1; simpl; lia. Qed.

Lemma sumZ_app (l l' : list Z) : sumZ (l ++ l') = sumZ l + sumZ l'.
Proof. induction l as [|x l IH]; simpl; lia. Qed.

Lemma sumZ_nonneg (l : list Z) : (forall x, In x l -> 0 <= x) -> 0 <= sumZ l.
Proof.
  induction l as [|x l IH]; intros H; simpl; [lia|].
  assert (0 <= x) by (apply H; now left).
  assert (0 <= sumZ l) by (apply IH; intros y Hy; apply H; now right). lia.
Qed.

Lemma sum_set (m : dict string Z) (k : string) (v : Z) :
  sumZ (map snd (set String.eqb m k v)) =
  sumZ (map snd m)
  - match get String.eqb m k with Some v0 => v0 | None => 0 end + v.
Proof.
  induction m as [|[k' v'] m IH]; simpl; [lia|].
  destruct (k =? k')%string; simpl; [lia | rewrite IH; lia].
Qed.

(** The counts of the groups add up to the number of rows. *)
Lemma sum_groups {A} (key : A -> string) (rows : list A) :
  sumZ (map snd (accumulate key 0 (fun _ n => n + 1) rows)) =
  Z.of_nat (List.length rows).
Proof.
  unfold accumulate.
  assert (G : forall m : dict string Z,
            sumZ (map snd
                    (fold_left
                       (fun m x =>
                          bump String.eqb m (key x) 0 (fun n => n + 1))
                       rows m)) =
            sumZ (map snd m) + Z.of_nat (List.length rows)).
  { induction rows as [|x rows IH]; intros m.
    - simpl. lia.
    - cbn [fold_left]. rewrite IH. unfold bump.
      destruct (get String.eqb m (key x)) eqn:E; rewrite sum_set, E;
        simpl List.length; lia. }
  rewrite G. reflexivity.
Qed.

Lemma firstn_map_fst {A B} (k : nat) (l : list (A * B)) :
  map fst (firstn k l) = firstn k (map fst l).
Proof. symmetry. apply firstn_map. Qed.

(** X6.  The common issues of [GET /api/reports/strategic] name each category
    at most once and are listed by number of problems, largest first.  Their
    counts add up to at most the number of stored problems.  When fewer than
    five are listed, every category of a stored problem is listed and the
    counts add up to the number of stored problems. *)
Theorem common_issues_ranked (db : Store) :
  NoDup (map fst (commonIssues db)) /\
  StronglySorted
    (fun a b => count (in_category (fst b)) (problems db)
                <= count (in_category (fst a)) (problems db))
    (commonIssues db) /\
  sumZ (map snd (commonIssues db)) <= Z.of_nat (List.length (problems db)) /\
  ((List.length (commonIssues db) < 5)%nat ->
   (forall p, In p (problems db) ->
      In (Problem.category p) (map fst (commonIssues db))) /\
   sumZ (map snd (commonIssues db)) = Z.of_nat (List.length (problems db))).
Proof.
  unfold commonIssues.
  set (groups := groupBy Problem.category 0 (fun _ n => n + 1) (problems db)).
  set (le := fun a b : string * Z => snd b <=? snd a).
  assert (Hgroup : forall e, In e (sort le groups) ->
            1 <= snd e /\ snd e = count (in_category (fst e)) (problems db)).
  { intros [k n] He. apply In_sort in He. now apply category_groups in He. }
  assert (Hsum : sumZ (map snd (sort le groups)) =
                 Z.of_nat (List.length (problems db))).
  { rewrite (sumZ_perm _ (map snd groups)).
    - apply sum_groups.
    - apply Permutation_map, sort_perm. }
  split; [|split; [|split]].
  - rewrite firstn_map_fst. apply firstn_NoDup.
    apply (Permutation_NoDup (l := map fst groups)).
    + apply Permutation_map. symmetry. apply sort_perm.
    + apply (keys_accumulate_NoDup _ _ Problem.category 0
               (fun _ n => n + 1) (problems db)).
  - apply (StronglySorted_weaken (fun a b => le a b = true)).
    + intros a b Ha Hb Hab. apply In_firstn in Ha, Hb.
      destruct (Hgroup a Ha) as [_ <-]. destruct (Hgroup b Hb) as [_ <-].
      now apply Z.leb_le.
    + apply firstn_strongly_sorted.
      apply (sort_strongly_sorted _ le count_desc_total count_desc_trans).
  - rewrite <- Hsum. rewrite <- (firstn_skipn 5 (sort le groups)) at 2.
    rewrite map_app, sumZ_app.
    assert (0 <= sumZ (map snd (skipn 5 (sort le groups)))); [|lia].
    apply sumZ_nonneg. intros x Hx. apply in_map_iff in Hx.
    destruct Hx as [e [<- He]].
    assert (Hin : In e (sort le groups)).
    { rewrite <- (firstn_skipn 5 (sort le groups)). apply in_or_app.
      now right. }
    apply Hgroup in Hin. lia.
  - intros Hshort. apply firstn_short in Hshort. rewrite Hshort.
    split; [|exact Hsum].
    intros p Hp. apply in_map_iff.
    exists (Problem.category p,
            count (in_category (Problem.category p)) (problems db)).
    split; [reflexivity|]. apply In_sort. apply category_groups.
    split; [|reflexivity].
    apply count_pos with p; [exact Hp|].
    unfold in_category. apply String.eqb_refl.
Qed.

(** X7.  The areas of [GET /api/reports/strategic] name each location at most
    once and are listed by the mean score of the location's problems, lowest
    first; a location with a problem that is left out has no lower mean than
    a listed one.  When fewer than five are listed, every location of a
    stored problem is listed. *)
Theorem negative_areas_ranked (db : Store) :
  NoDup (map fst (negativeSentimentAreas db)) /\
  StronglySorted
    (fun a b => (mean_at db (fst a) <= mean_at db (fst b))%Q)
    (negativeSentimentAreas db) /\
  (forall k avg k',
     In (k, avg) (negativeSentimentAreas db) ->
     ~ In k' (map fst (negativeSentimentAreas db)) ->
     filter (at_location k') (problems db) <> [] ->
     (mean_at db k <= mean_at db k')%Q) /\
  ((List.length (negativeSentimentAreas db) < 5)%nat ->
   forall p, In p (problems db) ->
     In (Problem.location p) (map fst (negativeSentimentAreas db))).
Proof.
  unfold negativeSentimentAreas.
  set (groups :=
         map (fun e : string * list Q => (fst e, avgQ (snd e)))
           (groupBy Problem.location []
              (fun p l => l ++ [Problem.sentiment_score p]) (problems db))).
  set (le := fun a b : string * option Q => avg_le (snd a) (snd b)).
  assert (Hentry : forall e, In e (sort le groups) ->
            snd e = Some (mean_at db (fst e))).
  { intros e He. apply In_sort in He. now apply area_entry in He. }
  assert (Hle : forall a b, In a (sort le groups) -> In b (sort le groups) ->
            le a b = true -> (mean_at db (fst a) <= mean_at db (fst b))%Q).
  { intros a b Ha Hb Hab. unfold le in Hab.
    rewrite (Hentry a Ha), (Hentry b Hb) in Hab.
    now apply Qle_bool_iff in Hab. }
  split; [|split; [|split]].
  - rewrite firstn_map_fst. apply firstn_NoDup.
    apply (Permutation_NoDup (l := map fst groups)).
    + apply Permutation_map. symmetry. apply sort_perm.
    + unfold groups. rewrite map_map. cbn [fst].
      apply (keys_accumulate_NoDup _ _ Problem.location []
               (fun p l => l ++ [Problem.sentiment_score p]) (problems db)).
  - apply (StronglySorted_weaken (fun a b => le a b = true)).
    + intros a b Ha Hb. apply In_firstn in Ha, Hb. now apply Hle.
    + apply firstn_strongly_sorted.
      apply (sort_strongly_sorted _ le avg_le_total avg_le_trans).
  - intros k avg k' Hin Hout Hne.
    assert (Hk' : In (k', Some (mean_at db k')) groups).
    { apply area_entry. now split. }
    pose proof (firstn_sort_top _ le avg_le_total avg_le_trans 5 groups
                  (k, avg) (k', Some (mean_at db k')) Hin Hk') as Htop.
    apply (Hle (k, avg) (k', Some (mean_at db k'))).
    + now apply In_firstn in Hin.
    + now apply In_sort.
    + apply Htop. intros H. apply Hout.
      change k' with (fst (k', Some (mean_at db k'))). now apply in_map.
  - intros Hshort p Hp. apply firstn_short in Hshort. rewrite Hshort.
    apply in_map_iff.
    exists (Problem.location p, Some (mean_at db (Problem.location p))).
    split; [reflexivity|]. apply In_sort. apply area_entry. cbn [fst snd].
    split; [|reflexivity].
    intros E.
    assert (Hf : In p (filter (at_location (Problem.location p))
                         (problems db))).
    { apply filter_In. split; [exact Hp|].
      unfold at_location. apply String.eqb_refl. }
    rewrite E in Hf. destruct Hf.
Qed.

(** ** What a request can do to the tables *)

Lemma map_unrated_update (cid n : Z) (avg : Q) (cs : list Cluster.t) :
  map unrated (update_where (cluster.has_id cid) (Cluster.with_stats n avg) cs)
  = map unrated cs.
Proof. now apply map_update_where. Qed.

Lemma map_id_unrated (cs : list Cluster.t) :
  map Cluster.id (map unrated cs) = map Cluster.id cs.
Proof. rewrite map_map. reflexivity. Qed.

Lemma map_frozen_update (id s : string) (r : Problem.t -> option Z)
  (ps : list Problem.t) :
  map frozen
    (update_where (problem.has_id id)
       (fun p => Problem.with_status s (r p) p) ps)
  = map frozen ps.
Proof. now apply map_update_where. Qed.

Lemma map_id_frozen (ps : list Problem.t) :
  map Problem.id (map frozen ps) = map Problem.id ps.
Proof. rewrite map_map. reflexivity. Qed.

(** The three tables after a step, against the tables before it. *)
Lemma step_tables (collate : ascii -> ascii) (backslash : bool)
  (unique_problem : bool) (o : op)
  (db : Store) :
  (problems (step collate backslash unique_problem o db) = problems db \/
   (exists id s r,
      problems (step collate backslash unique_problem o db) =
      update_where (problem.has_id id)
        (fun p => Problem.with_status s (r p) p) (problems db)) \/
   (exists row,
      problems (step collate backslash unique_problem o db) = problems db ++
        [row] /\
      problem.findUnique (Problem.id row) db = None /\
      exists cid,
        Problem.cluster_id row = Some cid /\
        In cid (map Cluster.id (clusters (step collate backslash unique_problem
            o db)))))
  /\
  (map unrated (clusters (step collate backslash unique_problem o db)) =
     map unrated (clusters db) \/
   exists c,
     map unrated (clusters (step collate backslash unique_problem o db)) =
       map unrated (clusters db) ++ [unrated c] /\
     Cluster.id c = cluster.next_id db) /\
  (resolvedComments (step collate backslash unique_problem o db) =
      resolvedComments db \/
   exists c,
     resolvedComments (step collate backslash unique_problem o db) =
       resolvedComments db ++ [c] /\
     existsb (resolvedComment.has_id (ResolvedComment.id c))
       (resolvedComments db) = false /\
     (unique_problem = true ->
      existsb (resolvedComment.of_problem (ResolvedComment.problem_id c))
        (resolvedComments db) = false) /\
     exists p r,
       problem.findUnique (ResolvedComment.problem_id c) db = Some p /\
       Problem.resolved_at p = Some r /\
       ResolvedComment.time_taken c =
         Some ((r - Problem.created_at p) / 1000)).
Proof.
  destruct o as [[user body uuid | user id status
                 | user id rating comment uuid] now | cid |]; cbn [step].
  - unfold post_problem.
    destruct (negb (authorize ["citizen_admin"] user)); [cbn [fst]; tauto|].
    destruct (SubmitBody.analysis body) as [a|]; [|cbn [fst]; tauto].
    destruct (resolve_cluster collate backslash _ _ db) as [db1 cl] eqn:E1.
    pose proof (resolve_cluster_keeps _ _ _ _ _ _ _ E1) as [Hp1 [Hr1 [Hcl _]]].
    assert (Hc1 : map unrated (clusters db1) = map unrated (clusters db) \/
                  exists c,
                    map unrated (clusters db1) =
                      map unrated (clusters db) ++ [unrated c] /\
                    Cluster.id c = cluster.next_id db).
    { unfold resolve_cluster in E1.
      destruct (cluster.findFirst _ db); [injection E1 as <- _; now left|].
      unfold cluster.create in E1. injection E1 as <- <-. right.
      eexists. cbn [clusters]. rewrite map_app. split; reflexivity. }
    destruct (problem.create _ db1) as [db2|] eqn:E2.
    + pose proof (problem_create_Some _ _ _ E2) as [Hnone [Hp2 [Hc2 Hr2]]].
      assert (Hrow : problems db2 =
                     problems db ++ [new_problem user body a uuid now cl] /\
                     problem.findUnique uuid db = None).
      { split; [congruence|]. unfold problem.findUnique in *.
        cbn [new_problem Problem.id] in Hnone. now rewrite <- Hp1. }
      destruct (refresh (Cluster.id cl) db2) as [db3|] eqn:E3; cbn [fst].
      * pose proof (refresh_Some _ _ _ E3) as [Hp3 [Hr3 Hc3]].
        split; [|split].
        -- right. right. exists (new_problem user body a uuid now cl).
           split; [destruct Hrow; congruence|]. split; [apply Hrow|].
           exists (Cluster.id cl). split; [reflexivity|].
           rewrite (refresh_ids _ _ _ E3), Hc2. now apply in_map.
        -- rewrite Hc3, map_unrated_update, Hc2. exact Hc1.
        -- left. congruence.
      * split; [|split].
        -- right. right. exists (new_problem user body a uuid now cl).
           split; [apply Hrow|]. split; [apply Hrow|].
           exists (Cluster.id cl). split; [reflexivity|].
           rewrite Hc2. now apply in_map.
        -- rewrite Hc2. exact Hc1.
        -- left. congruence.
    + cbn [fst]. split; [left; exact Hp1|]. split; [exact Hc1|].
      left. exact Hr1.
  - destruct (patch_status_membership user id status now db) as [_ [Hc Hr]].
    split; [|split; [left; now rewrite Hc | left; exact Hr]].
    unfold patch_status.
    destruct (negb (authorize ["municipal_admin"] user)); [now left|].
    destruct (status =? "Resolved")%string;
      (destruct (problem.update id _ db) as [db'|] eqn:E; [|now left]);
      apply problem_update_Some in E; destruct E as [Hp _]; cbn [fst];
      right; left.
    + exists id, status, (fun _ => Some now). exact Hp.
    + exists id, status, Problem.resolved_at. exact Hp.
  - destruct (post_comment_keeps unique_problem user id rating comment uuid
                now db) as [Hp Hc].
    split; [now left|]. split; [left; now rewrite Hc|].
    unfold post_comment.
    destruct (negb (authorize ["citizen_admin"] user)); [now left|].
    destruct (problem.findUnique id db) as [p|] eqn:Ep; [|now left].
    destruct (Problem.resolved_at p) as [r|] eqn:Er; [|now left].
    destruct (resolvedComment.create unique_problem _ db) as [db'|] eqn:E;
      [|now left].
    pose proof (resolvedComment_create_Some _ _ _ _ E) as [_ [_ Hr]].
    cbn [fst]. right. eexists. split; [exact Hr|].
    cbn [ResolvedComment.id ResolvedComment.problem_id
         ResolvedComment.time_taken].
    unfold resolvedComment.create in E.
    cbn [ResolvedComment.id ResolvedComment.problem_id] in E.
    destruct (existsb (resolvedComment.has_id uuid) (resolvedComments db));
      [discriminate|].
    split; [reflexivity|]. split.
    + intros ->. cbn [andb] in E.
      destruct (existsb (resolvedComment.of_problem id) (resolvedComments db));
        [discriminate | reflexivity].
    + exists p, r. split; [exact Ep|]. split; [exact Er|].
      now rewrite (floor_div _ 1000).
  - destruct (refresh cid db) as [db'|] eqn:E; [|cbn [or_unchanged]; tauto].
    cbn [or_unchanged].
    pose proof (refresh_Some _ _ _ E) as [Hp [Hr Hc]].
    split; [now left|]. split; [|now left].
    left. rewrite Hc. apply map_unrated_update.
  - unfold refresh_all.
    assert (G : forall cs db0 db1, refresh_each cs db0 = Some db1 ->
              problems db1 = problems db0 /\
              resolvedComments db1 = resolvedComments db0 /\
              map unrated (clusters db1) = map unrated (clusters db0)).
    { induction cs as [|c cs IH]; intros db0 db1; cbn [refresh_each].
      - intros [= <-]. tauto.
      - destruct (refresh (Cluster.id c) db0) as [db'|] eqn:E; [|discriminate].
        intros H. apply IH in H. destruct H as [H1 [H2 H3]].
        pose proof (refresh_Some _ _ _ E) as [Hp [Hr Hc]].
        rewrite H1, H2, H3, Hc, map_unrated_update. tauto. }
    destruct (refresh_each (clusters db) db) as [db'|] eqn:E;
      [|cbn [or_unchanged]; tauto].
    cbn [or_unchanged]. apply G in E. destruct E as [H1 [H2 H3]]. tauto.
Qed.

Lemma step_appends (collate : ascii -> ascii) (backslash : bool)
  (unique_problem : bool) (o : op)
  (db : Store) :
  exists ps cs rs,
    map frozen (problems (step collate backslash unique_problem o db)) =
      map frozen (problems db) ++ ps /\
    map unrated (clusters (step collate backslash unique_problem o db)) =
      map unrated (clusters db) ++ cs /\
    resolvedComments (step collate backslash unique_problem o db) =
      resolvedComments db ++ rs.
Proof.
  destruct (step_tables collate backslash unique_problem o db) as [Hp [Hc Hr]].
  assert (Hp' : exists ps,
            map frozen (problems (step collate backslash unique_problem o db)) =
            map frozen (problems db) ++ ps).
  { destruct Hp as [-> | [[id [s [r ->]]] | [row [-> _]]]].
    - exists []. now rewrite app_nil_r.
    - exists []. now rewrite app_nil_r, map_frozen_update.
    - exists [frozen row]. now rewrite map_app. }
  assert (Hc' : exists cs,
            map unrated (clusters (step collate backslash unique_problem o db))
              =
            map unrated (clusters db) ++ cs).
  { destruct Hc as [-> | [c [-> _]]].
    - exists []. now rewrite app_nil_r.
    - now exists [unrated c]. }
  assert (Hr' : exists rs,
            resolvedComments (step collate backslash unique_problem o db) =
            resolvedComments db ++ rs).
  { destruct Hr as [-> | [c [-> _]]].
    - exists []. now rewrite app_nil_r.
    - now exists [c]. }
  destruct Hp' as [ps Hps], Hc' as [cs Hcs], Hr' as [rs Hrs].
  now exists ps, cs, rs.
Qed.

Lemma run_appends (collate : ascii -> ascii) (backslash : bool)
  (unique_problem : bool)
  (ops : list op) (db : Store) :
  exists ps cs rs,
    map frozen (problems (run collate backslash unique_problem ops db)) =
      map frozen (problems db) ++ ps /\
    map unrated (clusters (run collate backslash unique_problem ops db)) =
      map unrated (clusters db) ++ cs /\
    resolvedComments (run collate backslash unique_problem ops db) =
      resolvedComments db ++ rs.
Proof.
  revert db. induction ops as [|o ops IH]; intros db.
  - exists [], [], []. cbn [run fold_left]. now rewrite !app_nil_r.
  - cbn [run fold_left].
    destruct (IH (step collate backslash unique_problem o db))
      as [ps [cs [rs [Hp [Hc Hr]]]]].
    destruct (step_appends collate backslash unique_problem o db)
      as [ps0 [cs0 [rs0 [Hp0 [Hc0 Hr0]]]]].
    exists (ps0 ++ ps), (cs0 ++ cs), (rs0 ++ rs).
    unfold run in Hp, Hc, Hr.
    rewrite Hp, Hc, Hr, Hp0, Hc0, Hr0, <- !app_assoc. tauto.
Qed.

(** X8.  No request and no refresh deletes a row or rewrites what a row was
    created with.  Along every history the problems of the store stay, in
    their order, with everything but [status] and [resolved_at] as it was;
    the clusters stay with everything but their statistics as it was; the
    comments stay unchanged; new rows are added at the end.  So a report that
    can be looked up can be looked up ever after, with the same owner,
    creation time, score and cluster. *)
Theorem history_only_appends (collate : ascii -> ascii) (backslash : bool)
  (unique_problem : bool)
  (ops : list op) (db : Store) :
  (exists ps cs rs,
     map frozen (problems (run collate backslash unique_problem ops db)) =
       map frozen (problems db) ++ ps /\
     map unrated (clusters (run collate backslash unique_problem ops db)) =
       map unrated (clusters db) ++ cs /\
     resolvedComments (run collate backslash unique_problem ops db) =
       resolvedComments db ++ rs) /\
  (forall id p,
     problem.findUnique id db = Some p ->
     exists p',
       problem.findUnique id (run collate backslash unique_problem ops db) =
         Some p' /\
       frozen p' = frozen p).
Proof.
  pose proof (run_appends collate backslash unique_problem ops db) as H.
  split; [exact H|].
  destruct H as [ps [_ [_ [Hp _]]]].
  intros id p Hfind. unfold problem.findUnique in *.
  revert Hp Hfind.
  generalize (problems (run collate backslash unique_problem ops db)) as l'.
  induction (problems db) as [|q l IH]; intros l' Hp Hfind; [discriminate|].
  destruct l' as [|q' l']; [discriminate|].
  cbn [map app] in Hp.
  assert (Hq : frozen q' = frozen q)
    by (apply (f_equal (fun l => hd (frozen q) l)) in Hp; exact Hp).
  assert (Hl : map frozen l' = map frozen l ++ ps)
    by (apply (f_equal (@tl _)) in Hp; exact Hp).
  assert (Hid : problem.has_id id q' = problem.has_id id q).
  { unfold problem.has_id.
    apply (f_equal Problem.id) in Hq.
    cbn [frozen Problem.with_status Problem.id] in Hq. now rewrite Hq. }
  cbn [find] in *. rewrite Hid.
  destruct (problem.has_id id q).
  - injection Hfind as <-. now exists q'.
  - now apply IH.
Qed.

(** ** Keys *)

Lemma find_none_fresh (id : string) (ps : list Problem.t) :
  find (problem.has_id id) ps = None -> ~ In id (map Problem.id ps).
Proof.
  intros H Hin. apply in_map_iff in Hin. destruct Hin as [p [E Hp]].
  apply (find_none _ _ H) in Hp. unfold problem.has_id in Hp.
  rewrite E, String.eqb_refl in Hp. discriminate.
Qed.

Lemma existsb_has_id_fresh (id : string) (cs : list ResolvedComment.t) :
  existsb (resolvedComment.has_id id) cs = false ->
  ~ In id (map ResolvedComment.id cs).
Proof.
  intros H Hin. apply in_map_iff in Hin. destruct Hin as [c [E Hc]].
  assert (Ht : existsb (resolvedComment.has_id id) cs = true).
  { apply existsb_exists. exists c. split; [exact Hc|].
    unfold resolvedComment.has_id. rewrite E. apply String.eqb_refl. }
  congruence.
Qed.

Lemma NoDup_snoc {A} (l : list A) (x : A) :
  NoDup l -> ~ In x l -> NoDup (l ++ [x]).
Proof.
  intros Hl Hx. apply NoDup_app; [exact Hl | repeat constructor; intros [] |].
  intros y Hy [<- | []]. contradiction.
Qed.

Lemma step_cluster_ids (collate : ascii -> ascii) (backslash : bool)
  (unique_problem : bool)
  (o : op) (db : Store) :
  map Cluster.id (clusters (step collate backslash unique_problem o db)) =
    map Cluster.id (clusters db) \/
  map Cluster.id (clusters (step collate backslash unique_problem o db)) =
    map Cluster.id (clusters db) ++ [cluster.next_id db].
Proof.
  destruct (step_tables collate backslash unique_problem o db) as [_ [Hc _]].
  rewrite <- (map_id_unrated (clusters (step collate backslash unique_problem o
      db))).
  rewrite <- (map_id_unrated (clusters db)).
  destruct Hc as [-> | [c [-> Hid]]]; [now left|].
  right. rewrite map_app. cbn [map unrated Cluster.with_stats Cluster.id].
  now rewrite Hid.
Qed.

Lemma next_id_not_in (db : Store) :
  ~ In (cluster.next_id db) (map Cluster.id (clusters db)).
Proof.
  intros H. apply in_map_iff in H. destruct H as [c [E Hc]].
  apply next_id_fresh in Hc. lia.
Qed.

Lemma step_ids_unique (collate : ascii -> ascii) (backslash : bool)
  (unique_problem : bool)
  (o : op) (db : Store) :
  ids_unique db -> ids_unique (step collate backslash unique_problem o db).
Proof.
  intros [Hp [Hc Hr]].
  destruct (step_tables collate backslash unique_problem o db) as [Tp [_ Tr]].
  split; [|split].
  - rewrite <- (map_id_frozen (problems (step collate backslash unique_problem o
      db))).
    destruct Tp as [-> | [[id [s [r ->]]] | [row [-> [Hnone _]]]]].
    + now rewrite map_id_frozen.
    + now rewrite map_frozen_update, map_id_frozen.
    + rewrite map_id_frozen, map_app. cbn [map].
      apply NoDup_snoc; [exact Hp | now apply find_none_fresh].
  - destruct (step_cluster_ids collate backslash unique_problem o db) as [-> |
      ->];
      [exact Hc|].
    apply NoDup_snoc; [exact Hc | apply next_id_not_in].
  - destruct Tr as [-> | [c [-> [Hfresh _]]]]; [exact Hr|].
    rewrite map_app. cbn [map].
    apply NoDup_snoc; [exact Hr | now apply existsb_has_id_fresh].
Qed.

(** X9.  The keys stay keys.  If no two problems, no two clusters and no two
    comments of a store share an id, the same holds after every history of
    requests and refreshes: a submission or a feedback whose generated id is
    taken writes nothing under that id, and a new cluster is numbered above
    all that exist. *)
Theorem ids_stay_unique (collate : ascii -> ascii) (backslash : bool)
  (unique_problem : bool)
  (ops : list op) (db : Store) :
  ids_unique db -> ids_unique (run collate backslash unique_problem ops db).
Proof.
  revert db. induction ops as [|o ops IH]; intros db H; [exact H|].
  cbn [run fold_left]. apply IH. now apply step_ids_unique.
Qed.

Lemma ids_stay_unique_witness : ids_unique reopened_store.
Proof.
  apply (ids_stay_unique binary false false reopen_history empty_store).
  repeat split; constructor.
Defined.

(** ** Every report is counted by one cluster *)

Lemma step_problem_origin (collate : ascii -> ascii) (backslash : bool)
  (unique_problem : bool)
  (o : op) (db : Store) (p : Problem.t) :
  In p (problems (step collate backslash unique_problem o db)) ->
  (exists p0, In p0 (problems db) /\ frozen p0 = frozen p) \/
  (exists cid,
     Problem.cluster_id p = Some cid /\
     In cid (map Cluster.id (clusters (step collate backslash unique_problem o
         db)))).
Proof.
  destruct (step_tables collate backslash unique_problem o db) as [Tp _].
  destruct Tp as [-> | [[id [s [r ->]]] | [row [-> [_ Hrow]]]]]; intros Hin.
  - left. now exists p.
  - left. apply In_update_where in Hin. destruct Hin as [p0 [Hp0 ->]].
    exists p0. split; [exact Hp0|]. now destruct (problem.has_id id p0).
  - apply in_app_or in Hin. destruct Hin as [Hin | [<- | []]].
    + left. now exists p.
    + now right.
Qed.

Lemma step_well_clustered (collate : ascii -> ascii) (backslash : bool)
  (unique_problem : bool)
  (o : op) (db : Store) :
  well_clustered db -> well_clustered (step collate backslash unique_problem o
      db).
Proof.
  intros [Hcons [Hnd Hall]].
  assert (Hrefs : cluster_refs_ok db).
  { intros p cid Hp E. destruct (Hall p Hp) as [c [Hc E']].
    exists c. split; [exact Hc | congruence]. }
  destruct (step_invariant collate backslash unique_problem o db (conj Hcons
      Hrefs))
    as [Hcons' _].
  split; [exact Hcons'|]. split.
  - destruct (step_cluster_ids collate backslash unique_problem o db) as [-> |
      ->];
      [exact Hnd|].
    apply NoDup_snoc; [exact Hnd | apply next_id_not_in].
  - intros p Hp.
    assert (Hcid : exists cid,
              Problem.cluster_id p = Some cid /\
              In cid (map Cluster.id
                        (clusters (step collate backslash unique_problem o
                            db)))).
    { destruct (step_problem_origin collate backslash unique_problem o db p Hp)
        as [[p0 [Hp0 E]] | H]; [|exact H].
      destruct (Hall p0 Hp0) as [c [Hc Ec]]. exists (Cluster.id c).
      apply (f_equal Problem.cluster_id) in E.
      cbn [frozen Problem.with_status Problem.cluster_id] in E.
      split; [congruence|].
      destruct (step_cluster_ids collate backslash unique_problem o db) as [-> |
          ->].
      - now apply in_map.
      - apply in_or_app. left. now apply in_map. }
    destruct Hcid as [cid [E Hin]]. apply in_map_iff in Hin.
    destruct Hin as [c [<- Hc]]. now exists c.
Qed.

Lemma sumZ_map_add {A} (f g : A -> Z) (l : list A) :
  sumZ (map (fun x => f x + g x) l) = sumZ (map f l) + sumZ (map g l).
Proof. induction l as [|x l IH]; simpl; lia. Qed.

Lemma sumZ_map_zero {A} (f : A -> Z) (l : list A) :
  (forall x, In x l -> f x = 0) -> sumZ (map f l) = 0.
Proof.
  induction l as [|x l IH]; intros H; simpl; [reflexivity|].
  rewrite (H x) by now left. rewrite IH; [reflexivity|].
  intros y Hy. apply H. now right.
Qed.

Lemma one_hot (p : Problem.t) (cs : list Cluster.t) :
  NoDup (map Cluster.id cs) ->
  (exists c, In c cs /\ Problem.cluster_id p = Some (Cluster.id c)) ->
  sumZ (map (fun c => if in_cluster (Cluster.id c) p then 1 else 0) cs) = 1.
Proof.
  intros Hnd [c0 [Hc0 E]]. unfold in_cluster. rewrite E. clear E.
  induction cs as [|c cs IH]; [destruct Hc0|].
  inversion Hnd as [|? ? Hnot Hnd']; subst. cbn [map sumZ].
  destruct Hc0 as [-> | Hc0].
  - rewrite Z.eqb_refl. rewrite sumZ_map_zero; [reflexivity|].
    intros c Hc. destruct (Z.eqb_spec (Cluster.id c0) (Cluster.id c)) as [E|E];
      [|reflexivity].
    exfalso. apply Hnot. rewrite E. now apply in_map.
  - rewrite (IH Hnd' Hc0).
    destruct (Z.eqb_spec (Cluster.id c0) (Cluster.id c)) as [E|E];
      [|reflexivity].
    exfalso. apply Hnot. rewrite <- E. now apply in_map.
Qed.

Lemma sum_member_counts (cs : list Cluster.t) (ps : list Problem.t) :
  NoDup (map Cluster.id cs) ->
  (forall p, In p ps ->
     exists c, In c cs /\ Problem.cluster_id p = Some (Cluster.id c)) ->
  sumZ (map (fun c => count (in_cluster (Cluster.id c)) ps) cs) =
  Z.of_nat (List.length ps).
Proof.
  intros Hnd. induction ps as [|p ps IH]; intros H.
  - now apply sumZ_map_zero.
  - rewrite (map_ext _
               (fun c => (if in_cluster (Cluster.id c) p then 1 else 0)
                         + count (in_cluster (Cluster.id c)) ps))
      by (intros c; apply count_cons).
    rewrite sumZ_map_add, IH by (intros q Hq; apply H; now right).
    rewrite one_hot; [simpl List.length; lia | exact Hnd |].
    apply H. now left.
Qed.

(** X10.  Every report filed through the server belongs to exactly one
    cluster, and the clusters count them all.  If in a store every problem
    names an existing cluster, cluster ids are distinct and the statistics
    are right, then after every history of requests and refreshes the same
    holds, and the [problem_count] of the clusters add up to the number of
    problems. *)
Theorem cluster_counts_cover_all_reports (collate : ascii -> ascii)
  (backslash : bool)
  (unique_problem : bool) (ops : list op) (db : Store) :
  well_clustered db ->
  well_clustered (run collate backslash unique_problem ops db) /\
  sumZ (map Cluster.problem_count
          (clusters (run collate backslash unique_problem ops db))) =
  Z.of_nat (List.length (problems (run collate backslash unique_problem ops
      db))).
Proof.
  intros H.
  assert (Hrun : well_clustered (run collate backslash unique_problem ops db)).
  { revert db H. induction ops as [|o ops IH]; intros db H; [exact H|].
    cbn [run fold_left]. apply IH. now apply step_well_clustered. }
  split; [exact Hrun|].
  destruct Hrun as [Hcons [Hnd Hall]].
  rewrite <- (sum_member_counts _ _ Hnd Hall). f_equal.
  apply map_ext_in. intros c Hc. now destruct (Hcons c Hc) as [E _].
Qed.

Lemma cluster_counts_cover_all_reports_witness :
  sumZ (map Cluster.problem_count (clusters two_reports_store)) = 2.
Proof.
  destruct (cluster_counts_cover_all_reports binary false false
              [Req (PostProblem citizen
                      (report "Kottapeta" (-8 # 10) "Water Leakage") "p1")
                   (early_2_november - 2 * msPerDay);
               Req (PostProblem neighbour (report "Main Road" (-4 # 10) "Water")
                      "p2") (early_2_november - msPerDay)]
              empty_store) as [_ H].
  - split; [intros c [] | split; [constructor | intros p []]].
  - exact H.
Defined.

(** ** Resolution times are not negative *)

Lemma time_ok_seconds (c : ResolvedComment.t) : time_ok c -> 0 <= seconds c.
Proof.
  intros [s [E Hs]]. unfold seconds, JS.or_zero. rewrite E.
  destruct (s =? 0); lia.
Qed.

Lemma round_nonneg (total n : Z) :
  0 <= total -> 0 < n ->
  (0 <= inject_Z (JS.round (JS.div total n / inject_Z 3600)))%Q.
Proof.
  intros Ht Hn.
  assert (H0 : (0 <= JS.div total n / inject_Z 3600)%Q).
  { apply Qle_shift_div_l; [reflexivity|]. rewrite Qmult_0_l.
    unfold JS.div. apply Qle_shift_div_l.
    - change (inject_Z 0 < inject_Z n)%Q. rewrite <- Zlt_Qlt. exact Hn.
    - rewrite Qmult_0_l. change (inject_Z 0 <= inject_Z total)%Q.
      rewrite <- Zle_Qle. exact Ht. }
  change 0%Q with (inject_Z 0). rewrite <- Zle_Qle. unfold JS.round.
  change 0 with (Qfloor 0). apply Qfloor_resp_le.
  apply Qle_trans with (JS.div total n / inject_Z 3600)%Q; [exact H0|].
  rewrite <- (Qplus_0_r (JS.div total n / inject_Z 3600)) at 1.
  apply Qplus_le_r. discriminate.
Qed.

Lemma step_times_ok (collate : ascii -> ascii) (backslash : bool)
  (unique_problem : bool)
  (t : Z) (o : op) (db : Store) :
  lifecycle_ok t db ->
  (forall c, In c (resolvedComments db) -> time_ok c) ->
  forall c, In c (resolvedComments (step collate backslash unique_problem o db))
    ->
            time_ok c.
Proof.
  intros Hlife Hok c.
  destruct (step_tables collate backslash unique_problem o db) as [_ [_ Tr]].
  destruct Tr as [-> | [c0 [-> [_ [_ [p [r [Hp [Hr Ht]]]]]]]]]; [apply Hok|].
  intros Hin. apply in_app_or in Hin. destruct Hin as [Hin | [<- | []]];
    [now apply Hok|].
  exists ((r - Problem.created_at p) / 1000). split; [exact Ht|].
  apply find_some in Hp. destruct Hp as [Hp _].
  destruct (Hlife p Hp) as [_ [_ H3]]. specialize (H3 r Hr).
  apply Z.div_pos; lia.
Qed.

(** X11.  Feedback written by the server never carries a negative
    [time_taken].  Along every history whose clock does not run backwards,
    from a store in which every report was resolved at or after its creation
    and every comment has a [time_taken] that is not negative, every comment
    has such a [time_taken]; and if every comment belongs to an existing
    problem, no [avg_time] of [GET /api/stats] is negative. *)
Theorem feedback_times_nonnegative (collate : ascii -> ascii) (backslash : bool)
  (unique_problem : bool) (t : Z) (ops : list op) (db : Store) :
  lifecycle_ok t db -> clock_from t ops ->
  (forall c, In c (resolvedComments db) -> time_ok c) ->
  (forall c, In c (resolvedComments (run collate backslash unique_problem ops
      db)) ->
             time_ok c) /\
  (comments_ok db ->
   forall LocalTZA user now s,
     get_stats LocalTZA user now (run collate backslash unique_problem ops db) =
       Json s ->
     forall e, In e (Stats.resolutionTimes s) ->
               (0 <= ResolutionTime.avg_time e)%Q).
Proof.
  intros Hlife Hclock Hok.
  assert (Hrun : forall c,
            In c (resolvedComments (run collate backslash unique_problem ops
                db)) ->
            time_ok c).
  { revert t db Hlife Hclock Hok.
    induction ops as [|o ops IH]; intros t db Hlife Hclock Hok; [exact Hok|].
    cbn [run fold_left].
    assert (H1 : clock_from t [o] /\ clock_from (clock_end t [o]) ops).
    { destruct o as [r now | cid |]; cbn [clock_from clock_end] in *; tauto. }
    destruct H1 as [Ho Hops].
    apply (IH (clock_end t [o])); [|exact Hops|].
    - now apply step_lifecycle.
    - now apply (step_times_ok collate backslash unique_problem t). }
  split; [exact Hrun|].
  intros Hcok LocalTZA user now s Hs e He.
  set (db' := run collate backslash unique_problem ops db) in *.
  assert (Hcok' : comments_ok db') by now apply run_comments_ok.
  apply get_stats_Json in Hs.
  destruct Hs as [_ [_ [_ [_ [_ [_ [_ [raw [Hraw Hres]]]]]]]]].
  destruct (findMany_with_category_spec db' Hcok') as [raw' [Hraw' [Hfst Hcat]]].
  assert (raw' = raw) by congruence. subst raw'.
  rewrite Hres in He. unfold resolutionTimes_hours in He.
  apply in_map_iff in He. destruct He as [[k [total n]] [<- Hin]].
  cbn [ResolutionTime.avg_time fst snd].
  destruct (resolutionTimesMap_entries db' raw k (total, n) Hfst Hcat Hin)
    as [Hne E].
  injection E as -> ->.
  apply round_nonneg.
  - apply sumZ_nonneg. intros x Hx. apply in_map_iff in Hx.
    destruct Hx as [c [<- Hc]]. apply time_ok_seconds, Hrun.
    unfold comments_in in Hc. now apply filter_In in Hc.
  - destruct (comments_in db' k); [contradiction | simpl List.length; lia].
Qed.

Lemma feedback_times_nonnegative_witness :
  Forall time_ok (resolvedComments rated_store).
Proof.
  apply Forall_forall.
  apply (feedback_times_nonnegative binary false false 0
           [Req (PostProblem citizen (report "Kottapeta" (-8 # 10) "Water") "p1")
                (early_2_november - msPerDay);
            Req (PatchStatus officer "p1" "Resolved")
                (early_2_november - msPerDay + 7200000);
            Req (PostComment citizen "p1" "Good" "Thank you" "c1")
                (early_2_november - 3600000)]
           empty_store).
  - intros p [].
  - vm_compute. repeat split; discriminate.
  - intros c [].
Defined.

(** ** A status update, and a submission that fails *)

Lemma find_update_other (id id' : string) (data : Problem.t -> Problem.t)
  (ps : list Problem.t) :
  (forall p, Problem.id (data p) = Problem.id p) -> id' <> id ->
  find (problem.has_id id') (update_where (problem.has_id id) data ps) =
  find (problem.has_id id') ps.
Proof.
  intros Hid Hne. unfold update_where.
  induction ps as [|p ps IH]; [reflexivity|]. cbn [map find].
  destruct (problem.has_id id p) eqn:E.
  - unfold problem.has_id in *. rewrite Hid.
    apply String.eqb_eq in E. rewrite E.
    apply String.eqb_neq in Hne. rewrite String.eqb_sym in Hne.
    now rewrite Hne.
  - now rewrite IH.
Qed.

(** X12.  A status update by a municipal caller concerns one report.  When
    no report has the id, the answer is 500 [Failed to update status] and the
    store is left as it was.  In every case every other report can be looked
    up as before, nothing but [status] and [resolved_at] of a report changes,
    and the clusters with their statistics and the comments are left as they
    were. *)
Theorem status_update_touches_one_report (user : User.t) (id status : string)
  (now : Z) (db : Store) :
  authorize ["municipal_admin"] user = true ->
  (problem.findUnique id db = None ->
   patch_status user id status now db =
   (db, Status 500 "Failed to update status")) /\
  (forall id', id' <> id ->
     problem.findUnique id' (fst (patch_status user id status now db)) =
     problem.findUnique id' db) /\
  map frozen (problems (fst (patch_status user id status now db))) =
    map frozen (problems db) /\
  clusters (fst (patch_status user id status now db)) = clusters db /\
  resolvedComments (fst (patch_status user id status now db)) =
    resolvedComments db.
Proof.
  intros Hauth.
  destruct (patch_status_membership user id status now db) as [_ [Hc Hr]].
  split; [|split; [|split; [|split; [exact Hc | exact Hr]]]].
  - intros Hnone. unfold patch_status, problem.update.
    rewrite Hauth, Hnone. cbn [negb]. now destruct (status =? "Resolved")%string.
  - intros id' Hne. unfold patch_status. rewrite Hauth. cbn [negb].
    destruct (status =? "Resolved")%string;
      (destruct (problem.update id _ db) as [db'|] eqn:E; [|reflexivity]);
      apply problem_update_Some in E; destruct E as [Hp _]; cbn [fst];
      unfold problem.findUnique; rewrite Hp;
      now apply find_update_other.
  - unfold patch_status. rewrite Hauth. cbn [negb].
    destruct (status =? "Resolved")%string;
      (destruct (problem.update id _ db) as [db'|] eqn:E; [|reflexivity]);
      apply problem_update_Some in E; destruct E as [Hp _]; cbn [fst];
      rewrite Hp.
    + apply (map_frozen_update id status (fun _ => Some now)).
    + apply (map_frozen_update id status Problem.resolved_at).
Qed.

Lemma status_update_touches_one_report_witness :
  patch_status officer "p2" "Resolved" early_2_november recent_report_store =
  (recent_report_store, Status 500 "Failed to update status").
Proof.
  destruct (status_update_touches_one_report officer "p2" "Resolved"
              early_2_november recent_report_store eq_refl) as [H _].
  apply H. reflexivity.
Defined.

(** X13.  A submission that fails writes no problem, but it is not undone.
    For a citizen caller: without [analysis] in the body the answer is 500
    [Failed to save problem] and the store is left as it was.  When the
    generated id is taken, the answer is 500 as well; if a cluster matched the
    suggestion the store is left as it was, but if none matched, the cluster
    that was created for the report stays, named after the suggestion, with
    no report and the default statistics. *)
Theorem failed_submission_is_not_undone (collate : ascii -> ascii)
  (backslash : bool)
  (user : User.t) (body : SubmitBody.t) (uuid : string) (now : Z)
  (db : Store) :
  authorize ["citizen_admin"] user = true ->
  (SubmitBody.analysis body = None ->
   post_problem collate backslash user body uuid now db =
   (db, Status 500 "Failed to save problem")) /\
  (forall a p0,
     SubmitBody.analysis body = Some a ->
     problem.findUnique uuid db = Some p0 ->
     match cluster.findFirst
             (name_contains collate backslash (Analysis.cluster_suggestion a))
               db with
     | Some _ =>
         post_problem collate backslash user body uuid now db =
         (db, Status 500 "Failed to save problem")
     | None =>
         post_problem collate backslash user body uuid now db =
         ({| problems := problems db;
             clusters :=
               clusters db ++
               [{| Cluster.id := cluster.next_id db;
                   Cluster.cluster_name := Analysis.cluster_suggestion a;
                   Cluster.area := SubmitBody.location body;
                   Cluster.problem_count := default_problem_count;
                   Cluster.avg_sentiment := default_avg_sentiment |}];
             resolvedComments := resolvedComments db |},
          Status 500 "Failed to save problem")
     end).
Proof.
  intros Hauth. split.
  - intros Hnone. unfold post_problem. now rewrite Hauth, Hnone.
  - intros a p0 Ha Hp0. unfold post_problem, resolve_cluster.
    rewrite Hauth, Ha. cbn [negb].
    destruct (cluster.findFirst _ db) as [c|].
    + unfold problem.create. cbn [new_problem Problem.id]. now rewrite Hp0.
    + unfold cluster.create, problem.create, problem.findUnique.
      cbn [new_problem Problem.id problems].
      unfold problem.findUnique in Hp0. now rewrite Hp0.
Qed.

Lemma failed_submission_is_not_undone_witness :
  clusters
    (fst (post_problem binary false citizen (report "Main Road" (-4 # 10)
        "Roads")
            "p1" early_2_november recent_report_store))
  <> clusters recent_report_store /\
  problems
    (fst (post_problem binary false citizen (report "Main Road" (-4 # 10)
        "Roads")
            "p1" early_2_november recent_report_store))
  = problems recent_report_store.
Proof.
  destruct (failed_submission_is_not_undone binary false citizen
              (report "Main Road" (-4 # 10) "Roads") "p1" early_2_november
              recent_report_store eq_refl) as [_ H].
  destruct (problem.findUnique "p1" recent_report_store) as [p0|] eqn:E;
    [|vm_compute in E; discriminate E].
  specialize (H (judgment (-4 # 10) "Roads") p0 eq_refl eq_refl).
  assert (Hf : cluster.findFirst
                 (name_contains binary false
                    (Analysis.cluster_suggestion (judgment (-4 # 10) "Roads")))
                 recent_report_store = None) by reflexivity.
  rewrite Hf in H. rewrite H. cbn [fst clusters problems].
  split; [|reflexivity].
  intros Heq. apply (f_equal (@List.length _)) in Heq.
  rewrite length_app in Heq. simpl List.length in Heq. lia.
Defined.

(** ** Reading the feedback back *)

Lemma find_app_l {A} (f : A -> bool) (l l' : list A) (x : A) :
  find f l = Some x -> find f (l ++ l') = Some x.
Proof.
  induction l as [|y l IH]; simpl; [discriminate|].
  destruct (f y); [trivial | exact IH].
Qed.

Lemma find_app_r {A} (f : A -> bool) (l l' : list A) :
  find f l = None -> find f (l ++ l') = find f l'.
Proof.
  induction l as [|y l IH]; simpl; [reflexivity|].
  destruct (f y); [discriminate | exact IH].
Qed.

(** X14.  [GET /api/problems/:id/comment] shows the first feedback of the
    report, for good.  Once a feedback is shown for a report, the same one is
    shown after every history of requests and refreshes.  After a feedback has
    been accepted, a feedback is shown for the report; it is the accepted one,
    with the [time_taken] of the answer, when none was shown before.  Where
    [problem_id] is not unique, a second feedback is stored, but the first
    one stays the one that is shown. *)
Theorem first_feedback_is_shown (collate : ascii -> ascii) (backslash : bool)
  (unique_problem : bool) :
  (forall ops id db c,
     get_comment id db = Json (Some c) ->
     get_comment id (run collate backslash unique_problem ops db) = Json (Some
         c)) /\
  (forall user id rating comment uuid now db db' t,
     post_comment unique_problem user id rating comment uuid now db =
       (db', Json t) ->
     exists c,
       get_comment id db' = Json (Some c) /\
       ResolvedComment.problem_id c = id /\
       (get_comment id db = Json None ->
        ResolvedComment.id c = uuid /\
        ResolvedComment.citizen_id c = User.id user /\
        ResolvedComment.rating c = rating /\
        ResolvedComment.comment c = comment /\
        ResolvedComment.time_taken c = Some t)) /\
  (forall user id rating comment uuid now db db' t c0,
     post_comment unique_problem user id rating comment uuid now db =
       (db', Json t) ->
     get_comment id db = Json (Some c0) ->
     get_comment id db' = Json (Some c0) /\
     List.length (resolvedComments db') =
       S (List.length (resolvedComments db))).
Proof.
  assert (Hpost : forall user id rating comment uuid now db db' t,
            post_comment unique_problem user id rating comment uuid now db =
              (db', Json t) ->
            exists c,
              resolvedComments db' = resolvedComments db ++ [c] /\
              ResolvedComment.problem_id c = id /\
              ResolvedComment.id c = uuid /\
              ResolvedComment.citizen_id c = User.id user /\
              ResolvedComment.rating c = rating /\
              ResolvedComment.comment c = comment /\
              ResolvedComment.time_taken c = Some t).
  { intros user id rating comment uuid now db db' t. unfold post_comment.
    destruct (negb (authorize ["citizen_admin"] user)); [discriminate|].
    destruct (problem.findUnique id db) as [p|]; [|discriminate].
    destruct (Problem.resolved_at p) as [r|]; [|discriminate].
    destruct (resolvedComment.create unique_problem _ db) as [db1|] eqn:E;
      [|discriminate].
    intros [= <- <-].
    apply resolvedComment_create_Some in E. destruct E as [_ [_ Hr]].
    eexists. split; [exact Hr|]. repeat split. }
  split; [|split].
  - intros ops id db c H. unfold get_comment in *. injection H as H.
    destruct (run_appends collate backslash unique_problem ops db)
      as [_ [_ [rs [_ [_ Hr]]]]].
    rewrite Hr. f_equal. now apply find_app_l.
  - intros user id rating comment uuid now db db' t H.
    destruct (Hpost _ _ _ _ _ _ _ _ _ H)
      as [c [Hr [H1 [H2 [H3 [H4 [H5 H6]]]]]]].
    unfold get_comment. rewrite Hr.
    destruct (find (resolvedComment.of_problem id) (resolvedComments db))
      as [c0|] eqn:E.
    + exists c0. split; [f_equal; now apply find_app_l|].
      split; [|discriminate].
      apply find_some in E. destruct E as [_ E].
      now apply String.eqb_eq in E.
    + exists c. split.
      * f_equal. rewrite find_app_r by exact E. cbn [find].
        unfold resolvedComment.of_problem. now rewrite H1, String.eqb_refl.
      * split; [exact H1|]. intros _. tauto.
  - intros user id rating comment uuid now db db' t c0 H Hshown.
    destruct (Hpost _ _ _ _ _ _ _ _ _ H) as [c [Hr _]].
    unfold get_comment in *. injection Hshown as Hshown. rewrite Hr. split.
    + f_equal. now apply find_app_l.
    + rewrite length_app. simpl List.length. lia.
Qed.

(** ** The charts of the dashboard *)

(** X15.  The category chart of the dashboard has one bar for each category
    that occurs among the problems it was given, and no other; the value of
    a bar is the number of those problems with that category, at least 1;
    the values add up to the number of problems. *)
Theorem category_chart_counts (problems : list Problem.t) :
  NoDup (map fst (categoryData problems)) /\
  (forall name value,
     In (name, value) (categoryData problems) <->
     1 <= value /\ value = count (in_category name) problems) /\
  (forall p, In p problems ->
     In (Problem.category p) (map fst (categoryData problems))) /\
  sumZ (map snd (categoryData problems)) = Z.of_nat (List.length problems).
Proof.
  unfold categoryData. split; [|split; [|split]].
  - apply (keys_accumulate_NoDup _ _ Problem.category 0 (fun _ n => n + 1)).
  - intros name value. apply category_groups.
  - intros p Hp. apply in_map_iff.
    exists (Problem.category p, count (in_category (Problem.category p)) problems).
    split; [reflexivity|]. apply category_groups. split; [|reflexivity].
    apply count_pos with p; [exact Hp|].
    unfold in_category. apply String.eqb_refl.
  - apply sum_groups.
Qed.

Lemma sort_of_sorted {A} (le : A -> A -> bool) (l : list A) :
  Sorted (fun a b => le a b = true) l -> sort le l = l.
Proof.
  induction 1 as [|x l Hs IH Hhd]; simpl; [reflexivity|].
  rewrite IH. destruct Hhd as [|y l' Hxy]; simpl; [reflexivity|].
  now rewrite Hxy.
Qed.

Lemma byProblemCount_total (a b : Cluster.t) :
  byProblemCount a b = true \/ byProblemCount b a = true.
Proof. unfold byProblemCount. rewrite !Z.leb_le. lia. Qed.

Lemma byProblemCount_trans (a b c : Cluster.t) :
  byProblemCount a b = true -> byProblemCount b c = true ->
  byProblemCount a c = true.
Proof. unfold byProblemCount. rewrite !Z.leb_le. lia. Qed.

(** X16.  A cluster chart of the dashboard shows at most eight clusters, all
    of them among the clusters it was given, ordered by [problem_count],
    largest first; no cluster that is left out has a larger count than one
    that is shown.  The sort rearranges the array of clusters in place without
    adding or dropping one, and sorting again changes nothing: the second
    chart shows what the first one shows. *)
Theorem cluster_chart_top_eight (clusters : list Cluster.t) :
  (List.length (clusterChart clusters) <= 8)%nat /\
  (forall c, In c (clusterChart clusters) -> In c clusters) /\
  StronglySorted
    (fun a b => Cluster.problem_count b <= Cluster.problem_count a)
    (clusterChart clusters) /\
  (forall c c',
     In c (clusterChart clusters) -> In c' clusters ->
     ~ In c' (clusterChart clusters) ->
     Cluster.problem_count c' <= Cluster.problem_count c) /\
  Permutation (sortedClusters clusters) clusters /\
  sortedClusters (sortedClusters clusters) = sortedClusters clusters /\
  clusterChart (sortedClusters clusters) = clusterChart clusters.
Proof.
  assert (Hidem : sortedClusters (sortedClusters clusters) =
                  sortedClusters clusters).
  { unfold sortedClusters. apply sort_of_sorted.
    apply sort_sorted. exact byProblemCount_total. }
  unfold clusterChart.
  split; [apply firstn_le_length|].
  split; [intros c Hc; apply In_firstn in Hc; now apply In_sort in Hc|].
  split; [|split; [|split; [apply sort_perm|split; [exact Hidem|]]]].
  - apply (StronglySorted_weaken (fun a b => byProblemCount a b = true)).
    + intros a b _ _ Hab. now apply Z.leb_le.
    + apply firstn_strongly_sorted.
      apply (sort_strongly_sorted _ byProblemCount byProblemCount_total
               byProblemCount_trans).
  - intros c c' Hc Hc' Hout. apply Z.leb_le.
    apply (firstn_sort_top _ byProblemCount byProblemCount_total
             byProblemCount_trans 8 clusters c c' Hc Hc' Hout).
  - now rewrite Hidem.
Qed.

(** ** Labels and colours of a score *)

Lemma greater_spec (a b : Q) : greater a b = true <-> (b < a)%Q.
Proof.
  unfold greater. rewrite negb_true_iff.
  destruct (Qle_bool a b) eqn:E.
  - apply Qle_bool_iff in E. split; [discriminate|].
    intros H. exfalso. now apply (Qlt_not_le _ _ H).
  - split; [|reflexivity]. intros _. apply Qnot_le_lt. intros H.
    apply Qle_bool_iff in H. congruence.
Qed.

Lemma less_spec (a b : Q) : less a b = true <-> (a < b)%Q.
Proof. unfold less. apply (greater_spec b a). Qed.

(** X17.  [formatSentiment] calls a score [Positive] exactly when it is above
    0.3, [Negative] exactly when it is below -0.3 and [Neutral] otherwise, so
    that 0.3 and -0.3 themselves are [Neutral]; [getSentimentColor] gives
    green exactly for the scores called [Positive], red exactly for those
    called [Negative] and yellow exactly for those called [Neutral].  The
    label of the opposite score is the opposite label. *)
Theorem sentiment_label_and_colour_agree (score : Q) :
  (formatSentiment score = "Positive" <-> (3 # 10 < score)%Q) /\
  (formatSentiment score = "Negative" <-> (score < - (3 # 10))%Q) /\
  (formatSentiment score = "Neutral" <->
   (- (3 # 10) <= score)%Q /\ (score <= 3 # 10)%Q) /\
  (getSentimentColor score = "text-green-600 bg-green-50 border-green-200" <->
   formatSentiment score = "Positive") /\
  (getSentimentColor score = "text-red-600 bg-red-50 border-red-200" <->
   formatSentiment score = "Negative") /\
  (getSentimentColor score = "text-yellow-600 bg-yellow-50 border-yellow-200"
   <-> formatSentiment score = "Neutral") /\
  (formatSentiment (- score) = "Positive" <->
   formatSentiment score = "Negative").
Proof.
  assert (Hneg : greater (- score) (3 # 10) = less score (- (3 # 10))).
  { destruct (less score (- (3 # 10))) eqn:E.
    - apply less_spec in E. apply greater_spec.
      apply Qopp_lt_compat in E. now rewrite Qopp_involutive in E.
    - destruct (greater (- score) (3 # 10)) eqn:G; [|reflexivity].
      apply greater_spec in G. apply Qopp_lt_compat in G.
      rewrite Qopp_involutive in G. apply less_spec in G. congruence. }
  assert (Hboth : greater score (3 # 10) = true ->
                  less score (- (3 # 10)) = false).
  { intros G. apply greater_spec in G.
    destruct (less score (- (3 # 10))) eqn:L; [|reflexivity].
    apply less_spec in L. exfalso. apply (Qlt_irrefl score).
    apply Qlt_trans with (- (3 # 10))%Q; [exact L|].
    apply Qlt_trans with (3 # 10)%Q; [reflexivity | exact G]. }
  assert (P1 : formatSentiment score = "Positive" <-> (3 # 10 < score)%Q).
  { rewrite <- greater_spec. unfold formatSentiment.
    destruct (greater score (3 # 10)); [tauto|].
    destruct (less score (- (3 # 10))); split; discriminate. }
  assert (P2 : formatSentiment score = "Negative" <->
               (score < - (3 # 10))%Q).
  { rewrite <- less_spec. unfold formatSentiment.
    destruct (greater score (3 # 10)) eqn:G.
    - rewrite (Hboth eq_refl). split; discriminate.
    - destruct (less score (- (3 # 10))); [tauto | split; discriminate]. }
  assert (P3 : formatSentiment score = "Neutral" <->
               (- (3 # 10) <= score)%Q /\ (score <= 3 # 10)%Q).
  { unfold formatSentiment.
    destruct (greater score (3 # 10)) eqn:G.
    - apply greater_spec in G. split; [discriminate|].
      intros [_ H]. exfalso. now apply (Qlt_not_le _ _ G).
    - destruct (less score (- (3 # 10))) eqn:L.
      + apply less_spec in L. split; [discriminate|].
        intros [H _]. exfalso. now apply (Qlt_not_le _ _ L).
      + split; [|reflexivity]. intros _. split; apply Qnot_lt_le; intros H.
        * apply less_spec in H. congruence.
        * apply greater_spec in H. congruence. }
  split; [exact P1|]. split; [exact P2|]. split; [exact P3|].
  split; [|split; [|split]].
  - unfold getSentimentColor, formatSentiment.
    destruct (greater score (3 # 10)), (less score (- (3 # 10)));
      split; intros H; (reflexivity || discriminate H).
  - unfold getSentimentColor, formatSentiment.
    destruct (greater score (3 # 10)), (less score (- (3 # 10)));
      split; intros H; (reflexivity || discriminate H).
  - unfold getSentimentColor, formatSentiment.
    destruct (greater score (3 # 10)), (less score (- (3 # 10)));
      split; intros H; (reflexivity || discriminate H).
  - rewrite P2, <- less_spec, <- Hneg. unfold formatSentiment.
    destruct (greater (- score) (3 # 10)); [tauto|].
    destruct (less (- score) (- (3 # 10))); split; discriminate.
Qed.

(** ** The seeding script, whatever the clock *)

Lemma seed_clusters_keep (cs : list (string * string)) (db db1 : Store)
  (m m1 : dict string Z) :
  fold_left Seed.seed_cluster cs (db, m) = (db1, m1) ->
  problems db1 = problems db /\ resolvedComments db1 = resolvedComments db.
Proof.
  revert db m. induction cs as [|c cs IH]; intros db m; cbn [fold_left].
  - intros [= <- _]. tauto.
  - unfold Seed.seed_cluster at 2.
    destruct (cluster.findFirst _ db) as [e|].
    + apply IH.
    + unfold cluster.create. intros H. apply IH in H. exact H.
Qed.

Lemma seed_problem_None (unique_problem : bool) (m : dict string Z)
  (citizenId now : Z) (uuid : nat -> string) (ds : list Seed.problemData) :
  fold_left (Seed.seed_problem unique_problem m citizenId now uuid) ds None
  = None.
Proof. induction ds as [|d ds IH]; [reflexivity | exact IH]. Qed.

Lemma seed_row_dated (m : dict string Z) (citizenId now : Z)
  (d : Seed.problemData) (id : string) :
  resolved_in_the_past d -> seeded_at citizenId now (Seed.row m citizenId now d id).
Proof.
  unfold resolved_in_the_past, seeded_at, Seed.row.
  cbn [Problem.created_at Problem.user_id Problem.resolved_at Problem.status].
  destruct (Seed.resolved_ago d) as [ago|]; cbn [option_map].
  - intros [Hs Hago]. repeat split; [exact Hs | lia].
  - intros Hs. repeat split. exact Hs.
Qed.

(** One turn of the loop over the entries: nothing is written, or the row of
    the entry is, with a comment of negative [time_taken] when the entry is
    [Resolved]. *)
Lemma seed_problem_step (unique_problem : bool) (m : dict string Z)
  (citizenId now : Z) (uuid : nat -> string) (db db' : Store) (k k' : nat)
  (d : Seed.problemData) :
  resolved_in_the_past d ->
  Seed.seed_problem unique_problem m citizenId now uuid (Some (db, k)) d =
    Some (db', k') ->
  (problems db' = problems db \/
   exists p, problems db' = problems db ++ [p] /\ seeded_at citizenId now p) /\
  (resolvedComments db' = resolvedComments db \/
   exists c, resolvedComments db' = resolvedComments db ++ [c] /\
             time_negative c).
Proof.
  intros Hd. unfold Seed.seed_problem.
  destruct (find _ (problems db)); [intros [= <- _]; tauto|].
  destruct (problem.create _ db) as [db1|] eqn:E1; [|discriminate].
  apply problem_create_Some in E1. destruct E1 as [_ [Hp1 [_ Hr1]]].
  pose proof (seed_row_dated m citizenId now d (uuid k) Hd) as Hrow.
  destruct (Seed.status d =? "Resolved")%string.
  - destruct (Problem.resolved_at (Seed.row m citizenId now d (uuid k)))
      as [r|] eqn:Er; [|discriminate].
    destruct (resolvedComment.create unique_problem _ db1) as [db2|] eqn:E2;
      [|discriminate].
    intros [= <- _].
    apply resolvedComment_create_Some in E2. destruct E2 as [Hp2 [_ Hr2]].
    split.
    + right. eexists. split; [rewrite Hp2; exact Hp1 | exact Hrow].
    + right. eexists. split; [rewrite Hr2, Hr1; reflexivity|].
      eexists. split; [reflexivity|].
      rewrite (floor_div _ 1000).
      destruct Hrow as [_ [_ Hrow]]. rewrite Er in Hrow.
      apply Z.div_lt_upper_bound; lia.
  - intros [= <- _]. split; [|now left].
    right. eexists. split; [exact Hp1 | exact Hrow].
Qed.

Lemma seed_problems_fold (unique_problem : bool) (m : dict string Z)
  (citizenId now : Z) (uuid : nat -> string) (db0 : Store)
  (ds : list Seed.problemData) :
  Forall resolved_in_the_past ds ->
  forall db k db' k',
    fold_left (Seed.seed_problem unique_problem m citizenId now uuid) ds
      (Some (db, k)) = Some (db', k') ->
    (forall p, In p (problems db) ->
       In p (problems db0) \/ seeded_at citizenId now p) ->
    (forall c, In c (resolvedComments db) ->
       In c (resolvedComments db0) \/ time_negative c) ->
    (forall p, In p (problems db') ->
       In p (problems db0) \/ seeded_at citizenId now p) /\
    (forall c, In c (resolvedComments db') ->
       In c (resolvedComments db0) \/ time_negative c).
Proof.
  induction 1 as [|d ds Hd Hds IH]; intros db k db' k'; cbn [fold_left].
  - intros [= <- _]. tauto.
  - destruct (Seed.seed_problem unique_problem m citizenId now uuid
                (Some (db, k)) d) as [[db1 k1]|] eqn:E.
    + intros Hfold Hp Hc.
      destruct (seed_problem_step _ _ _ _ _ _ _ _ _ _ Hd E) as [Tp Tc].
      apply (IH db1 k1 db' k' Hfold).
      * intros p Hin.
        destruct Tp as [E1 | [p1 [E1 Hp1]]]; rewrite E1 in Hin;
          [now apply Hp|].
        apply in_app_or in Hin. destruct Hin as [Hin | [<- | []]];
          [now apply Hp | now right].
      * intros c Hin.
        destruct Tc as [E1 | [c1 [E1 Hc1]]]; rewrite E1 in Hin;
          [now apply Hc|].
        apply in_app_or in Hin. destruct Hin as [Hin | [<- | []]];
          [now apply Hc | now right].
    + rewrite seed_problem_None. discriminate.
Qed.

Lemma problemsData_dated : Forall resolved_in_the_past Seed.problemsData.
Proof.
  unfold Seed.problemsData, resolved_in_the_past.
  repeat constructor; cbn [Seed.resolved_ago Seed.status];
    try discriminate; reflexivity.
Qed.

(** X18.  Whenever the seeding script completes, on any store and at any
    time, every cluster carries the statistics of its members, and every
    problem it has added is stored for the citizen with [resolved_at] set
    exactly when its status is [Resolved], and then earlier than its
    [created_at]; every comment it has added carries a negative
    [time_taken]. *)
Theorem seed_resolves_before_it_creates (unique_problem : bool)
  (citizenId now : Z) (uuid : nat -> string) (db db' : Store) :
  Seed.main unique_problem citizenId now uuid db = Some db' ->
  consistent db' /\
  (forall p, In p (problems db') ->
     In p (problems db) \/ seeded_at citizenId now p) /\
  (forall c, In c (resolvedComments db') ->
     In c (resolvedComments db) \/ time_negative c).
Proof.
  unfold Seed.main.
  destruct (fold_left Seed.seed_cluster Seed.clusters (db, [])) as [db1 m]
    eqn:E1.
  apply seed_clusters_keep in E1. destruct E1 as [Hp1 Hr1].
  destruct (fold_left _ Seed.problemsData (Some (db1, O))) as [[db2 k]|] eqn:E2;
    [|discriminate].
  intros H.
  destruct (refresh_each_spec (clusters db2) db2) as [db3 [E3 [Hp3 [Hr3 _]]]].
  { intros c Hc. now exists c. }
  destruct (refresh_all_consistent db2) as [db3' [E3' [_ Hcons]]].
  unfold refresh_all in H, E3'.
  assert (db3' = db') by congruence. assert (db3 = db') by congruence.
  subst db3' db3.
  split; [exact Hcons|].
  rewrite Hp3, Hr3.
  apply (seed_problems_fold unique_problem m citizenId now uuid db
           Seed.problemsData problemsData_dated db1 O db2 k E2).
  - intros p Hp. left. now rewrite <- Hp1.
  - intros c Hc. left. now rewrite <- Hr1.
Qed.

Lemma seed_resolves_before_it_creates_witness :
  Forall time_negative (resolvedComments seeded_store).
Proof.
  apply Forall_forall.
  assert (E : Seed.main false 1 early_2_november letters empty_store =
              Some seeded_store) by (vm_compute; reflexivity).
  destruct (seed_resolves_before_it_creates false 1 early_2_november letters
              empty_store seeded_store E) as [_ [_ H]].
  intros c Hc. destruct (H c Hc) as [[] | Hneg]. exact Hneg.
Defined.

(** ** Patterns *)

Lemma append_nil_r (s : string) : (s ++ "")%string = s.
Proof. induction s as [|a s IH]; simpl; [reflexivity | now rewrite IH]. Qed.

Lemma append_eq_nil (s1 s2 : string) :
  (s1 ++ s2)%string = "" -> s1 = "" /\ s2 = "".
Proof. destruct s1; simpl; [tauto | discriminate]. Qed.

Lemma append_eq_cons (s1 s2 s : string) (a : ascii) :
  (s1 ++ s2)%string = String a s ->
  (s1 = "" /\ s2 = String a s) \/
  (exists s1', s1 = String a s1' /\ s = (s1' ++ s2)%string).
Proof.
  destruct s1 as [|b s1]; simpl; [tauto|].
  intros [= -> <-]. right. now exists s1.
Qed.

Lemma Matches_nil (r : regex) : Matches r "" <-> nullable r = true.
Proof.
  split.
  - intros H. remember ""%string as s eqn:E.
    induction H as [|p a Hp|r1 r2 s H IH|r1 r2 s H IH
                    |r1 r2 s1 s2 H1 IH1 H2 IH2| |r s1 s2 H1 IH1 H2 IH2];
      simpl; try reflexivity; try discriminate.
    + now rewrite IH.
    + rewrite IH by exact E. apply orb_true_r.
    + apply append_eq_nil in E. destruct E as [-> ->].
      now rewrite IH1, IH2.
  - induction r as [| |p|r1 IH1 r2 IH2|r1 IH1 r2 IH2|r IH]; simpl;
      try discriminate.
    + constructor.
    + intros H. apply orb_true_iff in H.
      destruct H as [H | H]; [apply MAltL | apply MAltR]; auto.
    + intros H. apply andb_true_iff in H. destruct H as [H1 H2].
      change ""%string with ("" ++ "")%string. constructor; auto.
    + constructor.
Qed.

Lemma Matches_deriv (a : ascii) (r : regex) (s : string) :
  Matches (deriv a r) s <-> Matches r (String a s).
Proof.
  split.
  - revert s. induction r as [| |p|r1 IH1 r2 IH2|r1 IH1 r2 IH2|r IH];
      intros s H; simpl in H.
    + inversion H.
    + inversion H.
    + destruct (p a) eqn:E; inversion H; subst. now constructor.
    + inversion H; subst; [apply MAltL | apply MAltR]; auto.
    + assert (G : forall s0, Matches (Seq (deriv a r1) r2) s0 ->
                Matches (Seq r1 r2) (String a s0)).
      { intros s0 H0. inversion H0; subst.
        change (String a (s1 ++ s2)) with (String a s1 ++ s2)%string.
        constructor; auto. }
      destruct (nullable r1) eqn:E; [|now apply G].
      inversion H; subst; [now apply G|].
      change (String a s) with ("" ++ String a s)%string.
      constructor; [now apply Matches_nil | auto].
    + inversion H; subst.
      change (String a (s1 ++ s2)) with (String a s1 ++ s2)%string.
      constructor; auto.
  - intros H. remember (String a s) as s0 eqn:E. revert s E.
    induction H as [|p b Hp|r1 r2 s0 H IH|r1 r2 s0 H IH
                    |r1 r2 s1 s2 H1 IH1 H2 IH2|r|r s1 s2 H1 IH1 H2 IH2];
      intros s E; simpl.
    + discriminate.
    + injection E as -> <-. rewrite Hp. constructor.
    + apply MAltL. auto.
    + apply MAltR. auto.
    + apply append_eq_cons in E. destruct E as [[-> ->] | [s1' [-> ->]]].
      * apply Matches_nil in H1. rewrite H1. apply MAltR. auto.
      * destruct (nullable r1); [apply MAltL|]; constructor; auto.
    + discriminate.
    + apply append_eq_cons in E. destruct E as [[-> ->] | [s1' [-> ->]]].
      * now apply IH2.
      * constructor; auto.
Qed.

(** [test] decides the strings of the pattern. *)
Lemma test_Matches (r : regex) (s : string) : test r s = true <-> Matches r s.
Proof.
  revert r. induction s as [|a s IH]; intros r; simpl.
  - symmetry. apply Matches_nil.
  - rewrite IH. apply Matches_deriv.
Qed.

Lemma Matches_Chr (p : ascii -> bool) (s : string) :
  Matches (Chr p) s <-> exists a, s = String a "" /\ p a = true.
Proof.
  split.
  - intros H. inversion H; subst. eauto.
  - intros [a [-> H]]. now constructor.
Qed.

Lemma Matches_Seq (r1 r2 : regex) (s : string) :
  Matches (Seq r1 r2) s <->
  exists s1 s2, s = (s1 ++ s2)%string /\ Matches r1 s1 /\ Matches r2 s2.
Proof.
  split.
  - intros H. inversion H; subst. eauto.
  - intros [s1 [s2 [-> [H1 H2]]]]. now constructor.
Qed.

Lemma Matches_Star_Chr (p : ascii -> bool) (s : string) :
  Matches (Star (Chr p)) s <-> all_chars p s = true.
Proof.
  split.
  - intros H. remember (Star (Chr p)) as r eqn:E.
    induction H as [| | | | | |r s1 s2 H1 _ H2 IH2]; try discriminate.
    + reflexivity.
    + injection E as ->. specialize (IH2 eq_refl).
      inversion H1; subst. simpl. now rewrite H0, IH2.
  - induction s as [|a s IH]; simpl; [constructor|].
    intros H. apply andb_true_iff in H. destruct H as [Ha Hs].
    change (String a s) with (String a "" ++ s)%string.
    constructor; [now constructor | auto].
Qed.

Lemma Matches_Plus_Chr (p : ascii -> bool) (s : string) :
  Matches (Plus (Chr p)) s <-> s <> "" /\ all_chars p s = true.
Proof.
  unfold Plus. rewrite Matches_Seq. split.
  - intros [s1 [s2 [-> [H1 H2]]]]. apply Matches_Chr in H1.
    destruct H1 as [a [-> Ha]]. apply Matches_Star_Chr in H2.
    simpl. rewrite Ha, H2. split; [discriminate | reflexivity].
  - intros [Hne H]. destruct s as [|a s]; [contradiction|].
    simpl in H. apply andb_true_iff in H. destruct H as [Ha Hs].
    exists (String a ""), s. split; [reflexivity|].
    split; [now constructor | now apply Matches_Star_Chr].
Qed.

Lemma Matches_literal (c : ascii) (s : string) :
  Matches (Chr (Ascii.eqb c)) s <-> s = String c "".
Proof.
  rewrite Matches_Chr. split.
  - intros [a [-> H]]. apply Ascii.eqb_eq in H. now subst.
  - intros ->. exists c. split; [reflexivity | apply Ascii.eqb_refl].
Qed.

Lemma emailRegex_spec (s : string) :
  test emailRegex s = true <-> address_shaped s.
Proof.
  rewrite test_Matches. unfold emailRegex, address_shaped, word.
  split.
  - intros H.
    apply Matches_Seq in H. destruct H as [l [s1 [-> [Hl H]]]].
    apply Matches_Seq in H. destruct H as [at_ [s2 [-> [Hat H]]]].
    apply Matches_Seq in H. destruct H as [d [s3 [-> [Hd H]]]].
    apply Matches_Seq in H. destruct H as [dot [t [-> [Hdot Ht]]]].
    apply Matches_literal in Hat, Hdot. subst at_ dot.
    apply Matches_Plus_Chr in Hl, Hd, Ht.
    now exists l, d, t.
  - intros [l [d [t [-> [Hl [Hd Ht]]]]]].
    apply Matches_Plus_Chr in Hl, Hd, Ht.
    apply Matches_Seq. exists l, ("@" ++ d ++ "." ++ t)%string.
    split; [reflexivity|]. split; [exact Hl|].
    apply Matches_Seq. exists "@"%string, (d ++ "." ++ t)%string.
    split; [reflexivity|]. split; [now apply Matches_literal|].
    apply Matches_Seq. exists d, ("." ++ t)%string.
    split; [reflexivity|]. split; [exact Hd|].
    apply Matches_Seq. exists "."%string, t.
    split; [reflexivity|]. split; [now apply Matches_literal | exact Ht].
Qed.

Lemma occurrences_app (c : ascii) (s1 s2 : string) :
  occurrences c (s1 ++ s2) = (occurrences c s1 + occurrences c s2)%nat.
Proof. induction s1 as [|a s1 IH]; simpl; [reflexivity | rewrite IH; lia]. Qed.

Lemma all_chars_app (p : ascii -> bool) (s1 s2 : string) :
  all_chars p (s1 ++ s2) = all_chars p s1 && all_chars p s2.
Proof.
  induction s1 as [|a s1 IH]; simpl; [reflexivity|].
  now rewrite IH, andb_assoc.
Qed.

Lemma word_facts (w : string) :
  word w ->
  occurrences "@" w = 0%nat /\
  all_chars (fun a => negb (is_space a)) w = true /\
  (1 <= String.length w)%nat.
Proof.
  intros [Hne H]. split; [|split].
  - clear Hne. induction w as [|a w IH]; [reflexivity|].
    simpl in *. apply andb_true_iff in H. destruct H as [Ha Hw].
    rewrite (IH Hw). unfold not_space_or_at in Ha.
    apply negb_true_iff, orb_false_iff in Ha. destruct Ha as [_ Ha].
    now rewrite Ha.
  - clear Hne. induction w as [|a w IH]; [reflexivity|].
    simpl in *. apply andb_true_iff in H. destruct H as [Ha Hw].
    rewrite (IH Hw). unfold not_space_or_at in Ha.
    apply negb_true_iff, orb_false_iff in Ha. destruct Ha as [Ha _].
    now rewrite Ha.
  - destruct w; [contradiction | simpl; lia].
Qed.

(** X19.  The pattern that the server and the sign-in form test an email
    address with accepts exactly the strings made of a word, [@], a word, a
    dot and a word, where a word is one or more characters none of which is a
    space or [@].  So an accepted address has exactly one [@], no space and
    at least five characters. *)
Theorem email_pattern_shape (s : string) :
  (test emailRegex s = true <-> address_shaped s) /\
  (test emailRegex s = true ->
   occurrences "@" s = 1%nat /\
   all_chars (fun a => negb (is_space a)) s = true /\
   (5 <= String.length s)%nat).
Proof.
  split; [apply emailRegex_spec|].
  intros H. apply emailRegex_spec in H.
  destruct H as [l [d [t [-> [Hl [Hd Ht]]]]]].
  apply word_facts in Hl, Hd, Ht.
  destruct Hl as [L1 [L2 L3]], Hd as [D1 [D2 D3]], Ht as [T1 [T2 T3]].
  split; [|split].
  - rewrite !occurrences_app, L1, D1, T1. reflexivity.
  - rewrite !all_chars_app, L2, D2, T2. reflexivity.
  - rewrite !append_length. simpl String.length. lia.
Qed.

Lemma email_pattern_shape_witness :
  test emailRegex "citizen@admin.com" = true /\
  test emailRegex "citizen@admin" = false /\
  test emailRegex "citi zen@admin.com" = false /\
  occurrences "@" "citizen@admin.com" = 1%nat.
Proof.
  split; [reflexivity|]. split; [reflexivity|]. split; [reflexivity|].
  now apply (email_pattern_shape "citizen@admin.com").
Defined.

(** ** Accounts *)

Lemma missing_false (x : option string) :
  missing x = false -> exists s, x = Some s /\ s <> "".
Proof.
  destruct x as [[|a s]|]; try discriminate.
  intros _. eexists. split; [reflexivity | discriminate].
Qed.










(** X22.  [GET /api/users] lists, with id, name and role only, exactly the
    accounts whose role is [citizen_admin] for a municipal caller and exactly
    those whose role is [municipal_admin] for every other caller, in the
    order of the table.  So an account that has one of the two roles is never
    listed to itself, and an account with any other role is listed to
    nobody. *)
Theorem contacts_are_the_other_role (caller : User.t)
  (users : list Account.t) :
  exists contacts,
    get_users caller users = Json contacts /\
    (forall c, In c contacts <->
       exists u, In u users /\ c = Contact.of_account u /\
         Account.role u =
           if (User.role caller =? "municipal_admin")%string
           then "citizen_admin" else "municipal_admin") /\
    (forall c, In c contacts ->
       Contact.role c = "citizen_admin" \/ Contact.role c = "municipal_admin") /\
    (User.role caller = "citizen_admin" \/ User.role caller = "municipal_admin" ->
     forall c, In c contacts -> Contact.role c <> User.role caller).
Proof.
  unfold get_users. eexists. split; [reflexivity|].
  assert (Hiff : forall c,
            In c (map Contact.of_account
                    (filter
                       (fun u =>
                          (Account.role u =?
                           (if (User.role caller =? "municipal_admin")%string
                            then "citizen_admin" else "municipal_admin"))%string)
                       users)) <->
            exists u, In u users /\ c = Contact.of_account u /\
              Account.role u =
                if (User.role caller =? "municipal_admin")%string
                then "citizen_admin" else "municipal_admin").
  { intros c. rewrite in_map_iff. split.
    - intros [u [<- Hu]]. apply filter_In in Hu. destruct Hu as [Hu E].
      apply String.eqb_eq in E. now exists u.
    - intros [u [Hu [-> E]]]. exists u. split; [reflexivity|].
      apply filter_In. split; [exact Hu | now apply String.eqb_eq]. }
  split; [exact Hiff|]. split.
  - intros c Hc. apply Hiff in Hc. destruct Hc as [u [_ [-> E]]].
    cbn [Contact.of_account Contact.role]. rewrite E.
    destruct (User.role caller =? "municipal_admin")%string; tauto.
  - intros Hrole c Hc. apply Hiff in Hc. destruct Hc as [u [_ [-> E]]].
    cbn [Contact.of_account Contact.role]. rewrite E.
    destruct Hrole as [-> | ->]; discriminate.
Qed.

(** ** Numbers as strings *)

Lemma digit_value_digit (n : Z) :
  0 <= n -> digit_value (digit n) = Some (n mod 10).
Proof.
  intros Hn. unfold digit.
  assert (H : 0 <= n mod 10 < 10) by (apply Z.mod_pos_bound; lia).
  assert (C : n mod 10 = 0 \/ n mod 10 = 1 \/ n mod 10 = 2 \/ n mod 10 = 3 \/
              n mod 10 = 4 \/ n mod 10 = 5 \/ n mod 10 = 6 \/ n mod 10 = 7 \/
              n mod 10 = 8 \/ n mod 10 = 9) by lia.
  destruct C as [-> | [-> | [-> | [-> | [-> | [-> | [-> | [-> | [-> | ->]]]]]]]]];
    reflexivity.
Qed.

Lemma digit_is_decimal (n : Z) : 0 <= n -> is_decimal_digit (digit n) = true.
Proof.
  intros Hn. unfold is_decimal_digit. rewrite digit_value_digit by exact Hn.
  apply Z.ltb_lt. apply Z.mod_pos_bound. lia.
Qed.

Lemma decimal_digit_plain (a : ascii) :
  is_decimal_digit a = true ->
  is_space a = false /\ a <> "-"%char /\ a <> "+"%char /\
  a <> "x"%char /\ a <> "X"%char.
Proof.
  destruct a as [[] [] [] [] [] [] [] []]; intros H;
    try discriminate H; repeat split; (reflexivity || discriminate).
Qed.

Lemma strip_sign_plain (a : ascii) (s : string) :
  a <> "-"%char -> a <> "+"%char ->
  strip_sign (String a s) = (1, String a s).
Proof.
  intros H1 H2.
  destruct a as [[] [] [] [] [] [] [] []]; try reflexivity; contradiction.
Qed.

Lemma strip_prefix_plain (s : string) :
  all_chars is_decimal_digit s = true -> strip_prefix s = (10, s).
Proof.
  destruct s as [|a [|b s]]; [reflexivity | |].
  - intros _. destruct a as [[] [] [] [] [] [] [] []]; reflexivity.
  - cbn [all_chars]. intros H. apply andb_true_iff in H. destruct H as [_ H].
    apply andb_true_iff in H. destruct H as [Hb _].
    apply decimal_digit_plain in Hb. destruct Hb as [_ [_ [_ [Hx HX]]]].
    destruct (Ascii.eqb_spec a "0") as [-> | Ha].
    + destruct b as [[] [] [] [] [] [] [] []]; try reflexivity; contradiction.
    + destruct a as [[] [] [] [] [] [] [] []]; try reflexivity; contradiction.
Qed.

Lemma decimal_all (fuel : nat) (n : Z) (rest : string) :
  0 <= n -> all_chars is_decimal_digit rest = true ->
  all_chars is_decimal_digit (decimal fuel n rest) = true.
Proof.
  revert n rest. induction fuel as [|fuel IH]; intros n rest Hn Hrest;
    [exact Hrest|].
  cbn [decimal].
  assert (H1 : all_chars is_decimal_digit (String (digit n) rest) = true).
  { cbn [all_chars]. now rewrite digit_is_decimal, Hrest. }
  destruct (n <? 10); [exact H1|].
  apply IH; [apply Z.div_pos; lia | exact H1].
Qed.

Lemma decimal_head (fuel : nat) (n : Z) (rest : string) :
  exists a s, decimal (S fuel) n rest = String a s.
Proof.
  revert n rest. induction fuel as [|fuel IH]; intros n rest.
  - cbn [decimal]. destruct (n <? 10); eauto.
  - change (decimal (S (S fuel)) n rest)
      with (if n <? 10 then String (digit n) rest
            else decimal (S fuel) (n / 10) (String (digit n) rest)).
    destruct (n <? 10); [eauto | apply IH].
Qed.

(** Reading the decimal digits of [n] gives [n]. *)
Lemma digits_decimal (fuel : nat) (n : Z) (rest : string) :
  0 <= n -> (Z.to_nat n < fuel)%nat ->
  digits 10 (decimal fuel n rest) None = digits 10 rest (Some n).
Proof.
  revert n rest. induction fuel as [|fuel IH]; intros n rest Hn Hfuel; [lia|].
  assert (Hstep : forall v,
            digits 10 (String (digit n) rest) v =
            digits 10 rest
              (Some (10 * match v with Some v0 => v0 | None => 0 end
                     + n mod 10))).
  { intros v. cbn [digits]. rewrite digit_value_digit by exact Hn.
    assert (H : (n mod 10 <? 10) = true).
    { apply Z.ltb_lt. apply Z.mod_pos_bound. lia. }
    now rewrite H. }
  cbn [decimal]. destruct (Z.ltb_spec n 10) as [Hlt | Hge].
  - rewrite Hstep. rewrite Z.mod_small by lia. reflexivity.
  - rewrite IH.
    + rewrite Hstep. f_equal. f_equal.
      pose proof (Z.div_mod n 10). lia.
    + apply Z.div_pos; lia.
    + assert (n / 10 < n) by (apply Z.div_lt; lia).
      assert (0 <= n / 10) by (apply Z.div_pos; lia). lia.
Qed.

Lemma parseInt_decimal (n : Z) :
  0 <= n ->
  parseInt (decimal (S (Z.to_nat n)) n "") = Some n /\
  strip_prefix (decimal (S (Z.to_nat n)) n "") =
    (10, decimal (S (Z.to_nat n)) n "") /\
  digits 10 (decimal (S (Z.to_nat n)) n "") None = Some n.
Proof.
  intros Hn.
  assert (Hall : all_chars is_decimal_digit (decimal (S (Z.to_nat n)) n "")
                 = true) by now apply decimal_all.
  assert (Hd : digits 10 (decimal (S (Z.to_nat n)) n "") None = Some n).
  { rewrite digits_decimal by lia. reflexivity. }
  pose proof (strip_prefix_plain _ Hall) as Hp.
  split; [|split; [exact Hp | exact Hd]].
  unfold parseInt.
  destruct (decimal_head (Z.to_nat n) n "") as [a [s E]].
  rewrite E in *. cbn [all_chars] in Hall.
  apply andb_true_iff in Hall. destruct Hall as [Ha _].
  apply decimal_digit_plain in Ha. destruct Ha as [Hs [Hm [Hpl _]]].
  cbn [trim_start]. rewrite Hs, strip_sign_plain, Hp, Hd by assumption.
  cbn [option_map]. f_equal. lia.
Qed.

Lemma parseInt_minus (d : string) :
  parseInt (String "-" d) =
  let '(radix, s2) := strip_prefix d in
  option_map (Z.mul (-1)) (digits radix s2 None).
Proof. reflexivity. Qed.

(** [parseInt] reads back the digits that [toString] writes. *)
Lemma parseInt_toString (n : Z) : parseInt (toString n) = Some n.
Proof.
  unfold toString. destruct (Z.ltb_spec n 0) as [Hneg | Hpos].
  - destruct (parseInt_decimal (- n)) as [_ [Hp Hd]]; [lia|].
    rewrite parseInt_minus, Hp, Hd. cbn [option_map]. f_equal. lia.
  - now apply parseInt_decimal.
Qed.

(** X23.  [parseInt] reads back what [toString] writes: for every safe
    integer [n] (below 2^53 in absolute value), [parseInt(n.toString())] is
    [n].  This is how the id of the recipient, which the client keeps and
    sends as a string, reaches the server as the number it was. *)
Theorem parseInt_reads_toString (n : Z) :
  isSafeInteger n = true -> parseInt (toString n) = Some n.
Proof. intros _. apply parseInt_toString. Qed.

Lemma parseInt_reads_toString_witness :
  isSafeInteger 42 = true /\
  parseInt (toString 42) = Some 42 /\
  isSafeInteger (-9007199254740991) = true /\
  parseInt (toString (-9007199254740991)) = Some (-9007199254740991) /\
  toString (-7) = "-7" /\
  parseInt " 42px" = Some 42 /\
  parseInt "0x1f" = Some 31 /\
  parseInt "" = None /\
  parseInt "abc" = None.
Proof.
  split; [reflexivity|].
  split; [apply (parseInt_reads_toString 42); reflexivity|].
  split; [reflexivity|].
  split; [apply (parseInt_reads_toString (-9007199254740991)); reflexivity|].
  repeat split; reflexivity.
Defined.

(** ** Messages *)

Lemma by_created_at_total (a b : Message.t) :
  message.by_created_at a b = true \/ message.by_created_at b a = true.
Proof. unfold message.by_created_at. rewrite !Z.leb_le. lia. Qed.

Lemma by_created_at_trans (a b c : Message.t) :
  message.by_created_at a b = true -> message.by_created_at b c = true ->
  message.by_created_at a c = true.
Proof. unfold message.by_created_at. rewrite !Z.leb_le. lia. Qed.

Section FilterSort.

Variable A : Type.
Variable le : A -> A -> bool.
Hypothesis le_total : forall a b, le a b = true \/ le b a = true.
Hypothesis le_trans :
  forall a b c, le a b = true -> le b c = true -> le a c = true.
Variable p : A -> bool.

Lemma insert_head (x : A) (l : list A) :
  (forall y, In y l -> le x y = true) -> insert le x l = x :: l.
Proof.
  destruct l as [|y l]; [reflexivity|]. intros H. simpl.
  now rewrite (H y (or_introl eq_refl)).
Qed.

Lemma filter_insert (x : A) (l : list A) :
  StronglySorted (fun a b => le a b = true) l ->
  filter p (insert le x l) =
  if p x then insert le x (filter p l) else filter p l.
Proof.
  induction 1 as [|y l Hs IH Hall]; simpl.
  - now destruct (p x).
  - rewrite Forall_forall in Hall. destruct (le x y) eqn:E.
    + cbn [filter]. destruct (p x); [|reflexivity].
      symmetry. apply insert_head. intros z Hz.
      assert (Hz' : In z (y :: l)).
      { destruct (p y); [|right]; [|now apply filter_In in Hz].
        destruct Hz as [<- | Hz]; [now left | right].
        now apply filter_In in Hz. }
      destruct Hz' as [<- | Hz']; [exact E|].
      apply le_trans with y; [exact E | now apply Hall].
    + cbn [filter]. rewrite IH.
      destruct (p y), (p x); try reflexivity.
      simpl. now rewrite E.
Qed.

(** Filtering a sorted array, or sorting the filtered one. *)
Lemma filter_sort (l : list A) :
  filter p (sort le l) = sort le (filter p l).
Proof.
  induction l as [|x l IH]; [reflexivity|]. cbn [sort filter].
  rewrite filter_insert by now apply sort_strongly_sorted.
  rewrite IH. now destruct (p x).
Qed.

End FilterSort.

Lemma filter_and {A} (p q : A -> bool) (l : list A) :
  filter p (filter q l) = filter (fun x => q x && p x) l.
Proof.
  induction l as [|x l IH]; [reflexivity|]. cbn [filter].
  destruct (q x); cbn [filter andb]; now rewrite IH.
Qed.

(** X24.  A message that is accepted is stored at the end of the table with
    the caller as sender, the number that [parseInt] reads from the body as
    receiver, the text of the body and the time of the request; a request
    that is answered with an error stores nothing.  [GET /api/messages] gives
    a caller exactly the stored messages that the caller sent or received,
    oldest first.  So an accepted message is listed to its sender and to its
    receiver and to nobody else. *)
Theorem messages_reach_their_two_ends (admits : Message.t -> bool) :
  (forall user body now messages messages' m,
     post_message admits user body now messages = (messages', Json m) ->
     messages' = messages ++ [m] /\
     Message.sender_id m = User.id user /\
     parseInt (given (MessageBody.receiver_id body)) =
       Some (Message.receiver_id m) /\
     Message.message_text m = given (MessageBody.message_text body) /\
     Message.message_text m <> "" /\
     Message.created_at m = now /\
     forall reader ms,
       get_messages reader messages' = Json ms ->
       (In m ms <->
        User.id reader = Message.sender_id m \/
        User.id reader = Message.receiver_id m)) /\
  (forall user body now messages messages' code error,
     post_message admits user body now messages =
       (messages', Status code error) ->
     messages' = messages) /\
  (forall reader messages ms,
     get_messages reader messages = Json ms ->
     (forall m, In m ms <->
        In m messages /\
        (Message.sender_id m = User.id reader \/
         Message.receiver_id m = User.id reader)) /\
     Permutation ms (filter (message.involves (User.id reader)) messages) /\
     StronglySorted
       (fun a b => Message.created_at a <= Message.created_at b) ms).
Proof.
  assert (Hget : forall reader messages m,
            In m (sort message.by_created_at
                    (filter (message.involves (User.id reader)) messages)) <->
            In m messages /\
            (Message.sender_id m = User.id reader \/
             Message.receiver_id m = User.id reader)).
  { intros reader messages m. rewrite In_sort, filter_In.
    unfold message.involves. rewrite orb_true_iff, !Z.eqb_eq. reflexivity. }
  split; [|split].
  - intros user body now messages messages' m. unfold post_message.
    destruct (missing (MessageBody.receiver_id body)) eqn:Mr; cbn [orb];
      [discriminate|].
    destruct (missing (MessageBody.message_text body)) eqn:Mt;
      [discriminate|].
    destruct (parseInt (given (MessageBody.receiver_id body))) as [r|];
      [|discriminate].
    destruct (admits _); [|discriminate].
    intros [= <- <-].
    cbn [Message.sender_id Message.receiver_id Message.message_text
         Message.created_at].
    split; [reflexivity|]. split; [reflexivity|]. split; [reflexivity|].
    split; [reflexivity|]. split; [|split; [reflexivity|]].
    + apply missing_false in Mt. destruct Mt as [t [-> Ht]]. exact Ht.
    + intros reader ms Hms. unfold get_messages in Hms. injection Hms as <-.
      rewrite Hget. cbn [Message.sender_id Message.receiver_id]. split.
      * intros [_ [H | H]]; auto.
      * intros H. split; [apply in_or_app; right; now left|].
        destruct H as [H | H]; auto.
  - intros user body now messages messages' code error. unfold post_message.
    destruct (_ || _); [now intros [= <- _ _]|].
    destruct (parseInt _) as [r|]; [|now intros [= <- _ _]].
    destruct (admits _); [discriminate | now intros [= <- _ _]].
  - intros reader messages ms H. unfold get_messages in H. injection H as <-.
    split; [intros m; apply Hget|]. split; [apply sort_perm|].
    apply (StronglySorted_weaken
             (fun a b => message.by_created_at a b = true)).
    + intros a b _ _ Hab. now apply Z.leb_le.
    + apply (sort_strongly_sorted _ message.by_created_at
               by_created_at_total by_created_at_trans).
Qed.

Lemma thread_filter (u r : Z) (selected : string) (messages : list Message.t) :
  parseInt selected = Some r ->
  filteredMessages {| User.id := u; User.role := "" |} selected
    (sort message.by_created_at (filter (message.involves u) messages)) =
  sort message.by_created_at
    (filter
       (fun m =>
          (Message.sender_id m =? u) && (Message.receiver_id m =? r)
          || (Message.sender_id m =? r) && (Message.receiver_id m =? u))
       messages).
Proof.
  intros Hparse. unfold filteredMessages. rewrite Hparse.
  cbn [User.id strict_eq].
  rewrite (filter_sort _ message.by_created_at by_created_at_total
             by_created_at_trans).
  rewrite filter_and. f_equal. apply filter_ext. intros m.
  unfold message.involves.
  destruct (Message.sender_id m =? u), (Message.receiver_id m =? u),
    (Message.sender_id m =? r), (Message.receiver_id m =? r); reflexivity.
Qed.

(** X25.  The two ends of a conversation see the same thread.  When each of
    two users has fetched the messages and selected the other as recipient,
    by the other's id written as a string, the panel of each shows the same
    messages in the same order: the stored messages that one of the two sent
    to the other, oldest first.  With nobody selected the panel shows
    nothing. *)
Theorem both_ends_see_the_same_thread (u r : User.t)
  (messages ms_u ms_r : list Message.t) :
  get_messages u messages = Json ms_u ->
  get_messages r messages = Json ms_r ->
  filteredMessages u (toString (User.id r)) ms_u =
    filteredMessages r (toString (User.id u)) ms_r /\
  (forall m,
     In m (filteredMessages u (toString (User.id r)) ms_u) <->
     In m messages /\
     (Message.sender_id m = User.id u /\ Message.receiver_id m = User.id r \/
      Message.sender_id m = User.id r /\ Message.receiver_id m = User.id u)) /\
  StronglySorted (fun a b => Message.created_at a <= Message.created_at b)
    (filteredMessages u (toString (User.id r)) ms_u) /\
  filteredMessages u "" ms_u = [].
Proof.
  unfold get_messages. intros [= <-] [= <-].
  assert (Hu : filteredMessages u (toString (User.id r))
                 (sort message.by_created_at
                    (filter (message.involves (User.id u)) messages)) =
               sort message.by_created_at
                 (filter
                    (fun m =>
                       (Message.sender_id m =? User.id u)
                       && (Message.receiver_id m =? User.id r)
                       || (Message.sender_id m =? User.id r)
                          && (Message.receiver_id m =? User.id u))
                    messages)).
  { apply (thread_filter (User.id u) (User.id r)).
    apply parseInt_toString. }
  assert (Hr : filteredMessages r (toString (User.id u))
                 (sort message.by_created_at
                    (filter (message.involves (User.id r)) messages)) =
               sort message.by_created_at
                 (filter
                    (fun m =>
                       (Message.sender_id m =? User.id r)
                       && (Message.receiver_id m =? User.id u)
                       || (Message.sender_id m =? User.id u)
                          && (Message.receiver_id m =? User.id r))
                    messages)).
  { apply (thread_filter (User.id r) (User.id u)).
    apply parseInt_toString. }
  split; [|split; [|split]].
  - rewrite Hu, Hr. f_equal. apply filter_ext. intros m. apply orb_comm.
  - intros m. rewrite Hu, In_sort, filter_In.
    rewrite orb_true_iff, !andb_true_iff, !Z.eqb_eq. reflexivity.
  - rewrite Hu.
    apply (StronglySorted_weaken
             (fun a b => message.by_created_at a b = true)).
    + intros a b _ _ Hab. now apply Z.leb_le.
    + apply (sort_strongly_sorted _ message.by_created_at
               by_created_at_total by_created_at_trans).
  - unfold filteredMessages. change (parseInt "") with (@None Z).
    cbn [strict_eq]. apply filter_nil. intros m _.
    now rewrite andb_false_r.
Qed.

Lemma both_ends_see_the_same_thread_witness :
  exists ms_u ms_r,
    get_messages citizen chat = Json ms_u /\
    get_messages officer chat = Json ms_r /\
    filteredMessages citizen (toString 2) ms_u =
      filteredMessages officer (toString 1) ms_r /\
    map Message.message_text (filteredMessages citizen (toString 2) ms_u) =
      ["Any news?"; "On it"] /\
    List.length ms_r = 3%nat.
Proof.
  destruct (both_ends_see_the_same_thread citizen officer chat _ _
              eq_refl eq_refl) as [H _].
  eexists. eexists. split; [reflexivity|]. split; [reflexivity|].
  split; [exact H|]. split; reflexivity.
Defined.

(** ** The list of problems *)

Lemma include_user_spec (accounts : list Account.t) (ps : list Problem.t)
  (rows : list Listed.t) :
  include_user accounts ps = Some rows ->
  map Listed.problem rows = ps /\
  forall row, In row rows ->
    exists a, In a accounts /\
      Account.id a = Problem.user_id (Listed.problem row) /\
      Listed.citizen_name row = Account.name a.
Proof.
  revert rows. induction ps as [|p ps IH]; intros rows; cbn [include_user].
  - intros [= <-]. split; [reflexivity | intros row []].
  - destruct (find _ accounts) as [a|] eqn:F; [|discriminate].
    destruct (include_user accounts ps) as [rest|]; [|discriminate].
    intros [= <-]. destruct (IH rest eq_refl) as [H1 H2].
    split; [cbn [map Listed.problem]; now rewrite H1|].
    intros row [<- | Hrow]; [|now apply H2].
    apply find_some in F. destruct F as [Ha E]. apply Z.eqb_eq in E.
    exists a. repeat split; assumption.
Qed.

Lemma newest_first_total (a b : Problem.t) :
  (Problem.created_at b <=? Problem.created_at a) = true \/
  (Problem.created_at a <=? Problem.created_at b) = true.
Proof. rewrite !Z.leb_le. lia. Qed.

Lemma newest_first_trans (a b c : Problem.t) :
  (Problem.created_at b <=? Problem.created_at a) = true ->
  (Problem.created_at c <=? Problem.created_at b) = true ->
  (Problem.created_at c <=? Problem.created_at a) = true.
Proof. rewrite !Z.leb_le. lia. Qed.

Lemma StronglySorted_map {A B} (f : A -> B) (R : B -> B -> Prop)
  (l : list A) :
  StronglySorted R (map f l) -> StronglySorted (fun a b => R (f a) (f b)) l.
Proof.
  induction l as [|x l IH]; intros H; [constructor|].
  cbn [map] in H. inversion H as [|? ? Hs Hall]; subst.
  constructor; [now apply IH|].
  rewrite Forall_forall in *. intros y Hy. apply Hall. now apply in_map.
Qed.

(** X26.  [GET /api/problems] lists stored problems only, each with the name
    of the account that filed it, newest first.  A municipal caller is given
    the problems of everybody, every other caller only their own.  Without
    [cluster_id] in the query these are all of them; with a [cluster_id]
    that [parseInt] reads as a number, those of that cluster. *)
Theorem problem_list_is_scoped (fits : Z -> bool)
  (nan_where : option (Problem.t -> bool)) (accounts : list Account.t)
  (user : User.t) (cluster_id : option string) (db : Store)
  (rows : list Listed.t) :
  get_problems fits nan_where accounts user cluster_id db = Json rows ->
  (forall row, In row rows ->
     In (Listed.problem row) (problems db) /\
     in_scope user (Listed.problem row) = true /\
     exists a, In a accounts /\
       Account.id a = Problem.user_id (Listed.problem row) /\
       Listed.citizen_name row = Account.name a) /\
  StronglySorted
    (fun a b => Problem.created_at (Listed.problem b)
                <= Problem.created_at (Listed.problem a)) rows /\
  (User.role user <> "municipal_admin" ->
   forall row, In row rows ->
     Problem.user_id (Listed.problem row) = User.id user) /\
  (missing cluster_id = true ->
   Permutation (map Listed.problem rows)
     (filter (in_scope user) (problems db))) /\
  (forall n,
     missing cluster_id = false -> parseInt (given cluster_id) = Some n ->
     Permutation (map Listed.problem rows)
       (filter (fun p => in_scope user p && in_cluster n p) (problems db))).
Proof.
  unfold get_problems.
  destruct (cluster_where fits nan_where cluster_id) as [of_cluster|] eqn:W;
    [|discriminate].
  set (le := fun a b : Problem.t =>
               Problem.created_at b <=? Problem.created_at a).
  set (scope := fun p : Problem.t =>
                  ((User.role user =? "municipal_admin")%string
                   || of_user (User.id user) p) && of_cluster p).
  destruct (include_user accounts (sort le (problem.findMany scope db)))
    as [rows'|] eqn:I; [|discriminate].
  intros [= <-]. apply include_user_spec in I. destruct I as [Hmap Hnames].
  assert (Hin : forall row, In row rows' ->
            In (Listed.problem row) (problems db) /\
            scope (Listed.problem row) = true).
  { intros row Hrow. apply (in_map Listed.problem) in Hrow.
    rewrite Hmap in Hrow. apply In_sort in Hrow.
    now apply filter_In in Hrow. }
  assert (Hscope : forall p, scope p = true -> in_scope user p = true).
  { intros p H. unfold scope in H. apply andb_true_iff in H. apply H. }
  split; [|split; [|split; [|split]]].
  - intros row Hrow. destruct (Hin row Hrow) as [H1 H2].
    split; [exact H1|]. split; [now apply Hscope | now apply Hnames].
  - apply (StronglySorted_map Listed.problem
             (fun a b => Problem.created_at b <= Problem.created_at a)).
    rewrite Hmap.
    apply (StronglySorted_weaken (fun a b => le a b = true)).
    + intros a b _ _ Hab. now apply Z.leb_le.
    + apply (sort_strongly_sorted _ le newest_first_total newest_first_trans).
  - intros Hrole row Hrow. destruct (Hin row Hrow) as [_ H].
    apply Hscope in H. unfold in_scope in H.
    apply String.eqb_neq in Hrole. rewrite Hrole in H.
    now apply Z.eqb_eq in H.
  - intros M. rewrite Hmap. unfold cluster_where in W. rewrite M in W.
    injection W as <-. rewrite sort_perm. unfold problem.findMany.
    erewrite filter_ext; [reflexivity|].
    intros p. unfold scope, in_scope. apply andb_true_r.
  - intros n M P. rewrite Hmap. unfold cluster_where in W.
    rewrite M, P in W. destruct (fits n); [|discriminate].
    injection W as <-. rewrite sort_perm. reflexivity.
Qed.

Lemma problem_list_is_scoped_witness :
  exists rows,
    get_problems (fun _ => true) None directory citizen None two_reports_store
      = Json rows /\
    map Listed.citizen_name rows = ["Karthik"] /\
    (forall row, In row rows ->
       Problem.user_id (Listed.problem row) = User.id citizen).
Proof.
  destruct (get_problems (fun _ => true) None directory citizen None
              two_reports_store) as [rows| |] eqn:E;
    try (vm_compute in E; discriminate E).
  destruct (problem_list_is_scoped (fun _ => true) None directory citizen None
              two_reports_store rows E) as [_ [_ [H _]]].
  exists rows. split; [reflexivity|]. split.
  - vm_compute in E. injection E as <-. reflexivity.
  - apply H. discriminate.
Defined.

(** ** A suggestion and its cluster *)






(** ** Running the seeding script again *)

Lemma refresh_each_keeps (cs : list Cluster.t) (db db' : Store) :
  refresh_each cs db = Some db' ->
  problems db' = problems db /\
  resolvedComments db' = resolvedComments db /\
  map unrated (clusters db') = map unrated (clusters db).
Proof.
  revert db db'. induction cs as [|c cs IH]; intros db db'; cbn [refresh_each].
  - intros [= <-]. tauto.
  - destruct (refresh (Cluster.id c) db) as [db1|] eqn:E; [|discriminate].
    intros H. apply IH in H. destruct H as [H1 [H2 H3]].
    pose proof (refresh_Some _ _ _ E) as [Hp [Hr Hc]].
    rewrite H1, H2, H3, Hc, map_unrated_update. tauto.
Qed.

Lemma find_is_Some {A} (f : A -> bool) (l : list A) (x : A) :
  In x l -> f x = true -> exists y, find f l = Some y.
Proof.
  intros Hx Hf. destruct (find f l) as [y|] eqn:E; [now exists y|].
  apply (find_none _ _ E) in Hx. congruence.
Qed.

(** The loop over the clusters leaves a cluster of each name, and keeps what
    was there. *)
Lemma seed_clusters_ensure (cs : list (string * string)) (db db1 : Store)
  (m m1 : dict string Z) :
  fold_left Seed.seed_cluster cs (db, m) = (db1, m1) ->
  (forall e, In e (clusters db) -> In e (clusters db1)) /\
  (forall c, In c cs ->
     exists e, In e (clusters db1) /\ Cluster.cluster_name e = fst c).
Proof.
  revert db m. induction cs as [|c cs IH]; intros db m; cbn [fold_left].
  - intros [= <- _]. split; [auto | intros c []].
  - unfold Seed.seed_cluster at 2.
    destruct (cluster.findFirst _ db) as [e|] eqn:F.
    + intros H. apply IH in H. destruct H as [H1 H2].
      split; [exact H1|]. intros c0 [<- | Hc0]; [|now apply H2].
      apply find_some in F. destruct F as [He Hn].
      apply String.eqb_eq in Hn. exists e. split; [now apply H1 | exact Hn].
    + unfold cluster.create. intros H. apply IH in H. destruct H as [H1 H2].
      cbn [clusters] in H1. split.
      * intros e He. apply H1. apply in_or_app. now left.
      * intros c0 [<- | Hc0]; [|now apply H2].
        eexists. split; [apply H1; apply in_or_app; right; now left|].
        reflexivity.
Qed.

(** The loop over the entries leaves a problem with the title and location of
    each, keeps what was there and leaves the clusters alone. *)
Lemma seed_problems_ensure (unique_problem : bool) (m : dict string Z)
  (citizenId now : Z) (uuid : nat -> string) (ds : list Seed.problemData) :
  forall db k db' k',
    fold_left (Seed.seed_problem unique_problem m citizenId now uuid) ds
      (Some (db, k)) = Some (db', k') ->
    clusters db' = clusters db /\
    (forall p, In p (problems db) -> In p (problems db')) /\
    (forall d, In d ds ->
       exists p, In p (problems db') /\
         Problem.title p = Seed.title d /\
         Problem.location p = Seed.location d).
Proof.
  induction ds as [|d ds IH]; intros db k db' k'; cbn [fold_left].
  - intros [= <- _]. split; [reflexivity|]. split; [auto | intros d []].
  - destruct (Seed.seed_problem unique_problem m citizenId now uuid
                (Some (db, k)) d) as [[db1 k1]|] eqn:E;
      [|rewrite seed_problem_None; discriminate].
    intros H. apply IH in H. destruct H as [Hc [Hp Hd]].
    assert (Hstep : clusters db1 = clusters db /\
                    (forall p, In p (problems db) -> In p (problems db1)) /\
                    exists p, In p (problems db1) /\
                      Problem.title p = Seed.title d /\
                      Problem.location p = Seed.location d).
    { unfold Seed.seed_problem in E.
      destruct (find _ (problems db)) as [p|] eqn:F.
      - injection E as <- _. split; [reflexivity|]. split; [auto|].
        apply find_some in F. destruct F as [Hin Heq].
        apply andb_true_iff in Heq. destruct Heq as [H1 H2].
        apply String.eqb_eq in H1, H2. now exists p.
      - destruct (problem.create _ db) as [dbA|] eqn:E1; [|discriminate].
        apply problem_create_Some in E1. destruct E1 as [_ [HpA [HcA _]]].
        assert (G : forall dbB, problems dbB = problems dbA ->
                      clusters dbB = clusters dbA ->
                      clusters dbB = clusters db /\
                      (forall p, In p (problems db) -> In p (problems dbB)) /\
                      exists p, In p (problems dbB) /\
                        Problem.title p = Seed.title d /\
                        Problem.location p = Seed.location d).
        { intros dbB HpB HcB. split; [congruence|]. rewrite HpB, HpA. split.
          - intros p Hin. apply in_or_app. now left.
          - eexists. split; [apply in_or_app; right; now left|].
            split; reflexivity. }
        destruct (Seed.status d =? "Resolved")%string.
        + destruct (Problem.resolved_at _) as [r|]; [|discriminate].
          destruct (resolvedComment.create unique_problem _ dbA) as [dbB|]
            eqn:E2; [|discriminate].
          injection E as <- _.
          apply resolvedComment_create_Some in E2.
          destruct E2 as [HpB [HcB _]]. now apply G.
        + injection E as <- _. now apply G. }
    destruct Hstep as [Hc1 [Hp1 Hd1]].
    split; [congruence|]. split; [auto|].
    intros d0 [<- | Hd0]; [|now apply Hd].
    destruct Hd1 as [p [Hin Heq]]. exists p. split; [now apply Hp | exact Heq].
Qed.

(** On a store that has them all, the two loops write nothing. *)
Lemma seed_clusters_found (cs : list (string * string)) (db : Store)
  (m : dict string Z) :
  (forall c, In c cs ->
     exists e, In e (clusters db) /\ Cluster.cluster_name e = fst c) ->
  exists m', fold_left Seed.seed_cluster cs (db, m) = (db, m').
Proof.
  revert m. induction cs as [|c cs IH]; intros m H; cbn [fold_left].
  - now exists m.
  - destruct (H c (or_introl eq_refl)) as [e [He Hn]].
    destruct (find_is_Some
                (fun r => (Cluster.cluster_name r =? fst c)%string)
                (clusters db) e He) as [e' F].
    { now apply String.eqb_eq. }
    unfold Seed.seed_cluster at 2. unfold cluster.findFirst. rewrite F.
    apply IH. intros c0 Hc0. apply H. now right.
Qed.

Lemma seed_problems_found (unique_problem : bool) (m : dict string Z)
  (citizenId now : Z) (uuid : nat -> string) (ds : list Seed.problemData)
  (db : Store) (k : nat) :
  (forall d, In d ds ->
     exists p, In p (problems db) /\
       Problem.title p = Seed.title d /\
       Problem.location p = Seed.location d) ->
  fold_left (Seed.seed_problem unique_problem m citizenId now uuid) ds
    (Some (db, k)) = Some (db, k).
Proof.
  induction ds as [|d ds IH]; intros H; cbn [fold_left]; [reflexivity|].
  destruct (H d (or_introl eq_refl)) as [p [Hp [Ht Hl]]].
  destruct (find_is_Some
              (fun r => (Problem.title r =? Seed.title d)%string
                        && (Problem.location r =? Seed.location d)%string)
              (problems db) p Hp) as [p' F].
  { now rewrite Ht, Hl, !String.eqb_refl. }
  unfold Seed.seed_problem at 2. rewrite F.
  apply IH. intros d0 Hd0. apply H. now right.
Qed.

(** X28.  The seeding script can be run again.  On a store on which it has
    completed, at any time and with any generated ids, it completes again and
    adds nothing: the problems and the comments are as they were, and so are
    the clusters but for their statistics, which are computed anew. *)
Theorem seed_again_adds_nothing (unique_problem : bool) (citizenId now : Z)
  (uuid : nat -> string) (db db' : Store) :
  Seed.main unique_problem citizenId now uuid db = Some db' ->
  forall unique_problem' citizenId' now' uuid',
    exists db'',
      Seed.main unique_problem' citizenId' now' uuid' db' = Some db'' /\
      problems db'' = problems db' /\
      resolvedComments db'' = resolvedComments db' /\
      map unrated (clusters db'') = map unrated (clusters db') /\
      consistent db''.
Proof.
  unfold Seed.main at 1.
  destruct (fold_left Seed.seed_cluster Seed.clusters (db, [])) as [db1 m]
    eqn:E1.
  apply seed_clusters_ensure in E1. destruct E1 as [_ Hnames].
  destruct (fold_left _ Seed.problemsData (Some (db1, O))) as [[db2 k]|] eqn:E2;
    [|discriminate].
  apply seed_problems_ensure in E2. destruct E2 as [Hc2 [_ Hentries]].
  intros H. unfold refresh_all in H.
  apply refresh_each_keeps in H. destruct H as [Hp [_ Hu]].
  intros unique_problem' citizenId' now' uuid'.
  assert (Hnames' : forall c, In c Seed.clusters ->
            exists e, In e (clusters db') /\ Cluster.cluster_name e = fst c).
  { intros c Hc. destruct (Hnames c Hc) as [e [He Hn]].
    rewrite <- Hc2 in He. apply (in_map unrated) in He. rewrite <- Hu in He.
    apply in_map_iff in He. destruct He as [e' [E He']].
    exists e'. split; [exact He'|].
    apply (f_equal Cluster.cluster_name) in E.
    cbn [unrated Cluster.with_stats Cluster.cluster_name] in E. congruence. }
  assert (Hentries' : forall d, In d Seed.problemsData ->
            exists p, In p (problems db') /\
              Problem.title p = Seed.title d /\
              Problem.location p = Seed.location d).
  { intros d Hd. rewrite Hp. now apply Hentries. }
  destruct (seed_clusters_found Seed.clusters db' [] Hnames') as [m' F1].
  pose proof (seed_problems_found unique_problem' m' citizenId' now' uuid'
                Seed.problemsData db' O Hentries') as F2.
  destruct (refresh_all_consistent db') as [db'' [F3 [_ Hcons]]].
  exists db''. split.
  - unfold Seed.main.
    destruct (fold_left Seed.seed_cluster Seed.clusters (db', []))
      as [dbx mx] eqn:Ex.
    assert (Heq : (dbx, mx) = (db', m')) by (rewrite <- Ex; exact F1).
    injection Heq as -> ->. rewrite F2. exact F3.
  - unfold refresh_all in F3. apply refresh_each_keeps in F3.
    destruct F3 as [G1 [G2 G3]]. tauto.
Qed.

Lemma seed_again_adds_nothing_witness :
  exists db'',
    Seed.main true 7 0 letters seeded_store = Some db'' /\
    problems db'' = problems seeded_store.
Proof.
  assert (E : Seed.main false 1 early_2_november letters empty_store =
              Some seeded_store) by (vm_compute; reflexivity).
  destruct (seed_again_adds_nothing false 1 early_2_november letters
              empty_store seeded_store E true 7 0 letters)
    as [db'' [H1 [H2 _]]].
  exists db''. split; [exact H1 | exact H2].
Defined.

(** ** The search box *)






